(** * When Pigs Fly: the simulation core, embedded in Rocq

    A shallow embedding of the per-frame simulation code of the game
    (EnemyPlane.js, Player.js, Bird.js and the Game class of index.js) and
    the properties its specification states about it.

    Numbers.  A JavaScript number is modelled as a real number: the
    development speaks about the geometry and the control flow of the code,
    not about IEEE rounding, infinities or NaN.  Counters that the code only
    ever moves by whole steps (health, rescued birds, list lengths) are
    integers.

    Host.  [Math.random()], [performance.now()] and [setTimeout] are the
    three services of the JavaScript host the code uses; they are threaded
    through the model as an explicit [Host] state. *)

From Stdlib Require Import Reals Lra Lia ZArith List Bool Arith.
From Stdlib Require Import Zfloor.
From Stdlib Require String.
Import ListNotations.

Local Open Scope R_scope.

(* ================================================================= *)
(** ** Record update

    JavaScript assigns to one field of an object at a time.  [set] does the
    same for a record: [r <| field := v |>] is [r] with [field] replaced,
    and [r <| field ::= f |>] applies [f] to it. *)

Class Setter {Rec T : Type} (proj : Rec -> T) : Type :=
  set : (T -> T) -> Rec -> Rec.
Arguments set {Rec T} proj {Setter} _ _ /.

Notation "r <| p := v |>" := (set p (fun _ => v) r)
  (at level 1, left associativity, p at level 9).
Notation "r <| p ::= f |>" := (set p f r)
  (at level 1, left associativity, p at level 9).

(* ================================================================= *)
(** ** JavaScript arithmetic *)

Module JS.

(** [Math.sign]. *)
Definition sign (a : R) : R :=
  if Rlt_dec 0 a then 1 else if Rlt_dec a 0 then -1 else 0.

(** Rounding toward zero, the integer quotient used by [%]. *)
Definition trunc (a : R) : Z :=
  if Rle_dec 0 a then Zfloor a else Zceil a.

(** The remainder operator [a % b] on numbers: the result has the sign of
    the dividend, [a - b * trunc (a / b)]. *)
Definition rem (a b : R) : R := a - b * IZR (trunc (a / b)).

(** [Math.atan2 (y, x)], the angle of the point [(x, y)]. *)
Definition atan2 (y x : R) : R :=
  if Rlt_dec 0 x then atan (y / x)
  else if Rlt_dec x 0 then
         (if Rle_dec 0 y then atan (y / x) + PI else atan (y / x) - PI)
  else if Rlt_dec 0 y then PI / 2
  else if Rlt_dec y 0 then - (PI / 2)
  else 0.

(** Comparison results as booleans, for conditions built with [&&], [||]
    and [!]. *)
Definition lt (a b : R) : bool := if Rlt_dec a b then true else false.
Definition gt (a b : R) : bool := lt b a.
Definition le (a b : R) : bool := if Rle_dec a b then true else false.
Definition ge (a b : R) : bool := le b a.

End JS.

(* ================================================================= *)
(** ** THREE.Vector3 *)

Module Vector3.

Record t : Type := mk { x : R; y : R; z : R }.

#[global] Instance set_x : Setter x := fun f v => mk (f (x v)) (y v) (z v).
Arguments set_x _ _ /.
#[global] Instance set_y : Setter y := fun f v => mk (x v) (f (y v)) (z v).
Arguments set_y _ _ /.
#[global] Instance set_z : Setter z := fun f v => mk (x v) (y v) (f (z v)).
Arguments set_z _ _ /.

Definition zero : t := mk 0 0 0.

Definition add (a b : t) : t := mk (x a + x b) (y a + y b) (z a + z b).
Definition sub (a b : t) : t := mk (x a - x b) (y a - y b) (z a - z b).
Definition multiplyScalar (a : t) (s : R) : t :=
  mk (x a * s) (y a * s) (z a * s).
Definition addScaledVector (a v : t) (s : R) : t :=
  mk (x a + x v * s) (y a + y v * s) (z a + z v * s).
Definition dot (a b : t) : R := x a * x b + y a * y b + z a * z b.
Definition cross (a b : t) : t :=
  mk (y a * z b - z a * y b) (z a * x b - x a * z b)
     (x a * y b - y a * x b).
Definition lengthSq (a : t) : R := x a * x a + y a * y a + z a * z a.
Definition length (a : t) : R := sqrt (lengthSq a).

(** [normalize] is [divideScalar (length () || 1)]: the zero vector is
    left as it is. *)
Definition normalize (a : t) : t :=
  let l := length a in
  if Req_dec_T l 0 then a else mk (x a / l) (y a / l) (z a / l).

Definition distanceTo (a b : t) : R := length (sub a b).

(** [applyAxisAngle axis angle] for a unit [axis] (Rodrigues' rotation,
    which is what the quaternion built by [setFromAxisAngle] performs). *)
Definition applyAxisAngle (v axis : t) (angle : R) : t :=
  let c := cos angle in
  let s := sin angle in
  let k := cross axis v in
  let d := dot axis v * (1 - c) in
  mk (x v * c + x k * s + x axis * d)
     (y v * c + y k * s + y axis * d)
     (z v * c + z k * s + z axis * d).

(** [new Vector3 (0, 0, 1).applyEuler (rotation)] for an Euler triple in
    the default XYZ order: the third column of the rotation matrix. *)
Definition forwardOfEuler (rotation : t) : t :=
  mk (sin (y rotation))
     (- sin (x rotation) * cos (y rotation))
     (cos (x rotation) * cos (y rotation)).

(** Horizontal (XZ-plane) distance from the world centre,
    [Math.sqrt (p.x * p.x + p.z * p.z)]. *)
Definition distanceFromCenter (p : t) : R :=
  sqrt (x p * x p + z p * z p).

End Vector3.

(* ================================================================= *)
(** ** The JavaScript host: random numbers, the clock and timers *)

(** What a [setTimeout] callback of the modelled code does when it fires;
    the number is the identity of the enemy that armed it. *)
Inductive Callback : Type :=
| RestoreColors (enemy : nat)
| EndPostDiveClimb (enemy : nat).

Record Host : Type := mkHost {
  randomSeq : nat -> R;       (* the values Math.random() will return *)
  randomIdx : nat;            (* how many have been drawn             *)
  clockSeq : nat -> R;        (* the values performance.now()/1000 returns *)
  clockIdx : nat;             (* how many have been read              *)
  timers : list (R * Callback) (* pending setTimeout (delay ms, callback) *)
}.

(** A computation that uses the host. *)
Definition M (A : Type) : Type := Host -> A * Host.

Definition ret {A} (a : A) : M A := fun h => (a, h).
Definition bind {A B} (m : M A) (k : A -> M B) : M B :=
  fun h => let (a, h') := m h in k a h'.

Declare Scope host_scope.
Delimit Scope host_scope with host.
Notation "x <- m ;; k" := (bind m (fun x => k))
  (at level 61, m at next level, right associativity) : host_scope.
Notation "m ;;; k" := (bind m (fun _ => k))
  (at level 61, right associativity) : host_scope.

(** [Math.random ()]. *)
Definition random : M R :=
  fun h => (randomSeq h (randomIdx h),
            mkHost (randomSeq h) (S (randomIdx h)) (clockSeq h) (clockIdx h)
                   (timers h)).

(** [performance.now () / 1000]. *)
Definition now : M R :=
  fun h => (clockSeq h (clockIdx h),
            mkHost (randomSeq h) (randomIdx h) (clockSeq h) (S (clockIdx h))
                   (timers h)).

(** [setTimeout (callback, ms)]. *)
Definition setTimeout (cb : Callback) (ms : R) : M unit :=
  fun h => (tt,
            mkHost (randomSeq h) (randomIdx h) (clockSeq h) (clockIdx h)
                   (timers h ++ [(ms, cb)])).

(** The value the next [performance.now () / 1000] returns. *)
Definition nextNow (h : Host) : R := clockSeq h (clockIdx h).

(** Running a computation for its result, and for its final host. *)
Definition evalM {A} (m : M A) (h : Host) : A := fst (m h).
Definition execM {A} (m : M A) (h : Host) : Host := snd (m h).

(* ================================================================= *)
(** ** Constants of the Game constructor

    The Game constructor assigns these once and nothing writes them again;
    the other classes read them through [this.game]. *)

Module World.

Definition worldRadius : R := 845.
Definition boundaryWarningRadius : R := 675.
Definition boundaryPushRadius : R := 760.
Definition maxEnemies : nat := 40.
Definition maxBirds : nat := 20.
Definition maxEffects : nat := 30.
Definition runwayWidth : R := 20.
Definition runwayLength : R := 100.

End World.

(* ================================================================= *)
(** ** EnemyPlane.js *)

Module EnemyPlane.

Inductive BehaviorState : Type :=
| patrol | aggressive | evasive | diving | formation.

(** A [MeshPhongMaterial] as far as [damage] touches it: its colour, and
    the [_originalColor] that the white flash stashes on it. *)
Record Material : Type := mkMaterial {
  color : Z;
  originalColor : option Z
}.

Record Mesh : Type := mkMesh {
  meshPosition : Vector3.t;              (* mesh.position *)
  meshRotation : Vector3.t;              (* mesh.rotation *)
  materials : list Material;             (* the material of every child mesh *)
  propellerRotationX : R                 (* propeller.rotation.x *)
}.

#[global] Instance set_meshPosition : Setter meshPosition :=
  fun f r => mkMesh (f (meshPosition r)) (meshRotation r) (materials r)
    (propellerRotationX r).
#[global] Instance set_meshRotation : Setter meshRotation :=
  fun f r => mkMesh (meshPosition r) (f (meshRotation r)) (materials r)
    (propellerRotationX r).
#[global] Instance set_materials : Setter materials :=
  fun f r => mkMesh (meshPosition r) (meshRotation r) (f (materials r))
    (propellerRotationX r).
#[global] Instance set_propellerRotationX : Setter propellerRotationX :=
  fun f r => mkMesh (meshPosition r) (meshRotation r) (materials r) (f
    (propellerRotationX r)).

(** The fields the methods modelled below read or write.  [diveTarget] is
    only read while [isDiving], which is only set together with it; where
    the constructor has [null] the model has the origin. *)
Record t : Type := mk {
  eid : nat;                             (* which object this is *)
  position : Vector3.t;
  velocity : Vector3.t;
  rotation : Vector3.t;                  (* THREE.Euler, XYZ order *)
  health : Z;
  speed : R;
  turnRate : R;
  changeDirectionTime : R;
  lastDirectionChange : R;
  targetDirection : Vector3.t;
  returningToCenter : bool;
  behaviorState : BehaviorState;
  isEvading : bool;
  evasionDirection : R;
  evasionTimer : R;
  evasionDuration : R;
  isDiving : bool;
  diveTimer : R;
  diveDuration : R;
  diveTarget : Vector3.t;
  postDiveClimb : bool;
  isRolling : bool;
  rollTimer : R;
  rollDuration : R;
  rollProgress : R;
  currentSpeed : R;
  mesh : Mesh
}.

#[global] Instance set_eid : Setter eid :=
  fun f r => mk (f (eid r)) (position r) (velocity r) (rotation r)
    (health r) (speed r) (turnRate r) (changeDirectionTime r)
    (lastDirectionChange r) (targetDirection r) (returningToCenter r)
    (behaviorState r) (isEvading r) (evasionDirection r) (evasionTimer r)
    (evasionDuration r) (isDiving r) (diveTimer r) (diveDuration r)
    (diveTarget r) (postDiveClimb r) (isRolling r) (rollTimer r)
    (rollDuration r) (rollProgress r) (currentSpeed r) (mesh r).
#[global] Instance set_position : Setter position :=
  fun f r => mk (eid r) (f (position r)) (velocity r) (rotation r)
    (health r) (speed r) (turnRate r) (changeDirectionTime r)
    (lastDirectionChange r) (targetDirection r) (returningToCenter r)
    (behaviorState r) (isEvading r) (evasionDirection r) (evasionTimer r)
    (evasionDuration r) (isDiving r) (diveTimer r) (diveDuration r)
    (diveTarget r) (postDiveClimb r) (isRolling r) (rollTimer r)
    (rollDuration r) (rollProgress r) (currentSpeed r) (mesh r).
#[global] Instance set_velocity : Setter velocity :=
  fun f r => mk (eid r) (position r) (f (velocity r)) (rotation r)
    (health r) (speed r) (turnRate r) (changeDirectionTime r)
    (lastDirectionChange r) (targetDirection r) (returningToCenter r)
    (behaviorState r) (isEvading r) (evasionDirection r) (evasionTimer r)
    (evasionDuration r) (isDiving r) (diveTimer r) (diveDuration r)
    (diveTarget r) (postDiveClimb r) (isRolling r) (rollTimer r)
    (rollDuration r) (rollProgress r) (currentSpeed r) (mesh r).
#[global] Instance set_rotation : Setter rotation :=
  fun f r => mk (eid r) (position r) (velocity r) (f (rotation r))
    (health r) (speed r) (turnRate r) (changeDirectionTime r)
    (lastDirectionChange r) (targetDirection r) (returningToCenter r)
    (behaviorState r) (isEvading r) (evasionDirection r) (evasionTimer r)
    (evasionDuration r) (isDiving r) (diveTimer r) (diveDuration r)
    (diveTarget r) (postDiveClimb r) (isRolling r) (rollTimer r)
    (rollDuration r) (rollProgress r) (currentSpeed r) (mesh r).
#[global] Instance set_health : Setter health :=
  fun f r => mk (eid r) (position r) (velocity r) (rotation r) (f
    (health r)) (speed r) (turnRate r) (changeDirectionTime r)
    (lastDirectionChange r) (targetDirection r) (returningToCenter r)
    (behaviorState r) (isEvading r) (evasionDirection r) (evasionTimer r)
    (evasionDuration r) (isDiving r) (diveTimer r) (diveDuration r)
    (diveTarget r) (postDiveClimb r) (isRolling r) (rollTimer r)
    (rollDuration r) (rollProgress r) (currentSpeed r) (mesh r).
#[global] Instance set_speed : Setter speed :=
  fun f r => mk (eid r) (position r) (velocity r) (rotation r) (health r) (f
    (speed r)) (turnRate r) (changeDirectionTime r) (lastDirectionChange r)
    (targetDirection r) (returningToCenter r) (behaviorState r)
    (isEvading r) (evasionDirection r) (evasionTimer r) (evasionDuration r)
    (isDiving r) (diveTimer r) (diveDuration r) (diveTarget r)
    (postDiveClimb r) (isRolling r) (rollTimer r) (rollDuration r)
    (rollProgress r) (currentSpeed r) (mesh r).
#[global] Instance set_turnRate : Setter turnRate :=
  fun f r => mk (eid r) (position r) (velocity r) (rotation r) (health r)
    (speed r) (f (turnRate r)) (changeDirectionTime r)
    (lastDirectionChange r) (targetDirection r) (returningToCenter r)
    (behaviorState r) (isEvading r) (evasionDirection r) (evasionTimer r)
    (evasionDuration r) (isDiving r) (diveTimer r) (diveDuration r)
    (diveTarget r) (postDiveClimb r) (isRolling r) (rollTimer r)
    (rollDuration r) (rollProgress r) (currentSpeed r) (mesh r).
#[global] Instance set_changeDirectionTime : Setter changeDirectionTime :=
  fun f r => mk (eid r) (position r) (velocity r) (rotation r) (health r)
    (speed r) (turnRate r) (f (changeDirectionTime r))
    (lastDirectionChange r) (targetDirection r) (returningToCenter r)
    (behaviorState r) (isEvading r) (evasionDirection r) (evasionTimer r)
    (evasionDuration r) (isDiving r) (diveTimer r) (diveDuration r)
    (diveTarget r) (postDiveClimb r) (isRolling r) (rollTimer r)
    (rollDuration r) (rollProgress r) (currentSpeed r) (mesh r).
#[global] Instance set_lastDirectionChange : Setter lastDirectionChange :=
  fun f r => mk (eid r) (position r) (velocity r) (rotation r) (health r)
    (speed r) (turnRate r) (changeDirectionTime r) (f
    (lastDirectionChange r)) (targetDirection r) (returningToCenter r)
    (behaviorState r) (isEvading r) (evasionDirection r) (evasionTimer r)
    (evasionDuration r) (isDiving r) (diveTimer r) (diveDuration r)
    (diveTarget r) (postDiveClimb r) (isRolling r) (rollTimer r)
    (rollDuration r) (rollProgress r) (currentSpeed r) (mesh r).
#[global] Instance set_targetDirection : Setter targetDirection :=
  fun f r => mk (eid r) (position r) (velocity r) (rotation r) (health r)
    (speed r) (turnRate r) (changeDirectionTime r) (lastDirectionChange r)
    (f (targetDirection r)) (returningToCenter r) (behaviorState r)
    (isEvading r) (evasionDirection r) (evasionTimer r) (evasionDuration r)
    (isDiving r) (diveTimer r) (diveDuration r) (diveTarget r)
    (postDiveClimb r) (isRolling r) (rollTimer r) (rollDuration r)
    (rollProgress r) (currentSpeed r) (mesh r).
#[global] Instance set_returningToCenter : Setter returningToCenter :=
  fun f r => mk (eid r) (position r) (velocity r) (rotation r) (health r)
    (speed r) (turnRate r) (changeDirectionTime r) (lastDirectionChange r)
    (targetDirection r) (f (returningToCenter r)) (behaviorState r)
    (isEvading r) (evasionDirection r) (evasionTimer r) (evasionDuration r)
    (isDiving r) (diveTimer r) (diveDuration r) (diveTarget r)
    (postDiveClimb r) (isRolling r) (rollTimer r) (rollDuration r)
    (rollProgress r) (currentSpeed r) (mesh r).
#[global] Instance set_behaviorState : Setter behaviorState :=
  fun f r => mk (eid r) (position r) (velocity r) (rotation r) (health r)
    (speed r) (turnRate r) (changeDirectionTime r) (lastDirectionChange r)
    (targetDirection r) (returningToCenter r) (f (behaviorState r))
    (isEvading r) (evasionDirection r) (evasionTimer r) (evasionDuration r)
    (isDiving r) (diveTimer r) (diveDuration r) (diveTarget r)
    (postDiveClimb r) (isRolling r) (rollTimer r) (rollDuration r)
    (rollProgress r) (currentSpeed r) (mesh r).
#[global] Instance set_isEvading : Setter isEvading :=
  fun f r => mk (eid r) (position r) (velocity r) (rotation r) (health r)
    (speed r) (turnRate r) (changeDirectionTime r) (lastDirectionChange r)
    (targetDirection r) (returningToCenter r) (behaviorState r) (f
    (isEvading r)) (evasionDirection r) (evasionTimer r) (evasionDuration r)
    (isDiving r) (diveTimer r) (diveDuration r) (diveTarget r)
    (postDiveClimb r) (isRolling r) (rollTimer r) (rollDuration r)
    (rollProgress r) (currentSpeed r) (mesh r).
#[global] Instance set_evasionDirection : Setter evasionDirection :=
  fun f r => mk (eid r) (position r) (velocity r) (rotation r) (health r)
    (speed r) (turnRate r) (changeDirectionTime r) (lastDirectionChange r)
    (targetDirection r) (returningToCenter r) (behaviorState r)
    (isEvading r) (f (evasionDirection r)) (evasionTimer r)
    (evasionDuration r) (isDiving r) (diveTimer r) (diveDuration r)
    (diveTarget r) (postDiveClimb r) (isRolling r) (rollTimer r)
    (rollDuration r) (rollProgress r) (currentSpeed r) (mesh r).
#[global] Instance set_evasionTimer : Setter evasionTimer :=
  fun f r => mk (eid r) (position r) (velocity r) (rotation r) (health r)
    (speed r) (turnRate r) (changeDirectionTime r) (lastDirectionChange r)
    (targetDirection r) (returningToCenter r) (behaviorState r)
    (isEvading r) (evasionDirection r) (f (evasionTimer r))
    (evasionDuration r) (isDiving r) (diveTimer r) (diveDuration r)
    (diveTarget r) (postDiveClimb r) (isRolling r) (rollTimer r)
    (rollDuration r) (rollProgress r) (currentSpeed r) (mesh r).
#[global] Instance set_evasionDuration : Setter evasionDuration :=
  fun f r => mk (eid r) (position r) (velocity r) (rotation r) (health r)
    (speed r) (turnRate r) (changeDirectionTime r) (lastDirectionChange r)
    (targetDirection r) (returningToCenter r) (behaviorState r)
    (isEvading r) (evasionDirection r) (evasionTimer r) (f
    (evasionDuration r)) (isDiving r) (diveTimer r) (diveDuration r)
    (diveTarget r) (postDiveClimb r) (isRolling r) (rollTimer r)
    (rollDuration r) (rollProgress r) (currentSpeed r) (mesh r).
#[global] Instance set_isDiving : Setter isDiving :=
  fun f r => mk (eid r) (position r) (velocity r) (rotation r) (health r)
    (speed r) (turnRate r) (changeDirectionTime r) (lastDirectionChange r)
    (targetDirection r) (returningToCenter r) (behaviorState r)
    (isEvading r) (evasionDirection r) (evasionTimer r) (evasionDuration r)
    (f (isDiving r)) (diveTimer r) (diveDuration r) (diveTarget r)
    (postDiveClimb r) (isRolling r) (rollTimer r) (rollDuration r)
    (rollProgress r) (currentSpeed r) (mesh r).
#[global] Instance set_diveTimer : Setter diveTimer :=
  fun f r => mk (eid r) (position r) (velocity r) (rotation r) (health r)
    (speed r) (turnRate r) (changeDirectionTime r) (lastDirectionChange r)
    (targetDirection r) (returningToCenter r) (behaviorState r)
    (isEvading r) (evasionDirection r) (evasionTimer r) (evasionDuration r)
    (isDiving r) (f (diveTimer r)) (diveDuration r) (diveTarget r)
    (postDiveClimb r) (isRolling r) (rollTimer r) (rollDuration r)
    (rollProgress r) (currentSpeed r) (mesh r).
#[global] Instance set_diveDuration : Setter diveDuration :=
  fun f r => mk (eid r) (position r) (velocity r) (rotation r) (health r)
    (speed r) (turnRate r) (changeDirectionTime r) (lastDirectionChange r)
    (targetDirection r) (returningToCenter r) (behaviorState r)
    (isEvading r) (evasionDirection r) (evasionTimer r) (evasionDuration r)
    (isDiving r) (diveTimer r) (f (diveDuration r)) (diveTarget r)
    (postDiveClimb r) (isRolling r) (rollTimer r) (rollDuration r)
    (rollProgress r) (currentSpeed r) (mesh r).
#[global] Instance set_diveTarget : Setter diveTarget :=
  fun f r => mk (eid r) (position r) (velocity r) (rotation r) (health r)
    (speed r) (turnRate r) (changeDirectionTime r) (lastDirectionChange r)
    (targetDirection r) (returningToCenter r) (behaviorState r)
    (isEvading r) (evasionDirection r) (evasionTimer r) (evasionDuration r)
    (isDiving r) (diveTimer r) (diveDuration r) (f (diveTarget r))
    (postDiveClimb r) (isRolling r) (rollTimer r) (rollDuration r)
    (rollProgress r) (currentSpeed r) (mesh r).
#[global] Instance set_postDiveClimb : Setter postDiveClimb :=
  fun f r => mk (eid r) (position r) (velocity r) (rotation r) (health r)
    (speed r) (turnRate r) (changeDirectionTime r) (lastDirectionChange r)
    (targetDirection r) (returningToCenter r) (behaviorState r)
    (isEvading r) (evasionDirection r) (evasionTimer r) (evasionDuration r)
    (isDiving r) (diveTimer r) (diveDuration r) (diveTarget r) (f
    (postDiveClimb r)) (isRolling r) (rollTimer r) (rollDuration r)
    (rollProgress r) (currentSpeed r) (mesh r).
#[global] Instance set_isRolling : Setter isRolling :=
  fun f r => mk (eid r) (position r) (velocity r) (rotation r) (health r)
    (speed r) (turnRate r) (changeDirectionTime r) (lastDirectionChange r)
    (targetDirection r) (returningToCenter r) (behaviorState r)
    (isEvading r) (evasionDirection r) (evasionTimer r) (evasionDuration r)
    (isDiving r) (diveTimer r) (diveDuration r) (diveTarget r)
    (postDiveClimb r) (f (isRolling r)) (rollTimer r) (rollDuration r)
    (rollProgress r) (currentSpeed r) (mesh r).
#[global] Instance set_rollTimer : Setter rollTimer :=
  fun f r => mk (eid r) (position r) (velocity r) (rotation r) (health r)
    (speed r) (turnRate r) (changeDirectionTime r) (lastDirectionChange r)
    (targetDirection r) (returningToCenter r) (behaviorState r)
    (isEvading r) (evasionDirection r) (evasionTimer r) (evasionDuration r)
    (isDiving r) (diveTimer r) (diveDuration r) (diveTarget r)
    (postDiveClimb r) (isRolling r) (f (rollTimer r)) (rollDuration r)
    (rollProgress r) (currentSpeed r) (mesh r).
#[global] Instance set_rollDuration : Setter rollDuration :=
  fun f r => mk (eid r) (position r) (velocity r) (rotation r) (health r)
    (speed r) (turnRate r) (changeDirectionTime r) (lastDirectionChange r)
    (targetDirection r) (returningToCenter r) (behaviorState r)
    (isEvading r) (evasionDirection r) (evasionTimer r) (evasionDuration r)
    (isDiving r) (diveTimer r) (diveDuration r) (diveTarget r)
    (postDiveClimb r) (isRolling r) (rollTimer r) (f (rollDuration r))
    (rollProgress r) (currentSpeed r) (mesh r).
#[global] Instance set_rollProgress : Setter rollProgress :=
  fun f r => mk (eid r) (position r) (velocity r) (rotation r) (health r)
    (speed r) (turnRate r) (changeDirectionTime r) (lastDirectionChange r)
    (targetDirection r) (returningToCenter r) (behaviorState r)
    (isEvading r) (evasionDirection r) (evasionTimer r) (evasionDuration r)
    (isDiving r) (diveTimer r) (diveDuration r) (diveTarget r)
    (postDiveClimb r) (isRolling r) (rollTimer r) (rollDuration r) (f
    (rollProgress r)) (currentSpeed r) (mesh r).
#[global] Instance set_currentSpeed : Setter currentSpeed :=
  fun f r => mk (eid r) (position r) (velocity r) (rotation r) (health r)
    (speed r) (turnRate r) (changeDirectionTime r) (lastDirectionChange r)
    (targetDirection r) (returningToCenter r) (behaviorState r)
    (isEvading r) (evasionDirection r) (evasionTimer r) (evasionDuration r)
    (isDiving r) (diveTimer r) (diveDuration r) (diveTarget r)
    (postDiveClimb r) (isRolling r) (rollTimer r) (rollDuration r)
    (rollProgress r) (f (currentSpeed r)) (mesh r).
#[global] Instance set_mesh : Setter mesh :=
  fun f r => mk (eid r) (position r) (velocity r) (rotation r) (health r)
    (speed r) (turnRate r) (changeDirectionTime r) (lastDirectionChange r)
    (targetDirection r) (returningToCenter r) (behaviorState r)
    (isEvading r) (evasionDirection r) (evasionTimer r) (evasionDuration r)
    (isDiving r) (diveTimer r) (diveDuration r) (diveTarget r)
    (postDiveClimb r) (isRolling r) (rollTimer r) (rollDuration r)
    (rollProgress r) (currentSpeed r) (f (mesh r)).

(** Constants the constructor assigns and nothing writes again. *)
Definition minAltitude : R := 15.
Definition maxAltitude : R := 120.
Definition altitudeWarningThreshold : R := 110.
Definition speedChangeRate : R := 0.5.

Definition BehaviorState_eqb (a b : BehaviorState) : bool :=
  match a, b with
  | patrol, patrol | aggressive, aggressive | evasive, evasive
  | diving, diving | formation, formation => true
  | _, _ => false
  end.

(** *** Starting a special maneuver (lines 548-568, 599-619, 665-670) *)

Definition startEvasiveManeuvers (e : t) : M t :=
  (r1 <- random ;;
   r2 <- random ;;
   ret (e <| isEvading := true |>
          <| evasionTimer := 0 |>
          <| evasionDuration := 1 + r1 * 2 |>
          <| evasionDirection := if Rlt_dec r2 0.5 then 1 else -1 |>))%host.

Definition isSome {A} (o : option A) : bool :=
  match o with Some _ => true | None => false end.

(** [player] is the position of [this.game.player], or [None] when the game
    has no player. *)
Definition startDivingAttack (player : option Vector3.t) (e : t) : M t :=
  match player with
  | None => ret e
  | Some playerPosition =>
    if Rlt_dec (Vector3.y (position e)) 30 then ret e
    else if Rgt_dec (Vector3.y playerPosition) maxAltitude then ret e
    else
      (r1 <- random ;;
       r2 <- random ;;
       r3 <- random ;;
       let target :=
         playerPosition <| Vector3.x ::= fun a => a + (r2 - 0.5) * 20 |>
                        <| Vector3.z ::= fun a => a + (r3 - 0.5) * 20 |> in
       let target :=
         if Rgt_dec (Vector3.y target) (maxAltitude - 10)
         then target <| Vector3.y := maxAltitude - 10 |>
         else target in
       ret (e <| isDiving := true |>
              <| diveTimer := 0 |>
              <| diveDuration := 2 + r1 |>
              <| diveTarget := target |>))%host
  end.

Definition startBarrelRoll (e : t) : t :=
  e <| isRolling := true |>
    <| rollTimer := 0 |>
    <| rollDuration := 1.5 |>
    <| rollProgress := 0 |>.

Definition startSpecialManeuver (player : option Vector3.t) (e : t) : M t :=
  (maneuverType <- random ;;
   if JS.lt maneuverType 0.4 && isSome player
   then startDivingAttack player e
   else if Rlt_dec maneuverType 0.7 then startEvasiveManeuvers e
   else ret (startBarrelRoll e))%host.

(** *** Running a special maneuver (lines 570-597, 621-663, 672-687) *)

Definition handleEvasiveManeuvers (delta : R) (e : t) : t :=
  let e := e <| evasionTimer ::= fun a => a + delta |> in
  if Rgt_dec (evasionTimer e) (evasionDuration e)
  then e <| isEvading := false |>
  else
    let currentDirection := Vector3.forwardOfEuler (rotation e) in
    let upVector := Vector3.mk 0 1 0 in
    let sideVector :=
      Vector3.normalize (Vector3.cross currentDirection upVector) in
    let oscillation :=
      sin (evasionTimer e * 3) * evasionDirection e * 0.7 in
    let d :=
      Vector3.addScaledVector currentDirection sideVector
                              (oscillation * 0.6) in
    let d := d <| Vector3.y ::= fun a => a + sin (evasionTimer e * 2) * 0.15 |> in
    e <| targetDirection := Vector3.normalize d |>.

Definition handleDivingAttack (delta : R) (e : t) : M t :=
  let e := e <| diveTimer ::= fun a => a + delta |> in
  if Rgt_dec (Vector3.y (position e)) altitudeWarningThreshold then
    ret (e <| isDiving := false |>
           <| targetDirection ::= fun d => d <| Vector3.y := -0.3 |> |>)
  else if Rgt_dec (diveTimer e) (diveDuration e) then
    (let e := e <| isDiving := false |>
                <| postDiveClimb := true |>
                <| targetDirection ::= fun d =>
                     Vector3.normalize (d <| Vector3.y := 0.2 |>) |> in
     setTimeout (EndPostDiveClimb (eid e)) 3000 ;;;
     ret e)%host
  else
    let toDiveTarget :=
      Vector3.normalize (Vector3.sub (diveTarget e) (position e)) in
    let diveProgress := diveTimer e / diveDuration e in
    let diveAngle := -0.2 - diveProgress * 0.3 in
    ret (e <| targetDirection :=
                Vector3.normalize (toDiveTarget <| Vector3.y := diveAngle |>) |>).

Definition handleBarrelRoll (delta : R) (e : t) : t :=
  let e := e <| rollTimer ::= fun a => a + delta |> in
  if Rgt_dec (rollTimer e) (rollDuration e) then
    e <| isRolling := false |>
      <| rotation ::= fun r => r <| Vector3.z := 0 |> |>
  else
    let e := e <| rollProgress := rollTimer e / rollDuration e |> in
    e <| rotation ::= fun r =>
           r <| Vector3.z := sin (rollProgress e * PI * 2) * PI |> |>.

(** *** Picking a new random heading (lines 476-502) *)

Definition updateRandomDirection (e : t) : M t :=
  (r1 <- random ;;
   r2 <- random ;;
   r3 <- random ;;
   let newDirection :=
     Vector3.normalize (Vector3.mk (r1 - 0.5) ((r2 - 0.5) * 0.1) (r3 - 0.5)) in
   let e := e <| targetDirection := newDirection |> in
   ret (if Rlt_dec (Vector3.y (position e)) (minAltitude + 5) then
          e <| targetDirection ::= fun d =>
                 d <| Vector3.y := Rabs (Vector3.y d) * 0.5 |> |>
        else if Rgt_dec (Vector3.y (position e)) altitudeWarningThreshold then
          let altitudeRatio :=
            (Vector3.y (position e) - altitudeWarningThreshold)
            / (maxAltitude - altitudeWarningThreshold) in
          let descentFactor := 0.5 + altitudeRatio * 0.5 in
          e <| targetDirection ::= fun d =>
                 d <| Vector3.y := - Rabs (Vector3.y d) * descentFactor |> |>
        else e))%host.

(** *** [update (delta)] (lines 150-323), block by block *)

(** Lines 151-195: an enemy beyond the world radius is put back at a fifth
    of the radius on the other side of the centre. *)
Definition wrapBoundary (e : t) : t :=
  let distanceFromCenter := Vector3.distanceFromCenter (position e) in
  let worldRadius := World.worldRadius in
  if Rgt_dec distanceFromCenter worldRadius then
    let angle :=
      JS.atan2 (Vector3.z (position e)) (Vector3.x (position e)) in
    let newRadius := worldRadius * 0.2 in
    let e := e <| position ::= fun p =>
                    p <| Vector3.x := - cos angle * newRadius |>
                      <| Vector3.z := - sin angle * newRadius |> |> in
    let e := e <| targetDirection ::= fun d =>
                    Vector3.normalize
                      (d <| Vector3.x := - Vector3.x d |>
                         <| Vector3.z := - Vector3.z d |>) |> in
    let e := e <| returningToCenter := false |>
               <| isEvading := false |>
               <| isDiving := false |>
               <| isRolling := false |> in
    e <| mesh ::= fun m => m <| meshPosition := position e |> |>
  else e.

(** Lines 197-205: a new heading every [changeDirectionTime] seconds. *)
Definition retarget (e : t) : M t :=
  (n <- now ;;
   if Rgt_dec (n - lastDirectionChange e) (changeDirectionTime e) then
     r <- random ;;
     updateRandomDirection
       (e <| lastDirectionChange := n |>
          <| changeDirectionTime := 2 + r * 3 |>)
   else ret e)%host.

(** Lines 207-214: the maneuver in progress, evasion before dive before
    roll. *)
Definition handleSpecialManeuvers (delta : R) (e : t) : M t :=
  if isEvading e then ret (handleEvasiveManeuvers delta e)
  else if isDiving e then handleDivingAttack delta e
  else if isRolling e then ret (handleBarrelRoll delta e)
  else ret e.

(** Lines 216-241: yaw and pitch turn toward [targetDirection]. *)
Definition steer (delta : R) (e : t) : t :=
  let currentDirection := Vector3.forwardOfEuler (rotation e) in
  let turnAmount := turnRate e * delta in
  if negb (isRolling e) then
    let dot := Vector3.dot currentDirection (targetDirection e) in
    if Rlt_dec dot 0.99 then
      let cross := Vector3.cross currentDirection (targetDirection e) in
      let turnDirection := JS.sign (Vector3.y cross) in
      let pitchDiff :=
        asin (Vector3.y (targetDirection e))
        - asin (Vector3.y currentDirection) in
      e <| rotation ::= fun r =>
             r <| Vector3.y ::= fun a => a + turnDirection * turnAmount |>
               <| Vector3.x ::= fun a => a + pitchDiff * turnAmount * 0.7 |> |>
    else e
  else e.

(** Lines 247-257: banking into the turn. *)
Definition bank (currentDirection : Vector3.t) (e : t) : t :=
  let turnIntensity :=
    Vector3.y (Vector3.cross currentDirection (targetDirection e)) in
  if negb (isRolling e) then
    let targetRoll := - turnIntensity * 0.6 in
    e <| rotation ::= fun r =>
           r <| Vector3.z ::= fun a => a * 0.9 + targetRoll * 0.1 |> |>
  else e.

(** Lines 259-276: the speed moves toward the speed the behaviour asks
    for. *)
Definition targetSpeedOf (e : t) : R :=
  if BehaviorState_eqb (behaviorState e) aggressive then speed e * 1.2
  else if BehaviorState_eqb (behaviorState e) diving && isDiving e
       then speed e * 1.3
  else if BehaviorState_eqb (behaviorState e) evasive && isEvading e
       then speed e * 1.1
  else if BehaviorState_eqb (behaviorState e) patrol then speed e * 0.9
  else speed e.

Definition adjustSpeed (delta : R) (e : t) : t :=
  let targetSpeed := targetSpeedOf e in
  if Rlt_dec (currentSpeed e) targetSpeed then
    e <| currentSpeed :=
           Rmin targetSpeed (currentSpeed e + speedChangeRate * delta) |>
  else if Rgt_dec (currentSpeed e) targetSpeed then
    e <| currentSpeed :=
           Rmax targetSpeed (currentSpeed e - speedChangeRate * delta) |>
  else e.

(** Lines 278-285: one Euler step along the current heading. *)
Definition moveForward (currentDirection : Vector3.t) (delta : R) (e : t)
  : t :=
  let e := e <| velocity :=
                  Vector3.multiplyScalar currentDirection (currentSpeed e) |> in
  e <| position ::= fun p =>
         Vector3.addScaledVector p (velocity e) delta |>.

(** Lines 287-308: the altitude limits. *)
Definition clampAltitude (e : t) : t :=
  let e :=
    if JS.lt (Vector3.y (position e)) minAltitude && negb (isDiving e) then
      e <| position ::= fun p => p <| Vector3.y := minAltitude |> |>
        <| targetDirection ::= fun d =>
             d <| Vector3.y := Rabs (Vector3.y d) * 0.5 |> |>
    else e in
  let e :=
    if Rgt_dec (Vector3.y (position e)) maxAltitude then
      e <| position ::= fun p => p <| Vector3.y := maxAltitude |> |>
        <| targetDirection ::= fun d =>
             d <| Vector3.y := - Rabs (Vector3.y d) * 0.5 |> |>
    else e in
  if JS.gt (Vector3.y (position e)) altitudeWarningThreshold
     && negb (isDiving e) then
    let altitudeRatio :=
      (Vector3.y (position e) - altitudeWarningThreshold)
      / (maxAltitude - altitudeWarningThreshold) in
    let downwardForce := -0.2 - altitudeRatio * 0.3 in
    e <| targetDirection ::= fun d =>
           d <| Vector3.y ::= fun a => Rmin a downwardForce |> |>
  else e.

(** Lines 310-317: the mesh follows the plane, the propeller turns. *)
Definition syncMesh (delta : R) (e : t) : t :=
  e <| mesh ::= fun m =>
         m <| meshPosition := position e |>
           <| meshRotation := rotation e |>
           <| propellerRotationX ::= fun a => a + delta * 15 |> |>.

(** Lines 319-322: with no maneuver in progress, one frame in a hundred
    starts one.  [&&] draws the random number only when the three flags are
    clear. *)
Definition maybeStartSpecialManeuver (player : option Vector3.t) (e : t)
  : M t :=
  if negb (isEvading e) && negb (isDiving e) && negb (isRolling e) then
    (r <- random ;;
     if Rlt_dec r 0.01 then startSpecialManeuver player e else ret e)%host
  else ret e.

Definition update (player : option Vector3.t) (delta : R) (e : t) : M t :=
  (let e := wrapBoundary e in
   e <- retarget e ;;
   e <- handleSpecialManeuvers delta e ;;
   let e := steer delta e in
   let currentDirection := Vector3.forwardOfEuler (rotation e) in
   let e := bank currentDirection e in
   let e := adjustSpeed delta e in
   let e := moveForward currentDirection delta e in
   let e := clampAltitude e in
   let e := syncMesh delta e in
   maybeStartSpecialManeuver player e)%host.

(** *** [damage (amount)] (lines 689-717) *)

(** The white flash: every material remembers its colour and turns
    [0xffffff]. *)
Definition flashWhite (m : Material) : Material :=
  mkMaterial 16777215 (Some (color m)).

(** What the timer armed by [damage] does when it fires: a material with a
    remembered colour takes it back and forgets it. *)
Definition restoreColor (m : Material) : Material :=
  match originalColor m with
  | Some c => mkMaterial c None
  | None => m
  end.

Definition damage (amount : Z) (e : t) : M t :=
  let e := e <| health ::= fun h => (h - amount)%Z |> in
  if Z.ltb 0 (health e) then
    (let e := e <| mesh ::= fun m =>
                     m <| materials ::= map flashWhite |> |> in
     setTimeout (RestoreColors (eid e)) 100 ;;;
     r <- random ;;
     if Rlt_dec r 0.7 then startEvasiveManeuvers e else ret e)%host
  else ret e.

(** *** The constructor (lines 4-73) *)

(** [states[Math.floor (Math.random () * states.length)]].  An index outside
    the table would give [undefined], a state no comparison in this file
    matches; [formation], which none matches either, stands for it. *)
Definition getRandomBehaviorState : M BehaviorState :=
  (r <- random ;;
   ret (match Zfloor (r * 5) with
        | 0%Z => patrol
        | 1%Z => aggressive
        | 2%Z => evasive
        | 3%Z => diving
        | _ => formation
        end))%host.

(** The materials [createMesh] gives the six parts, in the order [traverse]
    visits them: fuselage, cockpit, wings, tail, stabilizer, propeller. *)
Definition planeColor : Z := 4936480.   (* 0x4b5320 *)
Definition createMaterials : list Material :=
  map (fun c => mkMaterial c None)
      [planeColor; 3355443%Z; planeColor; planeColor; planeColor; 3355443%Z].

(** [new EnemyPlane (game, position)]; [id] names the new object.  The
    numbers drawn for [targetingPlayer], [maxTargetingTime] and
    [behaviorDuration] set fields that only [updateDirection] reads, which
    nothing calls. *)
Definition create (id : nat) (pos : Vector3.t) : M t :=
  (rYaw <- random ;;
   rSpeed <- random ;;
   rTurn <- random ;;
   rChange <- random ;;
   r1 <- random ;;
   r2 <- random ;;
   r3 <- random ;;
   rTargeting <- random ;;
   rMaxTargeting <- random ;;
   state <- getRandomBehaviorState ;;
   rDuration <- random ;;
   let rot := Vector3.mk 0 (rYaw * PI * 2) 0 in
   let spd := 8.32 + rSpeed * 6.24 in
   ret {| eid := id;
          position := pos;
          velocity := Vector3.zero;
          rotation := rot;
          health := 150;
          speed := spd;
          turnRate := 0.2 + rTurn * 0.3;
          changeDirectionTime := 3 + rChange * 4;
          lastDirectionChange := 0;
          targetDirection :=
            Vector3.normalize
              (Vector3.mk (r1 - 0.5) ((r2 - 0.5) * 0.1) (r3 - 0.5));
          returningToCenter := false;
          behaviorState := state;
          isEvading := false;
          evasionDirection := 1;
          evasionTimer := 0;
          evasionDuration := 0;
          isDiving := false;
          diveTimer := 0;
          diveDuration := 0;
          diveTarget := Vector3.zero;
          postDiveClimb := false;
          isRolling := false;
          rollTimer := 0;
          rollDuration := 0;
          rollProgress := 0;
          currentSpeed := spd * 0.5;
          mesh := mkMesh pos rot createMaterials 0 |})%host.

(** *** The timers (lines 702-710, 643-645)

    What a callback armed by this enemy does when the host fires it; for
    another enemy's callback, nothing. *)
Definition runCallback (cb : Callback) (e : t) : t :=
  match cb with
  | RestoreColors id =>
    if Nat.eqb id (eid e)
    then e <| mesh ::= fun m => m <| materials ::= map restoreColor |> |>
    else e
  | EndPostDiveClimb id =>
    if Nat.eqb id (eid e) then e <| postDiveClimb := false |> else e
  end.

End EnemyPlane.

(* ================================================================= *)
(** ** Array operations used by the loops *)

Module JSArray.

(** [a.splice (i, 1)]. *)
Definition removeAt {A} (i : nat) (a : list A) : list A :=
  firstn i a ++ skipn (S i) a.

(** [a.splice (0, n)]. *)
Definition dropFirst {A} (n : nat) (a : list A) : list A := skipn n a.

(** [a[i] = v] for an index inside the array. *)
Fixpoint replaceAt {A} (i : nat) (v : A) (a : list A) : list A :=
  match a, i with
  | [], _ => []
  | _ :: rest, O => v :: rest
  | b :: rest, S j => b :: replaceAt j v rest
  end.

End JSArray.

(* ================================================================= *)
(** ** Player.js *)

Module Player.

Record Controls : Type := mkControls {
  throttleKey : bool;   (* controls.throttle *)
  brake : bool;
  left : bool;
  right : bool;
  up : bool;
  down : bool;
  shootKey : bool       (* controls.shoot *)
}.

(** An entry of [this.bullets].  Every entry is made by [shoot], which
    gives it a mesh; [position] is [bullet.mesh.position]. *)
Record Bullet : Type := mkBullet {
  bulletPosition : Vector3.t;
  bulletVelocity : Vector3.t;
  createdAt : R
}.

(** The rotation [update] writes into [mesh.quaternion]: roll about Z, then
    pitch about X, then yaw about Y. *)
Record Quaternion : Type := mkQuaternion {
  qYaw : R;
  qPitch : R;
  qRoll : R
}.

Definition applyQuaternion (v : Vector3.t) (q : Quaternion) : Vector3.t :=
  Vector3.applyAxisAngle
    (Vector3.applyAxisAngle
       (Vector3.applyAxisAngle v (Vector3.mk 0 0 1) (qRoll q))
       (Vector3.mk 1 0 0) (qPitch q))
    (Vector3.mk 0 1 0) (qYaw q).

Record t : Type := mk {
  position : Vector3.t;
  rotation : Vector3.t;            (* THREE.Euler *)
  speed : R;
  throttle : R;
  isGrounded : bool;
  velocity : Vector3.t;
  acceleration : Vector3.t;
  bullets : list Bullet;
  lastShotTime : R;
  controls : Controls;
  meshPosition : Vector3.t;
  meshQuaternion : Quaternion;
  (* mesh.matrixWorld, which the renderer refreshes: the pose drawn last *)
  matrixWorldPosition : Vector3.t;
  matrixWorldQuaternion : Quaternion
}.

#[global] Instance set_position : Setter position :=
  fun f r => mk (f (position r)) (rotation r) (speed r) (throttle r)
    (isGrounded r) (velocity r) (acceleration r) (bullets r)
    (lastShotTime r) (controls r) (meshPosition r) (meshQuaternion r)
    (matrixWorldPosition r) (matrixWorldQuaternion r).
#[global] Instance set_rotation : Setter rotation :=
  fun f r => mk (position r) (f (rotation r)) (speed r) (throttle r)
    (isGrounded r) (velocity r) (acceleration r) (bullets r)
    (lastShotTime r) (controls r) (meshPosition r) (meshQuaternion r)
    (matrixWorldPosition r) (matrixWorldQuaternion r).
#[global] Instance set_speed : Setter speed :=
  fun f r => mk (position r) (rotation r) (f (speed r)) (throttle r)
    (isGrounded r) (velocity r) (acceleration r) (bullets r)
    (lastShotTime r) (controls r) (meshPosition r) (meshQuaternion r)
    (matrixWorldPosition r) (matrixWorldQuaternion r).
#[global] Instance set_throttle : Setter throttle :=
  fun f r => mk (position r) (rotation r) (speed r) (f (throttle r))
    (isGrounded r) (velocity r) (acceleration r) (bullets r)
    (lastShotTime r) (controls r) (meshPosition r) (meshQuaternion r)
    (matrixWorldPosition r) (matrixWorldQuaternion r).
#[global] Instance set_isGrounded : Setter isGrounded :=
  fun f r => mk (position r) (rotation r) (speed r) (throttle r)
    (f (isGrounded r)) (velocity r) (acceleration r) (bullets r)
    (lastShotTime r) (controls r) (meshPosition r) (meshQuaternion r)
    (matrixWorldPosition r) (matrixWorldQuaternion r).
#[global] Instance set_velocity : Setter velocity :=
  fun f r => mk (position r) (rotation r) (speed r) (throttle r)
    (isGrounded r) (f (velocity r)) (acceleration r) (bullets r)
    (lastShotTime r) (controls r) (meshPosition r) (meshQuaternion r)
    (matrixWorldPosition r) (matrixWorldQuaternion r).
#[global] Instance set_acceleration : Setter acceleration :=
  fun f r => mk (position r) (rotation r) (speed r) (throttle r)
    (isGrounded r) (velocity r) (f (acceleration r)) (bullets r)
    (lastShotTime r) (controls r) (meshPosition r) (meshQuaternion r)
    (matrixWorldPosition r) (matrixWorldQuaternion r).
#[global] Instance set_bullets : Setter bullets :=
  fun f r => mk (position r) (rotation r) (speed r) (throttle r)
    (isGrounded r) (velocity r) (acceleration r) (f (bullets r))
    (lastShotTime r) (controls r) (meshPosition r) (meshQuaternion r)
    (matrixWorldPosition r) (matrixWorldQuaternion r).
#[global] Instance set_lastShotTime : Setter lastShotTime :=
  fun f r => mk (position r) (rotation r) (speed r) (throttle r)
    (isGrounded r) (velocity r) (acceleration r) (bullets r)
    (f (lastShotTime r)) (controls r) (meshPosition r) (meshQuaternion r)
    (matrixWorldPosition r) (matrixWorldQuaternion r).
#[global] Instance set_controls : Setter controls :=
  fun f r => mk (position r) (rotation r) (speed r) (throttle r)
    (isGrounded r) (velocity r) (acceleration r) (bullets r)
    (lastShotTime r) (f (controls r)) (meshPosition r) (meshQuaternion r)
    (matrixWorldPosition r) (matrixWorldQuaternion r).
#[global] Instance set_meshPosition : Setter meshPosition :=
  fun f r => mk (position r) (rotation r) (speed r) (throttle r)
    (isGrounded r) (velocity r) (acceleration r) (bullets r)
    (lastShotTime r) (controls r) (f (meshPosition r)) (meshQuaternion r)
    (matrixWorldPosition r) (matrixWorldQuaternion r).
#[global] Instance set_meshQuaternion : Setter meshQuaternion :=
  fun f r => mk (position r) (rotation r) (speed r) (throttle r)
    (isGrounded r) (velocity r) (acceleration r) (bullets r)
    (lastShotTime r) (controls r) (meshPosition r) (f (meshQuaternion r))
    (matrixWorldPosition r) (matrixWorldQuaternion r).
#[global] Instance set_matrixWorldPosition : Setter matrixWorldPosition :=
  fun f r => mk (position r) (rotation r) (speed r) (throttle r)
    (isGrounded r) (velocity r) (acceleration r) (bullets r)
    (lastShotTime r) (controls r) (meshPosition r) (meshQuaternion r)
    (f (matrixWorldPosition r)) (matrixWorldQuaternion r).
#[global] Instance set_matrixWorldQuaternion : Setter matrixWorldQuaternion :=
  fun f r => mk (position r) (rotation r) (speed r) (throttle r)
    (isGrounded r) (velocity r) (acceleration r) (bullets r)
    (lastShotTime r) (controls r) (meshPosition r) (meshQuaternion r)
    (matrixWorldPosition r) (f (matrixWorldQuaternion r)).

(** Constants of the constructor. *)
Definition maxSpeed : R := 100 / 3.6.
Definition minSpeed : R := 5.
Definition gravity : Vector3.t := Vector3.mk 0 (-9.81) 0.
Definition drag : R := 0.002.
Definition thrustPower : R := 100.
Definition pitchRate : R := 1.0.
Definition rollRate : R := 1.0.
Definition yawRate : R := 0.3.
Definition stabilizationRate : R := 0.95.
Definition maxPitch : R := PI / 6.
Definition maxRoll : R := PI / 2.
Definition bulletSpeed : R := 80.
Definition bulletCooldown : R := 0.1.
Definition MAX_BULLETS : nat := 20.

(** [THREE.MathUtils.lerp]. *)
Definition lerp (a b s : R) : R := (1 - s) * a + s * b.

(** *** [updateRotation (delta)] (lines 333-386) *)

(** Lines 334-382: pitch, and roll with yaw. *)
Definition steerRotation (delta : R) (p : t) : t :=
  let rotationSpeed := delta * 2.0 in
  let c := controls p in
  let p :=
    if up c then
      p <| rotation ::= fun r =>
             r <| Vector3.x ::= fun a =>
                    Rmax (a - pitchRate * rotationSpeed) (- maxPitch) |> |>
    else p in
  let p :=
    if down c then
      p <| rotation ::= fun r =>
             r <| Vector3.x ::= fun a =>
                    Rmin (a + pitchRate * rotationSpeed) maxPitch |> |>
    else p in
  let p :=
    if negb (up c) && negb (down c) then
      p <| rotation ::= fun r => r <| Vector3.x ::= fun a => a * 0.95 |> |>
    else p in
  let p :=
    if left c || right c then
      let direction := if left c then 1 else -1 in
      let targetRoll := direction * maxRoll * 0.6 in
      let rollDelta := rotationSpeed * rollRate * 0.7 in
      let p := p <| rotation ::= fun r =>
                      r <| Vector3.z ::= fun a => lerp a targetRoll rollDelta |> |> in
      if Rgt_dec (speed p) minSpeed then
        let yawAmount := Rmin (rotationSpeed * yawRate) (PI / 8 * delta) in
        p <| rotation ::= fun r =>
               r <| Vector3.y ::= fun a => a + direction * yawAmount |> |>
      else p
    else
      p <| rotation ::= fun r =>
             r <| Vector3.z ::= fun a => a * (stabilizationRate * 0.9) |> |> in
  p.

(** Line 385: [rotation.y = ((rotation.y + PI) % (PI * 2)) - PI]. *)
Definition wrapYaw (p : t) : t :=
  p <| rotation ::= fun r =>
         r <| Vector3.y ::= fun a => JS.rem (a + PI) (PI * 2) - PI |> |>.

Definition updateRotation (delta : R) (p : t) : t :=
  wrapYaw (steerRotation delta p).

(** *** [shoot ()] (lines 400-462) *)

Definition shoot (p : t) : M t :=
  (n <- now ;;
   if Rlt_dec (n - lastShotTime p) bulletCooldown then ret p
   else
     let forward :=
       Vector3.normalize
         (applyQuaternion (Vector3.mk 0 0 1) (meshQuaternion p)) in
     let frontPosition :=
       Vector3.add
         (applyQuaternion (Vector3.mk 0 0 2) (matrixWorldQuaternion p))
         (matrixWorldPosition p) in
     let bulletVelocity := Vector3.multiplyScalar forward bulletSpeed in
     ret (p <| bullets ::= fun bs =>
                 bs ++ [mkBullet frontPosition bulletVelocity n] |>
            <| lastShotTime := n |>))%host.

(** *** [updateBullets (delta)] (lines 464-529) *)

Definition moveBullet (delta : R) (b : Bullet) : Bullet :=
  mkBullet
    (Vector3.addScaledVector (bulletPosition b) (bulletVelocity b) delta)
    (bulletVelocity b) (createdAt b).

Definition beyondWorld (b : Bullet) : bool :=
  JS.gt (Vector3.distanceFromCenter (bulletPosition b)) World.worldRadius.

(** The first loop, [for (i = 0; i < bullets.length; i++)]: the bullet at
    [i] moves; one that is now beyond the world radius is spliced out and
    [i] stays.  Every turn either advances [i] or shortens the array, so
    [length bullets] turns are enough; [fuel] counts them. *)
Fixpoint moveBullets (fuel i : nat) (delta : R) (bs : list Bullet)
  : list Bullet :=
  match fuel with
  | O => bs
  | S fuel' =>
    match nth_error bs i with
    | None => bs
    | Some b =>
      let b' := moveBullet delta b in
      let bs := JSArray.replaceAt i b' bs in
      if beyondWorld b' then moveBullets fuel' i delta (JSArray.removeAt i bs)
      else moveBullets fuel' (S i) delta bs
    end
  end.

Definition tooOld (n : R) (b : Bullet) : bool := JS.gt (n - createdAt b) 3.

(** The second loop, [for (i = bullets.length - 1; i >= 0; i--)], with [i]
    counting the indices still to visit. *)
Fixpoint removeOldBullets (n : R) (i : nat) (bs : list Bullet)
  : list Bullet :=
  match i with
  | O => bs
  | S j =>
    match nth_error bs j with
    | Some b =>
      removeOldBullets n j (if tooOld n b then JSArray.removeAt j bs else bs)
    | None => removeOldBullets n j bs
    end
  end.

Definition capBullets (bs : list Bullet) : list Bullet :=
  if Nat.ltb MAX_BULLETS (List.length bs) then
    let bulletsToRemove := (List.length bs - MAX_BULLETS)%nat in
    JSArray.dropFirst bulletsToRemove bs
  else bs.

Definition updateBullets (delta : R) (p : t) : M t :=
  (let bs := moveBullets (List.length (bullets p)) 0 delta (bullets p) in
   n <- now ;;
   let bs := removeOldBullets n (List.length bs) bs in
   ret (p <| bullets := capBullets bs |>))%host.

(** *** [update (delta)] (lines 214-330) *)

(** Lines 215-269: thrust, lift, gravity and drag change the velocity. *)
Definition accelerate (delta : R) (p : t) : t :=
  let p := p <| acceleration := Vector3.zero |> in
  let c := controls p in
  let p :=
    if throttleKey c then
      p <| throttle ::= fun a => Rmin 1 (a + delta * 2.0) |>
    else if brake c then
      p <| throttle ::= fun a => Rmax 0 (a - delta * 2.0) |>
    else p in
  let yAxis := Vector3.mk 0 1 0 in
  let forward :=
    Vector3.applyAxisAngle (Vector3.mk 0 0 1) yAxis
                           (Vector3.y (rotation p)) in
  let pitchAxis :=
    Vector3.applyAxisAngle (Vector3.mk 1 0 0) yAxis
                           (Vector3.y (rotation p)) in
  let forward :=
    Vector3.normalize
      (Vector3.applyAxisAngle forward pitchAxis (Vector3.x (rotation p))) in
  let p :=
    if Rgt_dec (throttle p) 0.1 then
      let baseLift :=
        Vector3.multiplyScalar (Vector3.mk 0 1 0) (9.81 * 0.7 * delta) in
      let pitchEffect := - Vector3.x (rotation p) * 3.0 in
      let pitchLift :=
        Vector3.mk 0 (pitchEffect * throttle p * 20 * delta) 0 in
      p <| acceleration ::= fun a =>
             Vector3.add (Vector3.add a baseLift) pitchLift |>
    else p in
  let thrustForce :=
    Vector3.multiplyScalar forward (throttle p * thrustPower * delta) in
  let gravityForce := Vector3.multiplyScalar gravity (delta * 0.7) in
  let dragForce :=
    Vector3.multiplyScalar (Vector3.normalize (velocity p))
                           (- drag * Vector3.lengthSq (velocity p)) in
  let p := p <| acceleration ::= fun a =>
                  Vector3.add (Vector3.add (Vector3.add a thrustForce)
                                           gravityForce) dragForce |> in
  let p := p <| speed := Vector3.length (velocity p) |> in
  let p := if Rgt_dec (throttle p) 0.5 then p <| isGrounded := false |>
           else p in
  p <| velocity ::= fun v => Vector3.add v (acceleration p) |>.

(** Lines 271-274: the speed limit. *)
Definition limitSpeed (p : t) : t :=
  if Rgt_dec (Vector3.length (velocity p)) maxSpeed then
    p <| velocity ::= fun v =>
           Vector3.multiplyScalar (Vector3.normalize v) maxSpeed |>
  else p.

Definition integrateVelocity (delta : R) (p : t) : t :=
  limitSpeed (accelerate delta p).

(** Lines 276-288: the ground, and the Euler step of the position. *)
Definition integratePosition (delta : R) (p : t) : t :=
  let p :=
    if JS.lt (Vector3.y (position p)) 1.0
       && JS.lt (Vector3.y (velocity p)) 0 then
      p <| position ::= fun q => q <| Vector3.y := 1.0 |> |>
        <| velocity ::= fun v => v <| Vector3.y := 0 |> |>
        <| isGrounded := true |>
        <| velocity ::= fun v =>
             v <| Vector3.x ::= fun a => a * 0.95 |>
               <| Vector3.z ::= fun a => a * 0.95 |> |>
    else p in
  p <| position ::= fun q =>
         Vector3.add q (Vector3.multiplyScalar (velocity p) delta) |>.

(** Lines 293-312: the mesh takes the position and the rotation
    yaw * pitch * roll, with the pitch at 70% and the roll at 140%, held
    within a quarter turn. *)
Definition syncMesh (p : t) : t :=
  let maxVisualRoll := PI / 2 in
  let enhancedRoll := Vector3.z (rotation p) * 1.4 in
  let clampedRoll := Rmax (Rmin enhancedRoll maxVisualRoll) (- maxVisualRoll) in
  p <| meshPosition := position p |>
    <| meshQuaternion :=
         mkQuaternion (Vector3.y (rotation p)) (Vector3.x (rotation p) * 0.7)
                      (- clampedRoll) |>.

Definition update (delta : R) (p : t) : M t :=
  (let p := integrateVelocity delta p in
   let p := integratePosition delta p in
   let p := updateRotation delta p in
   let p := syncMesh p in
   p <- (if shootKey (controls p) then shoot p else ret p) ;;
   updateBullets delta p)%host.

(** [applyForce (force)] (lines 535-540). *)
Definition applyForce (force : Vector3.t) (p : t) : t :=
  p <| acceleration ::= fun a => Vector3.add a force |>.

(** *** The keyboard (lines 186-212) *)

Import String.

Definition setThrottleKey (v : bool) (c : Controls) : Controls :=
  mkControls v (brake c) (left c) (right c) (up c) (down c) (shootKey c).
Definition setBrake (v : bool) (c : Controls) : Controls :=
  mkControls (throttleKey c) v (left c) (right c) (up c) (down c) (shootKey c).
Definition setLeft (v : bool) (c : Controls) : Controls :=
  mkControls (throttleKey c) (brake c) v (right c) (up c) (down c) (shootKey c).
Definition setRight (v : bool) (c : Controls) : Controls :=
  mkControls (throttleKey c) (brake c) (left c) v (up c) (down c) (shootKey c).
Definition setUp (v : bool) (c : Controls) : Controls :=
  mkControls (throttleKey c) (brake c) (left c) (right c) v (down c) (shootKey c).
Definition setDown (v : bool) (c : Controls) : Controls :=
  mkControls (throttleKey c) (brake c) (left c) (right c) (up c) v (shootKey c).
Definition setShootKey (v : bool) (c : Controls) : Controls :=
  mkControls (throttleKey c) (brake c) (left c) (right c) (up c) (down c) v.

(** [handleKeyDown (event)]; [key] is [event.key].  A key no [case] names
    falls through the [switch]. *)
Definition handleKeyDown (key : string) (p : t) : t :=
  if String.eqb key "w" then p <| controls ::= setThrottleKey true |>
  else if String.eqb key "s" then p <| controls ::= setBrake true |>
  else if String.eqb key "a" || String.eqb key "ArrowLeft"
       then p <| controls ::= setLeft true |>
  else if String.eqb key "d" || String.eqb key "ArrowRight"
       then p <| controls ::= setRight true |>
  else if String.eqb key "ArrowUp" then p <| controls ::= setUp true |>
  else if String.eqb key "ArrowDown" then p <| controls ::= setDown true |>
  else if String.eqb key " " then p <| controls ::= setShootKey true |>
  else p.

(** [handleKeyUp (event)]. *)
Definition handleKeyUp (key : string) (p : t) : t :=
  if String.eqb key "w" then p <| controls ::= setThrottleKey false |>
  else if String.eqb key "s" then p <| controls ::= setBrake false |>
  else if String.eqb key "a" || String.eqb key "ArrowLeft"
       then p <| controls ::= setLeft false |>
  else if String.eqb key "d" || String.eqb key "ArrowRight"
       then p <| controls ::= setRight false |>
  else if String.eqb key "ArrowUp" then p <| controls ::= setUp false |>
  else if String.eqb key "ArrowDown" then p <| controls ::= setDown false |>
  else if String.eqb key " " then p <| controls ::= setShootKey false |>
  else p.

End Player.

(* ================================================================= *)
(** ** Bird.js *)

Module Bird.

Record t : Type := mk {
  position : Vector3.t;
  velocity : Vector3.t;
  age : R
}.

#[global] Instance set_position : Setter position :=
  fun f r => mk (f (position r)) (velocity r) (age r).
#[global] Instance set_velocity : Setter velocity :=
  fun f r => mk (position r) (f (velocity r)) (age r).
#[global] Instance set_age : Setter age :=
  fun f r => mk (position r) (velocity r) (f (age r)).

(** [new Bird (game, position)].  The fourth number picks the colour, which
    only the mesh uses. *)
Definition create (pos : Vector3.t) : M t :=
  (r1 <- random ;;
   r2 <- random ;;
   r3 <- random ;;
   rColor <- random ;;
   ret (mk pos (Vector3.mk ((r1 - 0.5) * 10) (r2 * 5 + 5) ((r3 - 0.5) * 10))
           0))%host.

(** [update (delta)]; the wing and heading animation of the mesh is left
    out. *)
Definition update (delta : R) (b : t) : M t :=
  (let b := b <| age ::= fun a => a + delta |> in
   let b := b <| velocity ::= fun v =>
                   v <| Vector3.y ::= fun a => a - 9.81 * delta * 0.5 |> |> in
   let b := b <| position ::= fun p =>
                   Vector3.add p (Vector3.multiplyScalar (velocity b) delta) |> in
   let b :=
     if Rlt_dec (Vector3.y (position b)) 2 then
       b <| position ::= fun p => p <| Vector3.y := 2 |> |>
         <| velocity ::= fun v =>
              v <| Vector3.y ::= fun a => Rabs a * 0.6 |> |>
     else b in
   r <- random ;;
   if Rlt_dec r 0.01 then
     r1 <- random ;;
     r2 <- random ;;
     let b := b <| velocity ::= fun v =>
                     v <| Vector3.x ::= fun a => a + (r1 - 0.5) * 5 |>
                       <| Vector3.z ::= fun a => a + (r2 - 0.5) * 5 |> |> in
     let horizontalSpeed :=
       sqrt (Vector3.x (velocity b) * Vector3.x (velocity b)
             + Vector3.z (velocity b) * Vector3.z (velocity b)) in
     ret (if Rgt_dec horizontalSpeed 10 then
            b <| velocity ::= fun v =>
                   v <| Vector3.x ::= fun a => a * (10 / horizontalSpeed) |>
                     <| Vector3.z ::= fun a => a * (10 / horizontalSpeed) |> |>
          else b)
   else ret b)%host.

End Bird.

(* ================================================================= *)
(** ** The Game class (index.js)

    The scene graph, the DOM overlays and the sounds are outputs only: what
    the game shows is recorded in [log].  Decoration that feeds nothing back
    and is kept by functions of its own (camera, clouds, radar, confetti)
    is left out, with the random numbers those functions draw.  Where a
    modelled function draws numbers or reads the clock for decoration (the
    particles of an explosion, the mesh of a tree), the model draws them
    too, so that the host is left as the code leaves it.  [game.player] is
    set by [init] before the first frame and never cleared. *)

Module Game.

Inductive EffectKind : Type := explosion | hitFlash.

(** An entry of [effectsToUpdate]: its [update] closure only compares the
    clock with the moment the effect was made. *)
Record Effect : Type := mkEffect {
  kind : EffectKind;
  effectCreatedAt : R
}.

Record Mountain : Type := mkMountain {
  mountainPosition : Vector3.t;
  radius : R
}.

Inductive Reason : Type :=
| planeDestroyed | crashedIntoGround | crashedIntoMountain | crashedIntoTree.

Inductive Event : Type :=
| ExplosionCreated                 (* createExplosion *)
| HitIndicatorCreated              (* createHitIndicator *)
| EnemyCreated (id : nat)          (* new EnemyPlane, pushed on enemies *)
| EnemyRemoved (id : nat)          (* scene.remove + enemies.splice *)
| BirdsReleased (count : Z)        (* releaseBirds *)
| VictoryScreen                    (* showVictoryScreen *)
| GameOverScreen (why : Reason).   (* showGameOverScreen *)

Record t : Type := mk {
  player : Player.t;
  enemies : list EnemyPlane.t;
  birds : list Bird.t;
  effectsToUpdate : list Effect;
  mountains : list Mountain;
  trees : list Vector3.t;                (* tree.position of every tree *)
  rescuedBirds : Z;
  gameOver : bool;
  paused : bool;
  boundaryWarningActive : bool;
  spaceDown : bool;                      (* keysPressed[' '] *)
  nextEnemyId : nat;                     (* the identity the next new EnemyPlane gets *)
  log : list Event                       (* what was shown, oldest first *)
}.

#[global] Instance set_player : Setter player :=
  fun f r => mk (f (player r)) (enemies r) (birds r) (effectsToUpdate r)
    (mountains r) (trees r) (rescuedBirds r) (gameOver r) (paused r)
    (boundaryWarningActive r) (spaceDown r) (nextEnemyId r) (log r).
#[global] Instance set_enemies : Setter enemies :=
  fun f r => mk (player r) (f (enemies r)) (birds r) (effectsToUpdate r)
    (mountains r) (trees r) (rescuedBirds r) (gameOver r) (paused r)
    (boundaryWarningActive r) (spaceDown r) (nextEnemyId r) (log r).
#[global] Instance set_birds : Setter birds :=
  fun f r => mk (player r) (enemies r) (f (birds r)) (effectsToUpdate r)
    (mountains r) (trees r) (rescuedBirds r) (gameOver r) (paused r)
    (boundaryWarningActive r) (spaceDown r) (nextEnemyId r) (log r).
#[global] Instance set_effectsToUpdate : Setter effectsToUpdate :=
  fun f r => mk (player r) (enemies r) (birds r) (f (effectsToUpdate r))
    (mountains r) (trees r) (rescuedBirds r) (gameOver r) (paused r)
    (boundaryWarningActive r) (spaceDown r) (nextEnemyId r) (log r).
#[global] Instance set_mountains : Setter mountains :=
  fun f r => mk (player r) (enemies r) (birds r) (effectsToUpdate r) (f
    (mountains r)) (trees r) (rescuedBirds r) (gameOver r) (paused r)
    (boundaryWarningActive r) (spaceDown r) (nextEnemyId r) (log r).
#[global] Instance set_trees : Setter trees :=
  fun f r => mk (player r) (enemies r) (birds r) (effectsToUpdate r)
    (mountains r) (f (trees r)) (rescuedBirds r) (gameOver r) (paused r)
    (boundaryWarningActive r) (spaceDown r) (nextEnemyId r) (log r).
#[global] Instance set_rescuedBirds : Setter rescuedBirds :=
  fun f r => mk (player r) (enemies r) (birds r) (effectsToUpdate r)
    (mountains r) (trees r) (f (rescuedBirds r)) (gameOver r) (paused r)
    (boundaryWarningActive r) (spaceDown r) (nextEnemyId r) (log r).
#[global] Instance set_gameOver : Setter gameOver :=
  fun f r => mk (player r) (enemies r) (birds r) (effectsToUpdate r)
    (mountains r) (trees r) (rescuedBirds r) (f (gameOver r)) (paused r)
    (boundaryWarningActive r) (spaceDown r) (nextEnemyId r) (log r).
#[global] Instance set_paused : Setter paused :=
  fun f r => mk (player r) (enemies r) (birds r) (effectsToUpdate r)
    (mountains r) (trees r) (rescuedBirds r) (gameOver r) (f (paused r))
    (boundaryWarningActive r) (spaceDown r) (nextEnemyId r) (log r).
#[global] Instance set_boundaryWarningActive : Setter boundaryWarningActive :=
  fun f r => mk (player r) (enemies r) (birds r) (effectsToUpdate r)
    (mountains r) (trees r) (rescuedBirds r) (gameOver r) (paused r) (f
    (boundaryWarningActive r)) (spaceDown r) (nextEnemyId r) (log r).
#[global] Instance set_spaceDown : Setter spaceDown :=
  fun f r => mk (player r) (enemies r) (birds r) (effectsToUpdate r)
    (mountains r) (trees r) (rescuedBirds r) (gameOver r) (paused r)
    (boundaryWarningActive r) (f (spaceDown r)) (nextEnemyId r) (log r).
#[global] Instance set_nextEnemyId : Setter nextEnemyId :=
  fun f r => mk (player r) (enemies r) (birds r) (effectsToUpdate r)
    (mountains r) (trees r) (rescuedBirds r) (gameOver r) (paused r)
    (boundaryWarningActive r) (spaceDown r) (f (nextEnemyId r)) (log r).
#[global] Instance set_log : Setter log :=
  fun f r => mk (player r) (enemies r) (birds r) (effectsToUpdate r)
    (mountains r) (trees r) (rescuedBirds r) (gameOver r) (paused r)
    (boundaryWarningActive r) (spaceDown r) (nextEnemyId r) (f (log r)).

Definition emit (ev : Event) (g : t) : t := g <| log ::= fun l => l ++ [ev] |>.

(** *** Effects (lines 1397-1496, 1574-1623, 2472-2523) *)

(** [n] numbers drawn and used for a mesh only. *)
Fixpoint drawForMesh (n : nat) : M unit :=
  match n with
  | O => ret tt
  | S fewer => (_ <- random ;; drawForMesh fewer)%host
  end.

Definition particleCount : nat := 50.

(** [createExplosion]: ten numbers are drawn for each particle (place, size,
    velocity, spin), which feed nothing back.  The clock is read twice: for
    [explosion.userData.createdAt], which the [update] closure compares
    with, and for the [createdAt] of the effect, which nothing reads. *)
Definition createExplosion (g : t) : M t :=
  (drawForMesh (particleCount * 10) ;;;
   createdAt <- now ;;
   _ <- now ;;
   ret (emit ExplosionCreated
             (g <| effectsToUpdate ::= fun l =>
                     l ++ [mkEffect explosion createdAt] |>)))%host.

Definition createHitIndicator (g : t) : M t :=
  (n <- now ;;
   ret (emit HitIndicatorCreated
             (g <| effectsToUpdate ::= fun l =>
                     l ++ [mkEffect hitFlash n] |>)))%host.

(** [effect.update (delta)]: is the effect still alive? *)
Definition effectUpdate (ef : Effect) : M bool :=
  (n <- now ;;
   let age := n - effectCreatedAt ef in
   ret (match kind ef with
        | explosion => JS.lt age 2
        | hitFlash => JS.lt age 0.2
        end))%host.

Fixpoint updateEffectsLoop (i : nat) (efs : list Effect) : M (list Effect) :=
  match i with
  | O => ret efs
  | S j =>
    match nth_error efs j with
    | Some ef =>
      (keepAlive <- effectUpdate ef ;;
       updateEffectsLoop j
         (if keepAlive then efs else JSArray.removeAt j efs))%host
    | None => updateEffectsLoop j efs
    end
  end.

Definition updateEffects (g : t) : M t :=
  (let efs := effectsToUpdate g in
   let efs :=
     if Nat.ltb World.maxEffects (List.length efs) then
       let excessEffects := (List.length efs - World.maxEffects)%nat in
       JSArray.dropFirst excessEffects efs
     else efs in
   efs <- updateEffectsLoop (List.length efs) efs ;;
   ret (g <| effectsToUpdate := efs |>))%host.

(** *** Enemies coming and going (lines 1177-1205, 1368-1395, 1498-1534) *)

Definition createNewEnemy (g : t) : M t :=
  (rAngle <- random ;;
   rDistance <- random ;;
   rY <- random ;;
   let angle := rAngle * PI * 2 in
   let distance := 50 + rDistance * 100 in
   let x := sin angle * distance in
   let z := cos angle * distance in
   let y := 30 + rY * 70 in
   let pos := Vector3.mk x y z in
   let distanceFromCenter := sqrt (x * x + z * z) in
   let pos :=
     if Rgt_dec distanceFromCenter (World.worldRadius * 0.9) then
       let directionToCenter :=
         Vector3.normalize (Vector3.mk (- x) 0 (- z)) in
       let safeDistance := World.worldRadius * 0.5 in
       pos <| Vector3.x := Vector3.x directionToCenter * safeDistance |>
           <| Vector3.z := Vector3.z directionToCenter * safeDistance |>
     else pos in
   enemy <- EnemyPlane.create (nextEnemyId g) pos ;;
   ret (emit (EnemyCreated (nextEnemyId g))
             (g <| enemies ::= fun l => l ++ [enemy] |>
                <| nextEnemyId ::= S |>)))%host.

Fixpoint createBirds (count : nat) (pos : Vector3.t) (g : t) : M t :=
  match count with
  | O => ret g
  | S rest =>
    (r1 <- random ;;
     r2 <- random ;;
     r3 <- random ;;
     let offset :=
       Vector3.mk ((r1 - 0.5) * 2) ((r2 - 0.5) * 2) ((r3 - 0.5) * 2) in
     bird <- Bird.create (Vector3.add pos offset) ;;
     createBirds rest pos (g <| birds ::= fun l => l ++ [bird] |>))%host
  end.

Definition releaseBirds (pos : Vector3.t) (count : Z) (g : t) : M t :=
  let g := g <| rescuedBirds ::= fun n => (n + count)%Z |> in
  createBirds (Z.to_nat count) pos (emit (BirdsReleased count) g).

Definition handleEnemyDestruction (enemy : EnemyPlane.t) (index : nat)
           (g : t) : M t :=
  (g <- createExplosion g ;;
   r <- random ;;
   let birdCount := Z.min 4 (Zfloor (r * 3) + 2) in
   let availableBirdSlots :=
     Z.max 0 (Z.of_nat World.maxBirds - Z.of_nat (List.length (birds g))) in
   let birdsToRelease := Z.min birdCount availableBirdSlots in
   g <- (if Z.ltb 0 birdsToRelease
         then releaseBirds (EnemyPlane.position enemy) birdsToRelease g
         else ret g) ;;
   let g := emit (EnemyRemoved (EnemyPlane.eid enemy))
                 (g <| enemies ::= JSArray.removeAt index |>) in
   createNewEnemy g)%host.

(** *** Bullets against one enemy (lines 1207-1249) *)

Definition enemyRadius : R := 8.

Definition bulletNear (b : Player.Bullet) (e : EnemyPlane.t) : bool :=
  let dx := Vector3.x (Player.bulletPosition b) - Vector3.x (EnemyPlane.position e) in
  let dy := Vector3.y (Player.bulletPosition b) - Vector3.y (EnemyPlane.position e) in
  let dz := Vector3.z (Player.bulletPosition b) - Vector3.z (EnemyPlane.position e) in
  let distanceSq := dx * dx + dy * dy + dz * dz in
  let enemyRadiusSq := enemyRadius * enemyRadius in
  JS.lt distanceSq enemyRadiusSq.

(** The loop [for (j = bullets.length - 1; j >= 0; j--)], with [j] counting
    the bullets still to look at.  [enemy] is the object at [enemyIndex] of
    [enemies]: [damage] changes it in place, and the loop stops when it has
    been destroyed. *)
Fixpoint checkBulletHitsLoop (j : nat) (enemyIndex : nat) (g : t) : M t :=
  match j with
  | O => ret g
  | S k =>
    match nth_error (Player.bullets (player g)) k,
          nth_error (enemies g) enemyIndex with
    | Some bullet, Some enemy =>
      if bulletNear bullet enemy then
        (g <- createHitIndicator g ;;
         enemy <- EnemyPlane.damage 25 enemy ;;
         let g := g <| enemies ::= JSArray.replaceAt enemyIndex enemy |> in
         let g := g <| player ::= fun p =>
                         p <| Player.bullets ::= JSArray.removeAt k |> |> in
         if Z.leb (EnemyPlane.health enemy) 0
         then handleEnemyDestruction enemy enemyIndex g
         else checkBulletHitsLoop k enemyIndex g)%host
      else checkBulletHitsLoop k enemyIndex g
    | _, _ => checkBulletHitsLoop k enemyIndex g
    end
  end.

Definition checkBulletHits (enemyIndex : nat) (g : t) : M t :=
  match Player.bullets (player g) with
  | [] => ret g
  | _ => checkBulletHitsLoop (List.length (Player.bullets (player g)))
                             enemyIndex g
  end.

(** *** [updateEnemies (delta)] (lines 1131-1175) *)

(** The body of the loop for the enemy at index [i]: it is updated, and
    then either found destroyed or checked against the bullets.
    [checkWorldBounds (enemy)] changes nothing for an object that is not the
    player, and the [lookAt] of the mesh is decoration. *)
Definition visitEnemy (i : nat) (enemy : EnemyPlane.t) (delta : R) (g : t)
  : M t :=
  (enemy <- EnemyPlane.update
              (Some (Player.position (player g))) delta enemy ;;
   let enemy :=
     enemy <| EnemyPlane.mesh ::= fun m =>
                m <| EnemyPlane.meshPosition :=
                       EnemyPlane.position enemy |> |> in
   let g := g <| enemies ::= JSArray.replaceAt i enemy |> in
   if Z.leb (EnemyPlane.health enemy) 0
   then handleEnemyDestruction enemy i g
   else checkBulletHits i g)%host.

(** The loop [for (i = enemies.length - 1; i >= 0; i--)], with [i] counting
    the enemies still to visit. *)
Fixpoint updateEnemiesLoop (i : nat) (delta : R) (g : t) : M t :=
  match i with
  | O => ret g
  | S k =>
    match nth_error (enemies g) k with
    | None => updateEnemiesLoop k delta g
    | Some enemy =>
      (g <- visitEnemy k enemy delta g ;;
       updateEnemiesLoop k delta g)%host
    end
  end.

(** [while (enemies.length < maxEnemies) createNewEnemy ()]: every call adds
    one enemy, so the loop runs [missing] times. *)
Fixpoint spawnMissing (missing : nat) (g : t) : M t :=
  match missing with
  | O => ret g
  | S rest => (g <- createNewEnemy g ;; spawnMissing rest g)%host
  end.

Definition updateEnemies (delta : R) (g : t) : M t :=
  (g <- updateEnemiesLoop (List.length (enemies g)) delta g ;;
   spawnMissing (World.maxEnemies - List.length (enemies g)) g)%host.

(** *** [updateBirds (delta)] (lines 1251-1356) *)

Fixpoint updateBirdsLoop (i : nat) (delta : R) (playerPos : Vector3.t)
         (bs : list Bird.t) : M (list Bird.t) :=
  match i with
  | O => ret bs
  | S k =>
    match nth_error bs k with
    | None => updateBirdsLoop k delta playerPos bs
    | Some bird =>
      (bird <- Bird.update delta bird ;;
       let bs := JSArray.replaceAt k bird bs in
       let bs :=
         if Rgt_dec (Bird.age bird) 15 then JSArray.removeAt k bs
         else if Rgt_dec (Vector3.distanceTo (Bird.position bird) playerPos)
                         500
              then JSArray.removeAt k bs
         else bs in
       updateBirdsLoop k delta playerPos bs)%host
    end
  end.

Definition updateBirds (delta : R) (g : t) : M t :=
  match birds g with
  | [] => ret g
  | _ =>
    (bs <- updateBirdsLoop (List.length (birds g)) delta
                           (Player.position (player g)) (birds g) ;;
     let softLimit := Z.to_nat (Zfloor (INR World.maxBirds * 0.8)) in
     let bs :=
       if Nat.ltb softLimit (List.length bs) then
         let birdsToRemove := (List.length bs - softLimit)%nat in
         JSArray.dropFirst birdsToRemove bs
       else bs in
     ret (g <| birds := bs |>))%host
  end.

(** *** The world boundary (lines 1884-1925, 2057-2175) *)

(** [checkWorldBounds (this.player)].  The second velocity assignment reads
    [velocity.length ()] after the first has changed [velocity.x]. *)
Definition checkWorldBounds (p : Player.t) : Player.t :=
  let distanceFromCenter := Vector3.distanceFromCenter (Player.position p) in
  if Rgt_dec distanceFromCenter World.worldRadius then
    let dirX := - Vector3.x (Player.position p) / distanceFromCenter in
    let dirZ := - Vector3.z (Player.position p) / distanceFromCenter in
    let pushbackDistance := 0.05 * World.worldRadius in
    let p := p <| Player.position ::= fun q =>
                    q <| Vector3.x ::= fun a => a + dirX * pushbackDistance |>
                      <| Vector3.z ::= fun a => a + dirZ * pushbackDistance |> |> in
    let dotProduct :=
      Vector3.x (Player.velocity p) * (- dirX)
      + Vector3.z (Player.velocity p) * (- dirZ) in
    let p :=
      if Rgt_dec dotProduct 0 then
        let p := p <| Player.velocity ::= fun v =>
                        v <| Vector3.x :=
                               dirX * Vector3.length v * 0.8 |> |> in
        p <| Player.velocity ::= fun v =>
               v <| Vector3.z := dirZ * Vector3.length v * 0.8 |> |>
      else p in
    p <| Player.meshPosition := Player.position p |>
  else p.

(** The safety net of [updateBoundaryEffects] (lines 2071-2091): a player
    more than 10% beyond the radius is put back at 80% of it. *)
Definition safetyTeleport (p : Player.t) : Player.t :=
  let playerPos := Player.position p in
  let distanceFromCenter := Vector3.distanceFromCenter playerPos in
  if Rgt_dec distanceFromCenter (World.worldRadius * 1.1) then
    let safeDistance := World.worldRadius * 0.8 in
    let angle := JS.atan2 (Vector3.z playerPos) (Vector3.x playerPos) in
    let p := p <| Player.position ::= fun q =>
                    q <| Vector3.x := cos angle * safeDistance |>
                      <| Vector3.z := sin angle * safeDistance |> |> in
    let p := p <| Player.velocity ::= fun v =>
                    v <| Vector3.x ::= fun a => a * 0.1 |>
                      <| Vector3.z ::= fun a => a * 0.1 |> |> in
    p <| Player.meshPosition := Player.position p |>
  else p.

(** The push back toward the centre (lines 2115-2147).
    [directionToCenter.multiplyScalar (pushFactor)] scales the vector in
    place, so the position and velocity corrections that follow use the
    scaled vector. *)
Definition pushBack (distanceFromCenter : R) (p : Player.t) : Player.t :=
  if Rgt_dec distanceFromCenter World.boundaryPushRadius then
    let playerPos := Player.position p in
    let directionToCenter :=
      Vector3.normalize
        (Vector3.mk (- Vector3.x playerPos) 0 (- Vector3.z playerPos)) in
    let pushFactor := (distanceFromCenter - World.boundaryPushRadius) * 1.5 in
    let directionToCenter :=
      Vector3.multiplyScalar directionToCenter pushFactor in
    let p := Player.applyForce directionToCenter p in
    if Rgt_dec distanceFromCenter (World.worldRadius * 0.98) then
      let pushbackDistance := 0.02 * World.worldRadius in
      let p := p <| Player.position ::= fun q =>
                      q <| Vector3.x ::= fun a =>
                             a + Vector3.x directionToCenter * pushbackDistance |>
                        <| Vector3.z ::= fun a =>
                             a + Vector3.z directionToCenter * pushbackDistance |> |> in
      let p := p <| Player.meshPosition := Player.position p |> in
      let dotProduct :=
        Vector3.x (Player.velocity p) * (- Vector3.x directionToCenter)
        + Vector3.z (Player.velocity p) * (- Vector3.z directionToCenter) in
      if Rgt_dec dotProduct 0 then
        let p := p <| Player.velocity ::= fun v =>
                        v <| Vector3.x :=
                               Vector3.x directionToCenter
                               * Vector3.length v * 0.8 |> |> in
        p <| Player.velocity ::= fun v =>
               v <| Vector3.z :=
                      Vector3.z directionToCenter * Vector3.length v * 0.8 |> |>
      else p
    else p
  else p.

Definition updateBoundaryEffects (g : t) : t :=
  let p := safetyTeleport (player g) in
  let distanceFromCenter := Vector3.distanceFromCenter (Player.position p) in
  if Rgt_dec distanceFromCenter World.boundaryWarningRadius then
    let p := pushBack distanceFromCenter p in
    let p :=
      if negb (Player.shootKey (Player.controls p)) && spaceDown g then
        p <| Player.controls ::= fun c =>
               Player.mkControls (Player.throttleKey c) (Player.brake c)
                                 (Player.left c) (Player.right c)
                                 (Player.up c) (Player.down c) true |>
      else p in
    g <| player := p |> <| boundaryWarningActive := true |>
  else
    g <| player := p |> <| boundaryWarningActive := false |>.

(** *** Crashing into the terrain (lines 2534-2621) *)

Definition isPositionOverRunway (x z : R) : bool :=
  let halfWidth := World.runwayWidth / 2 in
  let halfLength := World.runwayLength / 2 in
  JS.ge x (- halfWidth) && JS.le x halfWidth
  && JS.ge z (- halfLength) && JS.le z halfLength.

Definition crash (why : Reason) (g : t) : M t :=
  (g <- createExplosion g ;;
   ret (emit (GameOverScreen why) (g <| gameOver := true |>)))%host.

Definition hitsMountain (playerPos : Vector3.t) (m : Mountain) : bool :=
  let dx := Vector3.x playerPos - Vector3.x (mountainPosition m) in
  let dz := Vector3.z playerPos - Vector3.z (mountainPosition m) in
  let horizontalDist := sqrt (dx * dx + dz * dz) in
  JS.lt horizontalDist (radius m)
  && JS.lt (Vector3.y playerPos) ((1 - horizontalDist / radius m) * 150).

Definition hitsTree (playerPos treePos : Vector3.t) : bool :=
  let collisionRadius := 3 in
  let treeRadius := 2 in
  let dx := Vector3.x playerPos - Vector3.x treePos in
  let dz := Vector3.z playerPos - Vector3.z treePos in
  let horizontalDist := sqrt (dx * dx + dz * dz) in
  JS.lt horizontalDist (treeRadius + collisionRadius)
  && JS.lt (Vector3.y playerPos) 15.

Definition checkTerrainCollisions (g : t) : M t :=
  let playerPos := Player.position (player g) in
  if JS.lt (Vector3.y playerPos) 5
     && negb (isPositionOverRunway (Vector3.x playerPos) (Vector3.z playerPos))
     && JS.lt (Vector3.y playerPos) 2
  then crash crashedIntoGround g
  else if existsb (hitsMountain playerPos) (mountains g)
  then crash crashedIntoMountain g
  else if existsb (hitsTree playerPos) (trees g)
  then crash crashedIntoTree g
  else ret g.

(** *** [update (delta)] and [animate ()] (lines 1016-1075, 1104-1129) *)

Definition update (delta : R) (g : t) : M t :=
  (g <- updateEffects g ;;
   if paused g || gameOver g then ret g
   else if Z.leb 100 (rescuedBirds g) then
     ret (emit VictoryScreen (g <| gameOver := true |>))
   else
     p <- Player.update delta (player g) ;;
     let g := g <| player := checkWorldBounds p |> in
     g <- checkTerrainCollisions g ;;
     if Rlt_dec (Vector3.y (Player.position (player g))) (-50) then
       let g := g <| gameOver := true |> in
       g <- createExplosion g ;;
       ret (emit (GameOverScreen planeDestroyed) g)
     else
       g <- updateEnemies delta g ;;
       g <- updateBirds delta g ;;
       ret (updateBoundaryEffects g))%host.

(** [renderer.render] refreshes [matrixWorld] of the player's mesh. *)
Definition render (g : t) : t :=
  g <| player ::= fun p =>
         p <| Player.matrixWorldPosition := Player.meshPosition p |>
           <| Player.matrixWorldQuaternion := Player.meshQuaternion p |> |>.

(** One frame; [elapsed] is what [clock.getDelta ()] returns. *)
Definition animate (elapsed : R) (g : t) : M t :=
  (let delta := Rmin elapsed 0.1 in
   if gameOver g then
     g <- updateEffects g ;;
     ret (render g)
   else
     g <- update delta g ;;
     ret (render g))%host.

(** *** [createEnemies ()] (lines 1358-1366) *)

Fixpoint createEnemiesLoop (count : nat) (g : t) : M t :=
  match count with
  | O => ret g
  | S rest =>
    (g <- createNewEnemy g ;;
     createEnemiesLoop rest g)%host
  end.

Definition createEnemies (g : t) : M t :=
  let initialEnemyCount := World.maxEnemies in
  createEnemiesLoop initialEnemyCount g.

(** *** Placing the mountains and the trees (lines 738-763, 816-911,
    1737-1759)

    [createRunway] stores the runway with a margin of 10 as
    [runwayBounds]. *)
Definition runwayBoundsMinX : R := - World.runwayWidth / 2 - 10.
Definition runwayBoundsMaxX : R := World.runwayWidth / 2 + 10.
Definition runwayBoundsMinZ : R := - World.runwayLength / 2 - 10.
Definition runwayBoundsMaxZ : R := World.runwayLength / 2 + 10.

(** The loop of [isPositionClear] over [objectsToCheck]; every entry is an
    object with a [position] and a [radius], as [Mountain] is. *)
Fixpoint clearOfObjects (x z newRadius : R) (objectsToCheck : list Mountain)
  : bool :=
  match objectsToCheck with
  | [] => true
  | obj :: rest =>
    let dx := x - Vector3.x (mountainPosition obj) in
    let dz := z - Vector3.z (mountainPosition obj) in
    let distanceSquared := dx * dx + dz * dz in
    let minDistanceSquared :=
      (newRadius + radius obj) * (newRadius + radius obj) in
    if JS.lt distanceSquared minDistanceSquared then false
    else clearOfObjects x z newRadius rest
  end.

Definition isPositionClear (x z newRadius : R)
           (objectsToCheck : list Mountain) : bool :=
  if JS.gt x runwayBoundsMinX && JS.lt x runwayBoundsMaxX
     && JS.gt z runwayBoundsMinZ && JS.lt z runwayBoundsMaxZ
  then false
  else clearOfObjects x z newRadius objectsToCheck.

(** The [while (!positionValid && attempts < 50)] of [createMountains],
    with [attemptsLeft] counting down from 50: the place found, if any. *)
Fixpoint findMountainPlace (attemptsLeft : nat) (placed : list Mountain)
  : M (option Mountain) :=
  match attemptsLeft with
  | O => ret None
  | S fewer =>
    (rRadius <- random ;;
     rHeight <- random ;;
     rAngle <- random ;;
     rDistance <- random ;;
     let newRadius := 60 + rRadius * 50 in
     let angle := rAngle * PI * 2 in
     let distance := 180 + rDistance * 450 in
     let x := sin angle * distance in
     let z := cos angle * distance in
     if isPositionClear x z newRadius placed
     then ret (Some (mkMountain (Vector3.mk x 0 z) newRadius))
     else findMountainPlace fewer placed)%host
  end.

(** The [for] loop of [createMountains]: a mountain for which no place was
    found is skipped.  [createMountain], which builds the mesh, draws no
    random number. *)
Fixpoint placeMountains (count : nat) (placed : list Mountain)
  : M (list Mountain) :=
  match count with
  | O => ret placed
  | S fewer =>
    (place <- findMountainPlace 50 placed ;;
     placeMountains fewer
                    (match place with
                     | Some m => placed ++ [m]
                     | None => placed
                     end))%host
  end.

Definition createMountains (g : t) : M t :=
  (ms <- placeMountains 18 [] ;;
   ret (g <| mountains := ms |>))%host.

(** A tree as [isPositionClear] sees it: [{position, radius: 10}]. *)
Definition treeObject (treePosition : Vector3.t) : Mountain :=
  mkMountain treePosition 10.

Fixpoint findTreePlace (attemptsLeft : nat) (objectsToCheck : list Mountain)
  : M (option Vector3.t) :=
  match attemptsLeft with
  | O => ret None
  | S fewer =>
    (rAngle <- random ;;
     rDistance <- random ;;
     let angle := rAngle * PI * 2 in
     let distance := 90 + rDistance * (World.worldRadius - 180) in
     let x := sin angle * distance in
     let z := cos angle * distance in
     if isPositionClear x z 10 objectsToCheck
     then ret (Some (Vector3.mk x 0 z))
     else findTreePlace fewer objectsToCheck)%host
  end.

(** The mesh of a tree that has found its place: one of three kinds, chosen
    at random.  Only [createBushTree] draws more numbers, four for each of
    its five tufts.  The mesh feeds nothing back. *)
Definition createTreeMesh : M unit :=
  (rType <- random ;;
   let treeType := Zfloor (rType * 3) in
   if Z.eqb treeType 0 then ret tt
   else if Z.eqb treeType 1 then ret tt
   else drawForMesh (5 * 4))%host.

Fixpoint placeTrees (count : nat) (ms : list Mountain)
         (placed : list Vector3.t) : M (list Vector3.t) :=
  match count with
  | O => ret placed
  | S fewer =>
    (place <- findTreePlace 50 (ms ++ map treeObject placed) ;;
     match place with
     | Some p =>
       createTreeMesh ;;;
       placeTrees fewer ms (placed ++ [p])
     | None => placeTrees fewer ms placed
     end)%host
  end.

Definition createTrees (g : t) : M t :=
  (ts <- placeTrees 135 (mountains g) [] ;;
   ret (g <| trees := ts |>))%host.

End Game.

(* ================================================================= *)
(** * Properties *)

(** ** Reasoning about host computations *)

Ltac run_host :=
  unfold bind, ret, random, now, setTimeout in *; cbn in *.

(** Case analysis on every condition of the goal, comparisons of numbers
    first so that each case keeps the inequality it stands for. *)
Ltac split_ifs :=
  repeat match goal with
         | |- context [Rlt_dec ?a ?b] => destruct (Rlt_dec a b); cbn in *
         | |- context [Rgt_dec ?a ?b] => destruct (Rgt_dec a b); cbn in *
         | |- context [Rle_dec ?a ?b] => destruct (Rle_dec a b); cbn in *
         | |- context [Req_dec_T ?a ?b] => destruct (Req_dec_T a b); cbn in *
         | |- context [if ?c then _ else _] => destruct c; cbn in *
         end.

(** A frame goal: the block leaves the field alone on every path. *)
Ltac frame := intros; run_host; split_ifs; reflexivity.

(* ================================================================= *)
(** ** EnemyPlane: the special-maneuver flags *)

Module EnemyPlaneSpec.
Import EnemyPlane.

(** The pure stretch of [update] between the maneuver handling and the
    start of a new maneuver. *)
Definition glide (delta : R) (e : t) : t :=
  let e := steer delta e in
  let currentDirection := Vector3.forwardOfEuler (rotation e) in
  syncMesh delta
    (clampAltitude
       (moveForward currentDirection delta
          (adjustSpeed delta (bank currentDirection e)))).

Lemma update_eq player delta e h :
  update player delta e h =
  let (e1, h1) := retarget (wrapBoundary e) h in
  let (e2, h2) := handleSpecialManeuvers delta e1 h1 in
  maybeStartSpecialManeuver player (glide delta e2) h2.
Proof.
  unfold update, bind.
  destruct (retarget (wrapBoundary e) h) as [e1 h1].
  destruct (handleSpecialManeuvers delta e1 h1) as [e2 h2].
  reflexivity.
Qed.

(** At most one of the three flags is set. *)
Definition atMostOneManeuver (e : t) : bool :=
  match isEvading e, isDiving e, isRolling e with
  | true, true, _ | true, _, true | _, true, true => false
  | _, _, _ => true
  end.

(** [e'] has no flag that [e] does not have. *)
Definition noNewManeuver (e e' : t) : Prop :=
  (isEvading e' = true -> isEvading e = true)
  /\ (isDiving e' = true -> isDiving e = true)
  /\ (isRolling e' = true -> isRolling e = true).

Lemma noNewManeuver_refl e : noNewManeuver e e.
Proof. unfold noNewManeuver; auto. Qed.

Lemma noNewManeuver_trans a b c :
  noNewManeuver a b -> noNewManeuver b c -> noNewManeuver a c.
Proof. unfold noNewManeuver; intuition. Qed.

Lemma noNewManeuver_atMostOne e e' :
  noNewManeuver e e' -> atMostOneManeuver e = true ->
  atMostOneManeuver e' = true.
Proof.
  unfold noNewManeuver, atMostOneManeuver.
  destruct (isEvading e'), (isDiving e'), (isRolling e');
    destruct (isEvading e), (isDiving e), (isRolling e);
    intuition congruence.
Qed.

Ltac flags :=
  intros; unfold noNewManeuver; run_host; split_ifs; cbn;
  intuition congruence.

Lemma wrapBoundary_flags e : noNewManeuver e (wrapBoundary e).
Proof. unfold wrapBoundary; flags. Qed.

Lemma updateRandomDirection_flags e h :
  noNewManeuver e (fst (updateRandomDirection e h)).
Proof. unfold updateRandomDirection; flags. Qed.

Lemma retarget_flags e h : noNewManeuver e (fst (retarget e h)).
Proof. unfold retarget, updateRandomDirection; flags. Qed.

Lemma handleSpecialManeuvers_flags delta e h :
  noNewManeuver e (fst (handleSpecialManeuvers delta e h)).
Proof.
  unfold handleSpecialManeuvers, handleEvasiveManeuvers, handleDivingAttack,
    handleBarrelRoll.
  destruct (isEvading e) eqn:He; [flags|].
  destruct (isDiving e) eqn:Hd; [flags|].
  destruct (isRolling e) eqn:Hr; flags.
Qed.

Lemma steer_flags delta e : noNewManeuver e (steer delta e).
Proof. unfold steer; flags. Qed.

Lemma bank_flags d e : noNewManeuver e (bank d e).
Proof. unfold bank; flags. Qed.

Lemma adjustSpeed_flags delta e : noNewManeuver e (adjustSpeed delta e).
Proof. unfold adjustSpeed; flags. Qed.

Lemma moveForward_flags d delta e : noNewManeuver e (moveForward d delta e).
Proof. unfold moveForward; flags. Qed.

Lemma clampAltitude_flags e : noNewManeuver e (clampAltitude e).
Proof. unfold clampAltitude, JS.gt, JS.lt; flags. Qed.

Lemma syncMesh_flags delta e : noNewManeuver e (syncMesh delta e).
Proof. unfold syncMesh; flags. Qed.

Lemma glide_flags delta e : noNewManeuver e (glide delta e).
Proof.
  unfold glide.
  eapply noNewManeuver_trans; [apply steer_flags|].
  eapply noNewManeuver_trans; [apply bank_flags|].
  eapply noNewManeuver_trans; [apply adjustSpeed_flags|].
  eapply noNewManeuver_trans; [apply moveForward_flags|].
  eapply noNewManeuver_trans; [apply clampAltitude_flags|].
  apply syncMesh_flags.
Qed.

Lemma startEvasiveManeuvers_flags e h :
  isEvading (fst (startEvasiveManeuvers e h)) = true
  /\ isDiving (fst (startEvasiveManeuvers e h)) = isDiving e
  /\ isRolling (fst (startEvasiveManeuvers e h)) = isRolling e.
Proof. unfold startEvasiveManeuvers; run_host; auto. Qed.

Lemma startDivingAttack_flags player e h :
  isEvading (fst (startDivingAttack player e h)) = isEvading e
  /\ isRolling (fst (startDivingAttack player e h)) = isRolling e.
Proof.
  unfold startDivingAttack. destruct player; run_host; split_ifs; auto.
Qed.

Lemma startBarrelRoll_flags e :
  isRolling (startBarrelRoll e) = true
  /\ isEvading (startBarrelRoll e) = isEvading e
  /\ isDiving (startBarrelRoll e) = isDiving e.
Proof. unfold startBarrelRoll; cbn; auto. Qed.

Lemma maybeStartSpecialManeuver_atMostOne player e h :
  atMostOneManeuver e = true ->
  atMostOneManeuver (fst (maybeStartSpecialManeuver player e h)) = true.
Proof.
  intros H. unfold maybeStartSpecialManeuver.
  destruct (negb (isEvading e) && negb (isDiving e) && negb (isRolling e))
    eqn:Hnone; [|exact H].
  apply andb_prop in Hnone as [Hnone Hr]. apply andb_prop in Hnone as [He Hd].
  apply negb_true_iff in He, Hd, Hr.
  unfold bind, random; cbn.
  destruct (Rlt_dec _ _); [|exact H].
  unfold startSpecialManeuver, bind; cbn.
  match goal with
  | |- context [JS.lt ?a ?b && ?c] => destruct (JS.lt a b && c)
  end.
  - match goal with
    | |- context [startDivingAttack ?p ?e ?h] =>
      destruct (startDivingAttack_flags p e h) as [H1 H2]
    end.
    unfold atMostOneManeuver. rewrite H1, H2, He, Hr.
    match goal with
    | |- context [isDiving ?x] => destruct (isDiving x)
    end; reflexivity.
  - destruct (Rlt_dec _ _).
    + match goal with
      | |- context [startEvasiveManeuvers ?e ?h] =>
        destruct (startEvasiveManeuvers_flags e h) as (H1 & H2 & H3)
      end.
      unfold atMostOneManeuver.
      rewrite H1, H2, H3, Hd, Hr. reflexivity.
    + unfold atMostOneManeuver; cbn. rewrite He, Hd. reflexivity.
Qed.

Lemma update_atMostOne player delta e h :
  atMostOneManeuver e = true ->
  atMostOneManeuver (fst (update player delta e h)) = true.
Proof.
  intros H. rewrite update_eq.
  pose proof (retarget_flags (wrapBoundary e) h) as H1.
  destruct (retarget (wrapBoundary e) h) as [e1 h1]; cbn in H1.
  pose proof (handleSpecialManeuvers_flags delta e1 h1) as H2.
  destruct (handleSpecialManeuvers delta e1 h1) as [e2 h2]; cbn in H2.
  apply maybeStartSpecialManeuver_atMostOne.
  apply noNewManeuver_atMostOne with (e := e); auto.
  eapply noNewManeuver_trans; [apply wrapBoundary_flags|].
  eapply noNewManeuver_trans; [exact H1|].
  eapply noNewManeuver_trans; [exact H2|].
  apply glide_flags.
Qed.

(** *** Sample inputs *)

(** A host whose random numbers are all 0.5 and whose clock stands at 0. *)
Definition sampleHost : Host := mkHost (fun _ => 0.5) 0 (fun _ => 0) 0 [].

(** An enemy flying level at altitude 50 above the world centre. *)
Definition sampleEnemy : t :=
  {| eid := 0;
     position := Vector3.mk 0 50 0;
     velocity := Vector3.zero;
     rotation := Vector3.zero;
     health := 150;
     speed := 10;
     turnRate := 0.3;
     changeDirectionTime := 3;
     lastDirectionChange := 0;
     targetDirection := Vector3.mk 0 0 1;
     returningToCenter := false;
     behaviorState := aggressive;
     isEvading := false;
     evasionDirection := 1;
     evasionTimer := 0;
     evasionDuration := 0;
     isDiving := false;
     diveTimer := 0;
     diveDuration := 0;
     diveTarget := Vector3.zero;
     postDiveClimb := false;
     isRolling := false;
     rollTimer := 0;
     rollDuration := 0;
     rollProgress := 0;
     currentSpeed := 10;
     mesh := mkMesh (Vector3.mk 0 50 0) Vector3.zero createMaterials 0 |}.

(** The sample enemy after [startDivingAttack] toward a player at altitude
    40. *)
Definition divingEnemy : t :=
  fst (startDivingAttack (Some (Vector3.mk 0 40 0)) sampleEnemy sampleHost).

Lemma divingEnemy_eq :
  divingEnemy =
  sampleEnemy <| isDiving := true |> <| diveTimer := 0 |>
              <| diveDuration := 2 + 0.5 |>
              <| diveTarget := Vector3.mk (0 + (0.5 - 0.5) * 20) 40
                                          (0 + (0.5 - 0.5) * 20) |>.
Proof.
  unfold divingEnemy, startDivingAttack, maxAltitude; cbn.
  destruct (Rlt_dec 50 30); [lra|].
  destruct (Rgt_dec 40 120); [lra|].
  run_host.
  destruct (Rgt_dec 40 (120 - 10)); [lra|]. reflexivity.
Qed.

(** C4, counterexample: the sample enemy starts a dive, so exactly one flag
    is set; a hit of 25 that it survives then starts the evasive reaction
    ([Math.random ()] gives 0.5, below 0.7), and [isEvading] and [isDiving]
    are both set. *)
Lemma damage_while_diving_sets_two_flags :
  atMostOneManeuver divingEnemy = true
  /\ isEvading (fst (damage 25 divingEnemy sampleHost)) = true
  /\ isDiving (fst (damage 25 divingEnemy sampleHost)) = true
  /\ atMostOneManeuver (fst (damage 25 divingEnemy sampleHost)) = false.
Proof.
  rewrite divingEnemy_eq. unfold damage. run_host.
  destruct (Rlt_dec 0.5 0.7); [|lra].
  unfold startEvasiveManeuvers; run_host. auto.
Qed.

(** C4, as the code has it: [update] starts a new maneuver only when none
    of the three flags is set, so an enemy with at most one flag set still
    has at most one after [update]; [startEvasiveManeuvers], which [damage]
    also calls, sets [isEvading] and leaves [isDiving] and [isRolling] as
    they are. *)
Theorem maneuver_flags_after_update
        (player : option Vector3.t) (delta : R) (e : t) (h : Host) :
  atMostOneManeuver e = true ->
  atMostOneManeuver (fst (update player delta e h)) = true
  /\ isEvading (fst (startEvasiveManeuvers e h)) = true
  /\ isDiving (fst (startEvasiveManeuvers e h)) = isDiving e
  /\ isRolling (fst (startEvasiveManeuvers e h)) = isRolling e.
Proof.
  intros H. split.
  - apply update_atMostOne; exact H.
  - apply startEvasiveManeuvers_flags.
Qed.

Lemma maneuver_flags_after_update_witness :
  atMostOneManeuver
    (fst (update (Some (Vector3.mk 0 40 0)) 0.016 divingEnemy sampleHost))
  = true.
Proof.
  apply (maneuver_flags_after_update
           (Some (Vector3.mk 0 40 0)) 0.016 divingEnemy sampleHost).
  rewrite divingEnemy_eq. reflexivity.
Defined.

(* ================================================================= *)
(** ** EnemyPlane: [damage] *)

Lemma damage_eid a e h : eid (fst (damage a e h)) = eid e.
Proof.
  unfold damage, startEvasiveManeuvers; run_host.
  destruct (Z.ltb 0 (health e - a)); run_host; split_ifs; reflexivity.
Qed.

(** C10: a hit that takes the health to zero or below changes the health
    and nothing else: no material is touched, no timer is armed, no random
    number is drawn and no maneuver flag moves.  The flash, its timer and
    the evasive reaction sit under [if (this.health > 0)].  [damage] works
    on the enemy object and the host only: the enemy it returns is the
    object it was given, whatever the amount. *)
Theorem damage_killing_hit_changes_only_health
        (a : Z) (e : t) (h : Host) :
  (health e <= a)%Z ->
  damage a e h = (e <| health := (health e - a)%Z |>, h)
  /\ eid (fst (damage a e h)) = eid e.
Proof.
  intros H. split; [|apply damage_eid].
  unfold damage; cbn.
  destruct (Z.ltb_spec 0 (health e - a)); [lia|reflexivity].
Qed.

Lemma damage_killing_hit_changes_only_health_witness :
  damage 150 sampleEnemy sampleHost
  = (sampleEnemy <| health := 0%Z |>, sampleHost).
Proof.
  apply (damage_killing_hit_changes_only_health 150 sampleEnemy sampleHost).
  cbn. lia.
Defined.

(** A hit the enemy survives does flash, arm the timer and draw a random
    number, so the guard is what keeps a killing hit silent. *)
Lemma damage_surviving_hit :
  timers (snd (damage 25 sampleEnemy sampleHost))
  = [(100, RestoreColors 0)]
  /\ materials (mesh (fst (damage 25 sampleEnemy sampleHost)))
     = map flashWhite createMaterials.
Proof.
  unfold damage. run_host.
  destruct (Rlt_dec 0.5 0.7); [|lra].
  unfold startEvasiveManeuvers; run_host. auto.
Qed.

(* ================================================================= *)
(** ** EnemyPlane: the altitude limits *)










(** *** What the blocks of [update] change *)

Lemma wrapBoundary_inside e :
  Vector3.distanceFromCenter (position e) <= World.worldRadius ->
  wrapBoundary e = e.
Proof.
  intros H. unfold wrapBoundary. destruct (Rgt_dec _ _); [lra|reflexivity].
Qed.

Lemma steer_only_rotation delta e :
  steer delta e = e <| rotation := rotation (steer delta e) |>.
Proof. destruct e; unfold steer; cbn; split_ifs; reflexivity. Qed.

Lemma bank_only_rotation d e :
  bank d e = e <| rotation := rotation (bank d e) |>.
Proof. destruct e; unfold bank; cbn; split_ifs; reflexivity. Qed.

Lemma adjustSpeed_only_currentSpeed delta e :
  adjustSpeed delta e
  = e <| currentSpeed := currentSpeed (adjustSpeed delta e) |>.
Proof. destruct e; unfold adjustSpeed; cbn; split_ifs; reflexivity. Qed.

Lemma adjustSpeed_between delta e :
  0 <= delta ->
  Rmin (currentSpeed e) (targetSpeedOf e)
  <= currentSpeed (adjustSpeed delta e)
  <= Rmax (currentSpeed e) (targetSpeedOf e).
Proof.
  intros Hd. unfold adjustSpeed, speedChangeRate.
  destruct (Rlt_dec _ _) as [Hlt|Hge]; cbn.
  - unfold Rmin, Rmax. split_ifs; lra.
  - destruct (Rgt_dec _ _) as [Hgt|Hle]; cbn;
      unfold Rmin, Rmax; split_ifs; lra.
Qed.



Lemma handleDivingAttack_continues delta e h :
  Vector3.y (position e) <= altitudeWarningThreshold ->
  diveTimer e + delta <= diveDuration e ->
  exists d,
    fst (handleDivingAttack delta e h)
    = e <| diveTimer := diveTimer e + delta |> <| targetDirection := d |>.
Proof.
  intros Hy Ht. unfold handleDivingAttack; cbn.
  destruct (Rgt_dec _ _); [lra|].
  destruct (Rgt_dec _ _); [lra|].
  eexists. reflexivity.
Qed.




(* ================================================================= *)
(** ** EnemyPlane: wrapping around the world boundary *)

Lemma sqrt_one_plus_sqr_ratio x z :
  x <> 0 ->
  sqrt (1 + (z / x)²) = sqrt (x * x + z * z) / Rabs x.
Proof.
  intros Hx.
  assert (Hxx : 0 < x * x) by nra.
  replace (1 + (z / x)²) with ((x * x + z * z) / (x * x))
    by (unfold Rsqr; field; exact Hx).
  rewrite sqrt_div_alt by exact Hxx.
  replace (x * x) with (x²) at 2 by reflexivity.
  rewrite sqrt_Rsqr_abs. reflexivity.
Qed.

(** The angle [Math.atan2 (z, x)] points at [(x, z)]. *)
Lemma cos_sin_atan2 x z :
  0 < sqrt (x * x + z * z) ->
  cos (JS.atan2 z x) = x / sqrt (x * x + z * z)
  /\ sin (JS.atan2 z x) = z / sqrt (x * x + z * z).
Proof.
  intros Hd. set (d := sqrt (x * x + z * z)) in *.
  unfold JS.atan2.
  destruct (Rlt_dec 0 x) as [Hpos|Hnpos].
  - rewrite cos_atan, sin_atan, sqrt_one_plus_sqr_ratio by lra. fold d.
    rewrite Rabs_pos_eq by lra. split; field; lra.
  - destruct (Rlt_dec x 0) as [Hneg|Hnneg].
    + assert (Hc : cos (atan (z / x)) = - x / d).
      { rewrite cos_atan, sqrt_one_plus_sqr_ratio by lra. fold d.
        rewrite Rabs_left by lra. field; lra. }
      assert (Hs : sin (atan (z / x)) = - z / d).
      { rewrite sin_atan, sqrt_one_plus_sqr_ratio by lra. fold d.
        rewrite Rabs_left by lra. field; lra. }
      destruct (Rle_dec 0 z).
      * rewrite neg_cos, neg_sin, Hc, Hs. split; field; lra.
      * rewrite cos_minus, sin_minus, cos_PI, sin_PI, Hc, Hs.
        split; field; lra.
    + assert (Hx : x = 0) by lra. subst x.
      assert (Hdz : d = Rabs z).
      { unfold d. replace (0 * 0 + z * z) with (z²) by (unfold Rsqr; ring).
        apply sqrt_Rsqr_abs. }
      destruct (Rlt_dec 0 z).
      * rewrite cos_PI2, sin_PI2, Hdz, Rabs_pos_eq by lra.
        split; field; lra.
      * destruct (Rlt_dec z 0).
        -- rewrite cos_neg, sin_neg, cos_PI2, sin_PI2, Hdz, Rabs_left by lra.
           split; field; lra.
        -- assert (z = 0) by lra. subst z.
           rewrite Rabs_R0 in Hdz. lra.
Qed.

(** A point scaled by [k >= 0] is [k] times as far from the centre. *)
Lemma distanceFromCenter_scaled k p q :
  0 <= k ->
  Vector3.x q = k * Vector3.x p ->
  Vector3.z q = k * Vector3.z p ->
  Vector3.distanceFromCenter q = k * Vector3.distanceFromCenter p.
Proof.
  intros Hk Hx Hz. unfold Vector3.distanceFromCenter. rewrite Hx, Hz.
  replace (k * Vector3.x p * (k * Vector3.x p)
           + k * Vector3.z p * (k * Vector3.z p))
    with (k² * (Vector3.x p * Vector3.x p + Vector3.z p * Vector3.z p))
    by (unfold Rsqr; ring).
  rewrite sqrt_mult_alt by apply Rle_0_sqr.
  rewrite sqrt_Rsqr by exact Hk. reflexivity.
Qed.









(* ================================================================= *)
(** ** EnemyPlane: what [update] never writes, and the speed *)

(** Identity, health and the configured speed and behaviour. *)
Definition sameCore (e e' : t) : Prop :=
  eid e' = eid e /\ health e' = health e /\ speed e' = speed e
  /\ behaviorState e' = behaviorState e.

Lemma sameCore_refl e : sameCore e e.
Proof. unfold sameCore; auto. Qed.

Lemma sameCore_trans a b c : sameCore a b -> sameCore b c -> sameCore a c.
Proof. unfold sameCore; intuition congruence. Qed.

Ltac core := intros; unfold sameCore; run_host; split_ifs; cbn; auto.

Lemma wrapBoundary_core e : sameCore e (wrapBoundary e).
Proof. unfold wrapBoundary; core. Qed.

Lemma retarget_core e h : sameCore e (fst (retarget e h)).
Proof. unfold retarget, updateRandomDirection; core. Qed.

Lemma handleSpecialManeuvers_core delta e h :
  sameCore e (fst (handleSpecialManeuvers delta e h)).
Proof.
  unfold handleSpecialManeuvers, handleEvasiveManeuvers, handleDivingAttack,
    handleBarrelRoll.
  destruct (isEvading e); [core|].
  destruct (isDiving e); [core|].
  destruct (isRolling e); core.
Qed.

Lemma clampAltitude_core e : sameCore e (clampAltitude e).
Proof. unfold clampAltitude, JS.gt, JS.lt; core. Qed.

Lemma glide_core delta e : sameCore e (glide delta e).
Proof.
  unfold glide.
  eapply sameCore_trans; [|unfold syncMesh; core].
  eapply sameCore_trans; [|apply clampAltitude_core].
  eapply sameCore_trans; [|unfold moveForward; core].
  eapply sameCore_trans; [|unfold adjustSpeed; core].
  eapply sameCore_trans; [|unfold bank; core].
  unfold steer; core.
Qed.

Lemma startSpecialManeuver_core player e h :
  sameCore e (fst (startSpecialManeuver player e h)).
Proof.
  unfold startSpecialManeuver, startDivingAttack, startEvasiveManeuvers,
    startBarrelRoll.
  run_host.
  destruct (JS.lt _ _ && isSome player); [destruct player|]; core.
Qed.

Lemma maybeStartSpecialManeuver_core player e h :
  sameCore e (fst (maybeStartSpecialManeuver player e h)).
Proof.
  unfold maybeStartSpecialManeuver.
  destruct (negb _ && negb _ && negb _); [|apply sameCore_refl].
  unfold bind, random; cbn. destruct (Rlt_dec _ _); [|apply sameCore_refl].
  apply startSpecialManeuver_core.
Qed.

Lemma update_core player delta e h :
  sameCore e (fst (update player delta e h)).
Proof.
  rewrite update_eq.
  pose proof (retarget_core (wrapBoundary e) h) as H1.
  destruct (retarget (wrapBoundary e) h) as [e1 h1]; cbn in H1.
  pose proof (handleSpecialManeuvers_core delta e1 h1) as H2.
  destruct (handleSpecialManeuvers delta e1 h1) as [e2 h2]; cbn in H2.
  eapply sameCore_trans; [apply wrapBoundary_core|].
  eapply sameCore_trans; [exact H1|].
  eapply sameCore_trans; [exact H2|].
  eapply sameCore_trans; [apply glide_core|].
  apply maybeStartSpecialManeuver_core.
Qed.

(** The blocks before the speed adjustment leave [currentSpeed] alone. *)
Lemma wrapBoundary_currentSpeed e :
  currentSpeed (wrapBoundary e) = currentSpeed e.
Proof. unfold wrapBoundary; frame. Qed.

Lemma retarget_currentSpeed e h :
  currentSpeed (fst (retarget e h)) = currentSpeed e.
Proof. unfold retarget, updateRandomDirection; frame. Qed.

Lemma handleSpecialManeuvers_currentSpeed delta e h :
  currentSpeed (fst (handleSpecialManeuvers delta e h)) = currentSpeed e.
Proof.
  unfold handleSpecialManeuvers, handleEvasiveManeuvers, handleDivingAttack,
    handleBarrelRoll.
  destruct (isEvading e); [frame|].
  destruct (isDiving e); [frame|].
  destruct (isRolling e); frame.
Qed.

Lemma clampAltitude_velocity e :
  velocity (clampAltitude e) = velocity e
  /\ currentSpeed (clampAltitude e) = currentSpeed e.
Proof. unfold clampAltitude, JS.gt, JS.lt; split; frame. Qed.

Lemma startSpecialManeuver_velocity player e h :
  velocity (fst (startSpecialManeuver player e h)) = velocity e
  /\ currentSpeed (fst (startSpecialManeuver player e h)) = currentSpeed e.
Proof.
  unfold startSpecialManeuver, startDivingAttack, startEvasiveManeuvers,
    startBarrelRoll.
  run_host.
  destruct (JS.lt _ _ && isSome player); [destruct player|]; split; frame.
Qed.

Lemma maybeStartSpecialManeuver_velocity player e h :
  velocity (fst (maybeStartSpecialManeuver player e h)) = velocity e
  /\ currentSpeed (fst (maybeStartSpecialManeuver player e h))
     = currentSpeed e.
Proof.
  unfold maybeStartSpecialManeuver.
  destruct (negb _ && negb _ && negb _); [|split; reflexivity].
  unfold bind, random; cbn. destruct (Rlt_dec _ _); [|split; reflexivity].
  apply startSpecialManeuver_velocity.
Qed.

(** The heading is a unit vector. *)
Lemma forwardOfEuler_unit r :
  Vector3.lengthSq (Vector3.forwardOfEuler r) = 1.
Proof.
  unfold Vector3.lengthSq; cbn.
  pose proof (sin2_cos2 (Vector3.x r)) as Hx.
  pose proof (sin2_cos2 (Vector3.y r)) as Hy.
  unfold Rsqr in Hx, Hy. nra.
Qed.

Lemma length_multiplyScalar_unit d s :
  Vector3.lengthSq d = 1 ->
  Vector3.length (Vector3.multiplyScalar d s) = Rabs s.
Proof.
  intros Hd. unfold Vector3.length, Vector3.lengthSq in *; cbn.
  replace (Vector3.x d * s * (Vector3.x d * s)
           + Vector3.y d * s * (Vector3.y d * s)
           + Vector3.z d * s * (Vector3.z d * s))
    with (s² * (Vector3.x d * Vector3.x d + Vector3.y d * Vector3.y d
                + Vector3.z d * Vector3.z d))
    by (unfold Rsqr; ring).
  rewrite Hd, Rmult_1_r. apply sqrt_Rsqr_abs.
Qed.

(** The speed the behaviour asks for is between 90% and 130% of the
    configured speed. *)
Lemma targetSpeedOf_range e :
  0 <= speed e ->
  0.9 * speed e <= targetSpeedOf e <= 1.3 * speed e.
Proof.
  intros Hs. unfold targetSpeedOf.
  repeat match goal with
         | |- context [if ?c then _ else _] => destruct c
         end; lra.
Qed.

(** After the pure stretch of [update] the velocity is the heading times
    the adjusted speed. *)
Lemma glide_velocity delta e :
  exists d,
    Vector3.lengthSq d = 1
    /\ velocity (glide delta e)
       = Vector3.multiplyScalar d (currentSpeed (glide delta e))
    /\ currentSpeed (glide delta e) = currentSpeed (adjustSpeed delta e).
Proof.
  unfold glide, syncMesh; cbn.
  set (e1 := steer delta e).
  set (cd := Vector3.forwardOfEuler (rotation e1)).
  set (e2 := bank cd e1).
  set (e3 := adjustSpeed delta e2).
  assert (He2 : e2 = e <| rotation := rotation e2 |>).
  { unfold e2. rewrite bank_only_rotation. unfold e1 at 2.
    rewrite steer_only_rotation. reflexivity. }
  assert (Hcs : currentSpeed e3 = currentSpeed (adjustSpeed delta e)).
  { unfold e3. rewrite He2. unfold adjustSpeed, targetSpeedOf; cbn.
    split_ifs; reflexivity. }
  destruct (clampAltitude_velocity (moveForward cd delta e3)) as [Hv Hc].
  exists cd. rewrite Hv, Hc.
  split; [apply forwardOfEuler_unit|].
  split; [reflexivity|exact Hcs].
Qed.

(** The enemy part of C7: the speed after [update] is [currentSpeed], and
    [currentSpeed] stays between 0 and 130% of the configured speed. *)
Lemma enemy_speed_after_update player delta e h :
  0 <= delta ->
  0 <= speed e ->
  0 <= currentSpeed e <= 1.3 * speed e ->
  Vector3.length (velocity (fst (update player delta e h)))
  = currentSpeed (fst (update player delta e h))
  /\ 0 <= currentSpeed (fst (update player delta e h)) <= 1.3 * speed e.
Proof.
  intros Hdelta Hspeed Hcs.
  rewrite update_eq.
  pose proof (retarget_core (wrapBoundary e) h) as H1.
  pose proof (retarget_currentSpeed (wrapBoundary e) h) as C1.
  destruct (retarget (wrapBoundary e) h) as [e1 h1]; cbn in H1, C1.
  pose proof (handleSpecialManeuvers_core delta e1 h1) as H2.
  pose proof (handleSpecialManeuvers_currentSpeed delta e1 h1) as C2.
  destruct (handleSpecialManeuvers delta e1 h1) as [e2 h2]; cbn in H2, C2.
  destruct (maybeStartSpecialManeuver_velocity player (glide delta e2) h2)
    as [Hv Hc].
  rewrite Hv, Hc.
  destruct (glide_velocity delta e2) as (d & Hd & Hvel & Hcur).
  assert (Hs2 : speed e2 = speed e).
  { destruct (wrapBoundary_core e) as (_ & _ & Hw & _).
    destruct H1 as (_ & _ & H1 & _). destruct H2 as (_ & _ & H2 & _).
    congruence. }
  assert (Hc2 : currentSpeed e2 = currentSpeed e).
  { rewrite C2, C1. apply wrapBoundary_currentSpeed. }
  assert (Hrange : 0 <= currentSpeed (glide delta e2) <= 1.3 * speed e).
  { rewrite Hcur.
    pose proof (adjustSpeed_between delta e2 Hdelta) as Hb.
    pose proof (targetSpeedOf_range e2) as Ht.
    rewrite Hs2, Hc2 in *. specialize (Ht Hspeed).
    unfold Rmin, Rmax in Hb.
    destruct (Rle_dec (currentSpeed e) (targetSpeedOf e2)); lra. }
  split; [|exact Hrange].
  rewrite Hvel, (length_multiplyScalar_unit d _ Hd).
  apply Rabs_pos_eq. lra.
Qed.

(** C7, counterexample for the enemy: [EnemyPlane] has no [maxSpeed]; the
    speed its constructor configures is [speed].  The aggressive sample
    enemy, configured with speed 10 and flying at 10, flies at 10.008 after
    [update (0.016)]. *)
Lemma aggressive_enemy_exceeds_its_speed :
  Vector3.length
    (velocity (fst (update (Some (Vector3.mk 0 40 0)) 0.016
                           sampleEnemy sampleHost)))
  = 10.008
  /\ speed sampleEnemy = 10.
Proof.
  split; [|reflexivity].
  destruct (enemy_speed_after_update (Some (Vector3.mk 0 40 0)) 0.016
                               sampleEnemy sampleHost) as [Hlen _];
    [lra|cbn; lra|cbn; lra|].
  rewrite Hlen. clear Hlen.
  rewrite update_eq.
  rewrite wrapBoundary_inside.
  2:{ unfold Vector3.distanceFromCenter; cbn.
      replace (0 * 0 + 0 * 0) with 0 by ring. rewrite sqrt_0.
      unfold World.worldRadius; lra. }
  unfold retarget; run_host.
  destruct (Rgt_dec _ _); [lra|].
  unfold handleSpecialManeuvers; cbn.
  destruct (maybeStartSpecialManeuver_velocity
              (Some (Vector3.mk 0 40 0)) (glide 0.016 sampleEnemy)
              (mkHost (fun _ => 0.5) 0 (fun _ => 0) 1 [])) as [_ Hc].
  rewrite Hc.
  destruct (glide_velocity 0.016 sampleEnemy) as (d & _ & _ & Hcur).
  rewrite Hcur. unfold adjustSpeed, targetSpeedOf, speedChangeRate; cbn.
  destruct (Rlt_dec _ _); [|lra]. cbn.
  unfold Rmin. destruct (Rle_dec _ _); lra.
Qed.

End EnemyPlaneSpec.

(* ================================================================= *)
(** ** Arrays: the loops as list functions *)

Module JSArraySpec.
Import JSArray.

Lemma nth_error_middle {A} (pre : list A) b rest :
  nth_error (pre ++ b :: rest) (List.length pre) = Some b.
Proof. induction pre; cbn; auto. Qed.

Lemma replaceAt_middle {A} (pre : list A) b b' rest :
  replaceAt (List.length pre) b' (pre ++ b :: rest) = pre ++ b' :: rest.
Proof. induction pre; cbn; congruence. Qed.

Lemma removeAt_middle {A} (pre : list A) b rest :
  removeAt (List.length pre) (pre ++ b :: rest) = pre ++ rest.
Proof.
  unfold removeAt. induction pre; cbn; [reflexivity|].
  f_equal. exact IHpre.
Qed.

Lemma nth_error_end {A} (pre : list A) :
  nth_error pre (List.length pre) = None.
Proof. apply nth_error_None. lia. Qed.


Lemma removeAt_length {A} i (a : list A) :
  (i < List.length a)%nat ->
  List.length (removeAt i a) = (List.length a - 1)%nat.
Proof.
  intros H. unfold removeAt.
  rewrite length_app, length_firstn, length_skipn. lia.
Qed.

(** An element of a list splits it. *)
Lemma nth_error_split' {A} (a : list A) i b :
  nth_error a i = Some b ->
  exists pre rest, a = pre ++ b :: rest /\ List.length pre = i.
Proof. apply nth_error_split. Qed.

Lemma firstn_removeAt {A} k (a : list A) :
  (k <= List.length a)%nat -> firstn k (removeAt k a) = firstn k a.
Proof.
  intros H. unfold removeAt.
  rewrite firstn_app, length_firstn.
  replace (k - Nat.min k (List.length a))%nat with O by lia.
  rewrite firstn_O, app_nil_r, firstn_firstn.
  f_equal. lia.
Qed.

Lemma firstn_S_nth {A} k (a : list A) b :
  nth_error a k = Some b -> firstn (S k) a = firstn k a ++ [b].
Proof.
  revert a; induction k; intros [|x a] H; cbn in *; try discriminate.
  - congruence.
  - f_equal. apply IHk. exact H.
Qed.

Lemma nth_error_replaceAt {A} i (v : A) a :
  (i < List.length a)%nat -> nth_error (replaceAt i v a) i = Some v.
Proof.
  revert i; induction a; intros [|i] H; cbn in *; try lia; auto.
  apply IHa. lia.
Qed.




Lemma removeAt_In {A} i (a : list A) x :
  In x (removeAt i a) -> In x a.
Proof.
  unfold removeAt. intros H. apply in_app_or in H as [H|H].
  - rewrite <- (firstn_skipn i a). apply in_or_app. left. exact H.
  - rewrite <- (firstn_skipn (S i) a). apply in_or_app. right. exact H.
Qed.


End JSArraySpec.

(* ================================================================= *)
(** ** Player: bullets *)

Module PlayerSpec.
Import Player JSArray JSArraySpec.

Definition inWorld (b : Bullet) : bool := negb (beyondWorld b).
Definition fresh (n : R) (b : Bullet) : bool := negb (tooOld n b).

Lemma moveBullets_from delta rest :
  forall pre fuel,
    (List.length rest <= fuel)%nat ->
    moveBullets fuel (List.length pre) delta (pre ++ rest)
    = pre ++ filter inWorld (map (moveBullet delta) rest).
Proof.
  induction rest as [|b rest IH]; intros pre fuel Hfuel.
  - cbn [map filter]. rewrite !app_nil_r.
    destruct fuel; cbn [moveBullets]; [reflexivity|].
    rewrite nth_error_end. reflexivity.
  - destruct fuel as [|fuel]; [cbn in Hfuel; lia|].
    cbn [moveBullets]. rewrite nth_error_middle, replaceAt_middle.
    cbn [map filter]. unfold inWorld at 1.
    destruct (beyondWorld (moveBullet delta b)); cbn [negb].
    + rewrite removeAt_middle. apply IH. cbn in Hfuel; lia.
    + replace (pre ++ moveBullet delta b :: rest)
        with ((pre ++ [moveBullet delta b]) ++ rest)
        by (rewrite <- app_assoc; reflexivity).
      replace (S (List.length pre))
        with (List.length (pre ++ [moveBullet delta b]))
        by (rewrite length_app; cbn; lia).
      rewrite IH by (cbn in Hfuel; lia).
      rewrite <- app_assoc. reflexivity.
Qed.

(** The first loop moves every bullet and keeps those inside the world. *)
Lemma moveBullets_filter delta bs :
  moveBullets (List.length bs) 0 delta bs
  = filter inWorld (map (moveBullet delta) bs).
Proof. apply (moveBullets_from delta bs [] (List.length bs)). lia. Qed.

Lemma removeOldBullets_from n pre :
  forall post,
    removeOldBullets n (List.length pre) (pre ++ post)
    = filter (fresh n) pre ++ post.
Proof.
  induction pre as [|b pre IH] using rev_ind; intros post.
  - reflexivity.
  - rewrite length_app, Nat.add_comm. cbn [List.length Nat.add].
    cbn [removeOldBullets].
    rewrite <- app_assoc. cbn [app].
    rewrite nth_error_middle, filter_app. cbn [filter].
    unfold fresh at 2. destruct (tooOld n b); cbn [negb].
    + rewrite removeAt_middle, app_nil_r. apply IH.
    + rewrite IH, <- app_assoc. reflexivity.
Qed.

(** The second loop keeps the bullets that are at most 3 seconds old. *)
Lemma removeOldBullets_filter n bs :
  removeOldBullets n (List.length bs) bs = filter (fresh n) bs.
Proof.
  pose proof (removeOldBullets_from n bs []) as H.
  rewrite !app_nil_r in H. exact H.
Qed.

(** The cap keeps the last [MAX_BULLETS] entries. *)
Lemma capBullets_skipn bs :
  capBullets bs = skipn (List.length bs - MAX_BULLETS) bs.
Proof.
  unfold capBullets, dropFirst.
  destruct (Nat.ltb_spec MAX_BULLETS (List.length bs)) as [H|H];
    [reflexivity|].
  replace (List.length bs - MAX_BULLETS)%nat with O by lia. reflexivity.
Qed.

Lemma updateBullets_eq delta p h :
  bullets (fst (updateBullets delta p h))
  = let survivors :=
        filter (fresh (nextNow h))
               (filter inWorld (map (moveBullet delta) (bullets p))) in
    skipn (List.length survivors - MAX_BULLETS) survivors.
Proof.
  unfold updateBullets; run_host.
  rewrite moveBullets_filter, removeOldBullets_filter, capBullets_skipn.
  reflexivity.
Qed.

Lemma Forall_skipn {A} (P : A -> Prop) n (l : list A) :
  Forall P l -> Forall P (skipn n l).
Proof.
  intros H. rewrite <- (firstn_skipn n l) in H.
  apply Forall_app in H. apply H.
Qed.

(** C8: after [updateBullets] no bullet of the list is older than 3 seconds
    (by the clock value the function reads) or farther from the world
    centre than [worldRadius] (after this frame's move); the list has at
    most 20 entries; and it is the tail of the list of surviving bullets, so
    what the cap evicts is the front of the array, where the oldest bullets
    are, because [shoot] only ever appends. *)
Theorem bullets_after_updateBullets (delta : R) (p : t) (h : Host) :
  let survivors :=
      filter (fresh (nextNow h))
             (filter inWorld (map (moveBullet delta) (bullets p))) in
  let kept := bullets (fst (updateBullets delta p h)) in
  Forall (fun b =>
            nextNow h - createdAt b <= 3
            /\ Vector3.distanceFromCenter (bulletPosition b)
               <= World.worldRadius) kept
  /\ (List.length kept <= MAX_BULLETS)%nat
  /\ (exists evicted,
         survivors = evicted ++ kept
         /\ List.length evicted = (List.length survivors - MAX_BULLETS)%nat)
  /\ (exists added, bullets (fst (shoot p h)) = bullets p ++ added).
Proof.
  intros survivors kept.
  assert (Hkept : kept = skipn (List.length survivors - MAX_BULLETS) survivors)
    by apply updateBullets_eq.
  repeat split.
  - rewrite Hkept. apply Forall_skipn. apply Forall_forall.
    intros b Hb. unfold survivors in Hb.
    apply filter_In in Hb as [Hb Hfresh].
    apply filter_In in Hb as [_ Hin].
    unfold fresh, tooOld, inWorld, beyondWorld, JS.gt, JS.lt in *.
    destruct (Rlt_dec 3 (nextNow h - createdAt b)); [discriminate|].
    destruct (Rlt_dec World.worldRadius
                      (Vector3.distanceFromCenter (bulletPosition b)));
      [discriminate|].
    lra.
  - rewrite Hkept, length_skipn. lia.
  - exists (firstn (List.length survivors - MAX_BULLETS) survivors).
    rewrite Hkept, firstn_skipn, length_firstn. split; [reflexivity|lia].
  - unfold shoot; run_host. destruct (Rlt_dec _ _); cbn.
    + exists []. rewrite app_nil_r. reflexivity.
    + eexists. reflexivity.
Qed.

(* ================================================================= *)
(** ** Player: the yaw wrap *)

(** [a % b] for a dividend that is not negative. *)
Lemma rem_nonneg a b :
  0 <= a -> 0 < b -> 0 <= JS.rem a b < b.
Proof.
  intros Ha Hb. unfold JS.rem, JS.trunc.
  assert (Hq : 0 <= a / b).
  { apply Rmult_le_reg_r with b; [exact Hb|].
    replace (a / b * b) with a by (field; lra). lra. }
  destruct (Rle_dec 0 (a / b)) as [_|Hn]; [|contradiction].
  pose proof (Zfloor_bound (a / b)) as [Hlo Hhi].
  assert (Ha' : a = a / b * b) by (field; lra).
  split; nra.
Qed.

(** [a % b] for a dividend between [-b] and 0 is the dividend itself. *)
Lemma rem_small_negative a b :
  - b < a <= 0 -> 0 < b -> JS.rem a b = a.
Proof.
  intros Ha Hb. unfold JS.rem, JS.trunc.
  assert (Hq : -1 < a / b <= 0).
  { split.
    - apply Rmult_lt_reg_r with b; [exact Hb|].
      replace (a / b * b) with a by (field; lra). lra.
    - apply Rmult_le_reg_r with b; [exact Hb|].
      replace (a / b * b) with a by (field; lra). lra. }
  assert (Hc : Zceil (a / b) = 0%Z) by (apply Zceil_eq; cbn; lra).
  destruct (Rle_dec 0 (a / b)) as [Hz|_].
  - assert (a / b = 0) by lra.
    replace (a / b) with 0 by lra. rewrite (ZfloorZ 0). cbn.
    assert (a = a / b * b) by (field; lra). nra.
  - rewrite Hc. cbn. ring.
Qed.

Lemma wrapYaw_yaw p :
  Vector3.y (rotation (wrapYaw p))
  = JS.rem (Vector3.y (rotation p) + PI) (PI * 2) - PI.
Proof. reflexivity. Qed.

(** C9, as the code has it: when the yaw that reaches the wrap is at least
    [-PI], the yaw after [updateRotation] is in [[-PI, PI)]: closed at
    [-PI], open at [PI]. *)
Theorem yaw_wrapped_after_updateRotation (delta : R) (p : t) :
  - PI <= Vector3.y (rotation (steerRotation delta p)) ->
  - PI <= Vector3.y (rotation (updateRotation delta p)) < PI.
Proof.
  intros H. unfold updateRotation. rewrite wrapYaw_yaw.
  pose proof PI_RGT_0 as Hpi.
  destruct (rem_nonneg (Vector3.y (rotation (steerRotation delta p)) + PI)
                       (PI * 2)) as [Hlo Hhi]; lra.
Qed.

(** A player at rest on the runway, no key held. *)
Definition samplePlayer : t :=
  {| position := Vector3.mk 0 1 0;
     rotation := Vector3.zero;
     speed := 0;
     throttle := 0;
     isGrounded := true;
     velocity := Vector3.zero;
     acceleration := Vector3.zero;
     bullets := [];
     lastShotTime := 0;
     controls := mkControls false false false false false false false;
     meshPosition := Vector3.mk 0 1 0;
     meshQuaternion := mkQuaternion 0 0 0;
     matrixWorldPosition := Vector3.mk 0 1 0;
     matrixWorldQuaternion := mkQuaternion 0 0 0 |}.

Lemma steerRotation_no_keys_yaw delta r :
  Vector3.y (rotation (steerRotation delta (samplePlayer <| rotation := r |>)))
  = Vector3.y r.
Proof. reflexivity. Qed.

Lemma yaw_wrapped_after_updateRotation_witness :
  - PI <= Vector3.y (rotation (updateRotation 0.016 samplePlayer)) < PI.
Proof.
  apply (yaw_wrapped_after_updateRotation 0.016 samplePlayer).
  cbn. pose proof PI_RGT_0. lra.
Defined.

(** The player holding the right-turn key at flying speed, heading [-PI]. *)
Definition turningRight : t :=
  samplePlayer
    <| rotation := Vector3.mk 0 (- PI) 0 |>
    <| speed := 10 |>
    <| controls := mkControls false false false true false false false |>.

Lemma turningRight_yaw_before_wrap :
  Vector3.y (rotation (steerRotation 0.016 turningRight))
  = - PI + -1 * Rmin (0.016 * 2.0 * yawRate) (PI / 8 * 0.016).
Proof.
  unfold steerRotation, minSpeed; cbn.
  destruct (Rgt_dec 10 5); [reflexivity|lra].
Qed.

(** C9, counterexample: [Game.init] starts the player at a yaw of [PI];
    with no key held the first [updateRotation] turns that into [-PI], which
    is outside [(-PI, PI]].  From there, holding the right-turn key takes
    the yaw below [-PI], and the wrap leaves it there, because [%] keeps the
    sign of the dividend. *)
Lemma yaw_outside_half_open_interval :
  Vector3.y (rotation (updateRotation
                         0.016 (samplePlayer <| rotation := Vector3.mk 0 PI 0 |>)))
  = - PI
  /\ Vector3.y (rotation (updateRotation 0.016 turningRight)) < - PI.
Proof.
  pose proof PI_RGT_0 as Hpi.
  unfold updateRotation. rewrite !wrapYaw_yaw. split.
  - rewrite steerRotation_no_keys_yaw. cbn [Vector3.y].
    unfold JS.rem, JS.trunc.
    replace ((PI + PI) / (PI * 2)) with 1 by (field; lra).
    destruct (Rle_dec 0 1); [|lra].
    rewrite (ZfloorZ 1). cbn. ring.
  - rewrite turningRight_yaw_before_wrap. unfold yawRate.
    set (yawAmount := Rmin (0.016 * 2.0 * 0.3) (PI / 8 * 0.016)).
    assert (Hy : 0 < yawAmount <= PI / 8 * 0.016).
    { unfold yawAmount, Rmin. destruct (Rle_dec _ _); lra. }
    rewrite rem_small_negative; lra.
Qed.

(* ================================================================= *)
(** ** Player: the speed limit *)

Lemma lengthSq_nonneg v : 0 <= Vector3.lengthSq v.
Proof. unfold Vector3.lengthSq. nra. Qed.

Lemma normalize_unit v :
  Vector3.length v <> 0 -> Vector3.lengthSq (Vector3.normalize v) = 1.
Proof.
  intros Hl. unfold Vector3.normalize.
  destruct (Req_dec_T (Vector3.length v) 0) as [Hz|_]; [contradiction|].
  unfold Vector3.lengthSq at 1; cbn.
  assert (Hsq : Vector3.length v * Vector3.length v = Vector3.lengthSq v)
    by (apply sqrt_sqrt, lengthSq_nonneg).
  unfold Vector3.lengthSq in Hsq.
  replace (Vector3.x v / Vector3.length v * (Vector3.x v / Vector3.length v)
           + Vector3.y v / Vector3.length v * (Vector3.y v / Vector3.length v)
           + Vector3.z v / Vector3.length v * (Vector3.z v / Vector3.length v))
    with ((Vector3.x v * Vector3.x v + Vector3.y v * Vector3.y v
           + Vector3.z v * Vector3.z v)
          / (Vector3.length v * Vector3.length v))
    by (field; exact Hl).
  rewrite <- Hsq. field. exact Hl.
Qed.

Lemma limitSpeed_bound p :
  Vector3.length (velocity (limitSpeed p)) <= maxSpeed.
Proof.
  unfold limitSpeed.
  assert (Hmax : 0 < maxSpeed) by (unfold maxSpeed; lra).
  destruct (Rgt_dec _ _) as [Hgt|Hle]; cbn; [|lra].
  rewrite EnemyPlaneSpec.length_multiplyScalar_unit.
  - rewrite Rabs_pos_eq; lra.
  - apply normalize_unit. lra.
Qed.

(** Touching the ground only takes speed away. *)
Lemma integratePosition_speed delta p :
  Vector3.length (velocity (integratePosition delta p))
  <= Vector3.length (velocity p).
Proof.
  unfold integratePosition.
  destruct (JS.lt _ _ && JS.lt _ _); cbn; [|lra].
  unfold Vector3.length, Vector3.lengthSq; cbn.
  apply sqrt_le_1_alt. nra.
Qed.

Lemma steerRotation_velocity delta p :
  velocity (steerRotation delta p) = velocity p.
Proof. unfold steerRotation; frame. Qed.

Lemma shoot_velocity p h : velocity (fst (shoot p h)) = velocity p.
Proof. unfold shoot; frame. Qed.

Lemma updateBullets_velocity delta p h :
  velocity (fst (updateBullets delta p h)) = velocity p.
Proof. reflexivity. Qed.

Lemma update_velocity delta p h :
  velocity (fst (update delta p h))
  = velocity (integratePosition delta (integrateVelocity delta p)).
Proof.
  unfold update, bind.
  match goal with
  | |- context [if ?c then shoot ?q else ret ?q] =>
    assert (Hs : velocity (fst ((if c then shoot q else ret q) h))
                 = velocity q)
      by (destruct c; [apply shoot_velocity|reflexivity]);
    destruct ((if c then shoot q else ret q) h) as [p1 h1]
  end.
  cbn in Hs. rewrite updateBullets_velocity, Hs.
  apply steerRotation_velocity.
Qed.

(** The player part of C7. *)
Lemma player_speed_after_update delta p h :
  Vector3.length (velocity (fst (update delta p h))) <= maxSpeed.
Proof.
  rewrite update_velocity.
  eapply Rle_trans; [apply integratePosition_speed|].
  apply limitSpeed_bound.
Qed.

End PlayerSpec.

(* ================================================================= *)
(** ** The speed of the player and of an enemy *)

(** C7, as the code has it: the player's speed after [Player.update] is at
    most [maxSpeed], for any [delta].  [EnemyPlane] has no [maxSpeed]: for
    [delta >= 0], an enemy whose [currentSpeed] is between 0 and 130% of its
    configured [speed] moves, after [update], at exactly [currentSpeed],
    which is again between 0 and 130% of [speed]. *)
Theorem speed_after_integration
        (delta : R) (p : Player.t) (player : option Vector3.t)
        (e : EnemyPlane.t) (h : Host) :
  Vector3.length (Player.velocity (fst (Player.update delta p h)))
  <= Player.maxSpeed
  /\ (0 <= delta ->
      0 <= EnemyPlane.speed e ->
      0 <= EnemyPlane.currentSpeed e <= 1.3 * EnemyPlane.speed e ->
      Vector3.length
        (EnemyPlane.velocity (fst (EnemyPlane.update player delta e h)))
      = EnemyPlane.currentSpeed (fst (EnemyPlane.update player delta e h))
      /\ 0 <= EnemyPlane.currentSpeed
                (fst (EnemyPlane.update player delta e h))
         <= 1.3 * EnemyPlane.speed e).
Proof.
  split.
  - apply PlayerSpec.player_speed_after_update.
  - apply EnemyPlaneSpec.enemy_speed_after_update.
Qed.

Lemma speed_after_integration_witness :
  0 <= EnemyPlane.currentSpeed
         (fst (EnemyPlane.update None 0.016 EnemyPlaneSpec.sampleEnemy
                                 EnemyPlaneSpec.sampleHost))
    <= 1.3 * EnemyPlane.speed EnemyPlaneSpec.sampleEnemy.
Proof.
  apply (speed_after_integration
           0.016 PlayerSpec.samplePlayer None EnemyPlaneSpec.sampleEnemy
           EnemyPlaneSpec.sampleHost); cbn; lra.
Defined.

(* ================================================================= *)
(** ** Game: the world boundary and the player *)

Module GameSpec.
Import Game.

(** The outward radial component of a velocity at a position: the velocity
    along the horizontal unit vector from the world centre to the position. *)
Definition outwardSpeed (pos vel : Vector3.t) : R :=
  (Vector3.x pos * Vector3.x vel + Vector3.z pos * Vector3.z vel)
  / Vector3.distanceFromCenter pos.

Definition distance (p : Player.t) : R :=
  Vector3.distanceFromCenter (Player.position p).

Lemma sqrt_sqr_sum x z :
  sqrt (x * x + z * z) * sqrt (x * x + z * z) = x * x + z * z.
Proof. apply sqrt_sqrt. nra. Qed.

Lemma length_nonneg v : 0 <= Vector3.length v.
Proof. apply sqrt_pos. Qed.

(** Scaling the position by [k > 0] does not change the outward
    component. *)
Lemma outwardSpeed_scaled k pos pos' vel :
  0 < k ->
  0 < Vector3.distanceFromCenter pos ->
  Vector3.x pos' = k * Vector3.x pos ->
  Vector3.z pos' = k * Vector3.z pos ->
  outwardSpeed pos' vel = outwardSpeed pos vel.
Proof.
  intros Hk Hd Hx Hz. unfold outwardSpeed.
  rewrite (EnemyPlaneSpec.distanceFromCenter_scaled k pos pos') by lra.
  rewrite Hx, Hz. field. lra.
Qed.

(** [checkWorldBounds] for a player beyond the radius. *)
Lemma checkWorldBounds_outside p :
  distance p > World.worldRadius ->
  let k := 1 - 0.05 * World.worldRadius / distance p in
  0 < k < 1
  /\ Vector3.x (Player.position (checkWorldBounds p))
     = k * Vector3.x (Player.position p)
  /\ Vector3.z (Player.position (checkWorldBounds p))
     = k * Vector3.z (Player.position p)
  /\ outwardSpeed (Player.position p) (Player.velocity (checkWorldBounds p))
     <= outwardSpeed (Player.position p) (Player.velocity p).
Proof.
  intros Hout k. unfold distance in *.
  set (d := Vector3.distanceFromCenter (Player.position p)) in *.
  assert (Hd : 0 < d) by (unfold World.worldRadius in *; lra).
  assert (Hk : 0 < k < 1).
  { unfold k, World.worldRadius in *.
    assert (0 < 0.05 * 845 / d < 1); [|lra].
    split; [apply Rdiv_lt_0_compat; lra|].
    apply Rmult_lt_reg_r with d; [exact Hd|].
    replace (0.05 * 845 / d * d) with (0.05 * 845) by (field; lra). lra. }
  split; [exact Hk|].
  unfold checkWorldBounds. fold d.
  destruct (Rgt_dec d World.worldRadius) as [_|Hn]; [|contradiction].
  set (dirX := - Vector3.x (Player.position p) / d).
  set (dirZ := - Vector3.z (Player.position p) / d).
  match goal with
  | |- context [Rgt_dec ?a 0] => set (dotProduct := a)
  end.
  assert (Hdot : dotProduct
                 = outwardSpeed (Player.position p) (Player.velocity p)).
  { unfold dotProduct, outwardSpeed, dirX, dirZ. fold d. cbn. field. lra. }
  destruct (Rgt_dec dotProduct 0) as [Hpos|Hneg]; cbn.
  - split; [unfold k, dirX; field; lra|].
    split; [unfold k, dirZ; field; lra|].
    rewrite <- Hdot. unfold outwardSpeed. fold d. cbn.
    match goal with
    | |- (_ * (dirX * ?l1 * 0.8) + _ * (dirZ * ?l2 * 0.8)) / d <= _ =>
      pose proof (length_nonneg
                    (Player.velocity p)) as H1;
      assert (H2 : 0 <= l2) by apply length_nonneg;
      set (L2 := l2) in *
    end.
    set (L1 := Vector3.length (Player.velocity p)) in *.
    unfold dirX, dirZ.
    replace ((Vector3.x (Player.position p)
              * (- Vector3.x (Player.position p) / d * L1 * 0.8)
              + Vector3.z (Player.position p)
                * (- Vector3.z (Player.position p) / d * L2 * 0.8)) / d)
      with (- (0.8 * (Vector3.x (Player.position p)
                      * Vector3.x (Player.position p) * L1
                      + Vector3.z (Player.position p)
                        * Vector3.z (Player.position p) * L2)
               * (/ d * / d)))
      by (field; lra).
    assert (0 < / d) by (apply Rinv_0_lt_compat; exact Hd).
    assert (0 <= Vector3.x (Player.position p)
                 * Vector3.x (Player.position p) * L1) by nra.
    assert (0 <= Vector3.z (Player.position p)
                 * Vector3.z (Player.position p) * L2) by nra.
    assert (0 < / d * / d) by nra.
    nra.
  - split; [unfold k, dirX; field; lra|].
    split; [unfold k, dirZ; field; lra|]. lra.
Qed.

(** [safetyTeleport] for a player more than 10% beyond the radius. *)
Lemma safetyTeleport_outside p :
  distance p > World.worldRadius * 1.1 ->
  let k := 0.8 * World.worldRadius / distance p in
  0 < k < 1
  /\ Player.position (safetyTeleport p)
     = Vector3.mk (k * Vector3.x (Player.position p))
                  (Vector3.y (Player.position p))
                  (k * Vector3.z (Player.position p))
  /\ Player.velocity (safetyTeleport p)
     = Vector3.mk (Vector3.x (Player.velocity p) * 0.1)
                  (Vector3.y (Player.velocity p))
                  (Vector3.z (Player.velocity p) * 0.1).
Proof.
  intros Hout k. unfold distance in *.
  set (d := Vector3.distanceFromCenter (Player.position p)) in *.
  assert (Hd : 0 < d) by (unfold World.worldRadius in *; lra).
  assert (Hk : 0 < k < 1).
  { unfold k, World.worldRadius in *.
    split; [apply Rdiv_lt_0_compat; lra|].
    apply Rmult_lt_reg_r with d; [exact Hd|].
    replace (0.8 * 845 / d * d) with (0.8 * 845) by (field; lra). lra. }
  split; [exact Hk|].
  unfold safetyTeleport. fold d.
  destruct (Rgt_dec d (World.worldRadius * 1.1)) as [_|Hn]; [|contradiction].
  cbn.
  destruct (EnemyPlaneSpec.cos_sin_atan2
              (Vector3.x (Player.position p)) (Vector3.z (Player.position p)))
    as [Hc Hs]; [exact Hd|].
  rewrite Hc, Hs. fold (Vector3.distanceFromCenter (Player.position p)).
  fold d. split; [|reflexivity].
  unfold k. f_equal; field; lra.
Qed.

(** [checkWorldBounds] moves a player beyond the world radius 5% of the
    radius toward the centre. *)
Lemma checkWorldBounds_inward p :
  distance p > World.worldRadius ->
  distance (checkWorldBounds p) = distance p - 0.05 * World.worldRadius
  /\ distance (checkWorldBounds p) < distance p
  /\ outwardSpeed (Player.position (checkWorldBounds p))
                  (Player.velocity (checkWorldBounds p))
     <= outwardSpeed (Player.position p) (Player.velocity p).
Proof.
  intros Hout.
  destruct (checkWorldBounds_outside p Hout) as (Hk & Hx & Hz & Hv).
  set (k := 1 - 0.05 * World.worldRadius / distance p) in *.
  assert (Hd : 0 < distance p) by (unfold World.worldRadius in *; lra).
  assert (Hdist : distance (checkWorldBounds p) = k * distance p).
  { unfold distance.
    apply EnemyPlaneSpec.distanceFromCenter_scaled; [lra|exact Hx|exact Hz]. }
  assert (Hkd : k * distance p = distance p - 0.05 * World.worldRadius)
    by (unfold k; field; lra).
  split; [rewrite Hdist; exact Hkd|].
  split; [rewrite Hdist, Hkd; unfold World.worldRadius; lra|].
  rewrite (outwardSpeed_scaled k (Player.position p) _ _
                               (proj1 Hk) Hd Hx Hz).
  exact Hv.
Qed.

(** The safety net puts a player more than 10% beyond the radius at 80% of
    the radius, with a tenth of the horizontal velocity. *)
Lemma safetyTeleport_inward p :
  distance p > World.worldRadius * 1.1 ->
  distance (safetyTeleport p) = 0.8 * World.worldRadius
  /\ distance (safetyTeleport p) < distance p
  /\ outwardSpeed (Player.position (safetyTeleport p))
                  (Player.velocity (safetyTeleport p))
     = 0.1 * outwardSpeed (Player.position p) (Player.velocity p).
Proof.
  intros Hout.
  destruct (safetyTeleport_outside p Hout) as (Hk & Hp & Hv).
  set (k := 0.8 * World.worldRadius / distance p) in *.
  assert (Hd : 0 < distance p) by (unfold World.worldRadius in *; lra).
  assert (Hdist : distance (safetyTeleport p) = k * distance p).
  { unfold distance.
    apply EnemyPlaneSpec.distanceFromCenter_scaled;
      [lra|rewrite Hp; reflexivity|rewrite Hp; reflexivity]. }
  assert (Hkd : k * distance p = 0.8 * World.worldRadius)
    by (unfold k; field; lra).
  split; [rewrite Hdist; exact Hkd|].
  split; [rewrite Hdist, Hkd; unfold World.worldRadius in *; lra|].
  rewrite (outwardSpeed_scaled k (Player.position p));
    [|lra|exact Hd|rewrite Hp; reflexivity|rewrite Hp; reflexivity].
  rewrite Hv. unfold outwardSpeed; cbn. field.
  unfold distance in Hd. lra.
Qed.

(** C6, as the code has it: [checkWorldBounds] moves a player beyond the
    world radius 5% of the radius toward the centre, so strictly closer, and
    does not increase the outward radial component of the velocity.  The
    safety net of [updateBoundaryEffects] puts a player more than 10% beyond
    the radius at 80% of the radius on the same ray, so strictly closer, and
    multiplies the horizontal velocity by 0.1, which multiplies its outward
    radial component by 0.1. *)
Theorem boundary_pass_moves_player_inward (p : Player.t) :
  (distance p > World.worldRadius ->
   distance (checkWorldBounds p) = distance p - 0.05 * World.worldRadius
   /\ distance (checkWorldBounds p) < distance p
   /\ outwardSpeed (Player.position (checkWorldBounds p))
                   (Player.velocity (checkWorldBounds p))
      <= outwardSpeed (Player.position p) (Player.velocity p))
  /\ (distance p > World.worldRadius * 1.1 ->
      distance (safetyTeleport p) = 0.8 * World.worldRadius
      /\ distance (safetyTeleport p) < distance p
      /\ outwardSpeed (Player.position (safetyTeleport p))
                      (Player.velocity (safetyTeleport p))
         = 0.1 * outwardSpeed (Player.position p) (Player.velocity p)).
Proof.
  split; [apply checkWorldBounds_inward|apply safetyTeleport_inward].
Qed.

(** A player 1000 from the centre, flying back toward it at 10. *)
Definition returningPlayer : Player.t :=
  PlayerSpec.samplePlayer
    <| Player.position := Vector3.mk 1000 3 0 |>
    <| Player.velocity := Vector3.mk (-10) 0 0 |>.

Lemma returningPlayer_distance : distance returningPlayer = 1000.
Proof.
  unfold distance, Vector3.distanceFromCenter; cbn.
  replace (1000 * 1000 + 0 * 0) with (1000²) by (unfold Rsqr; ring).
  apply sqrt_Rsqr. lra.
Qed.

Lemma boundary_pass_moves_player_inward_witness :
  distance (checkWorldBounds returningPlayer) < distance returningPlayer.
Proof.
  apply (boundary_pass_moves_player_inward returningPlayer).
  rewrite returningPlayer_distance. unfold World.worldRadius. lra.
Defined.

(** A game with nothing in it but a player at rest. *)
Definition sampleGame : t :=
  {| player := PlayerSpec.samplePlayer;
     enemies := [];
     birds := [];
     effectsToUpdate := [];
     mountains := [];
     trees := [];
     rescuedBirds := 0;
     gameOver := false;
     paused := false;
     boundaryWarningActive := false;
     spaceDown := false;
     nextEnemyId := 0;
     log := [] |}.

(** After the safety net has fired, the rest of [updateBoundaryEffects]
    leaves the player where the net put it: 80% of the radius is inside the
    push radius. *)
Lemma updateBoundaryEffects_after_teleport g :
  distance (player g) > World.worldRadius * 1.1 ->
  Player.position (player (updateBoundaryEffects g))
  = Player.position (safetyTeleport (player g))
  /\ Player.velocity (player (updateBoundaryEffects g))
     = Player.velocity (safetyTeleport (player g)).
Proof.
  intros Hout.
  destruct (safetyTeleport_inward (player g) Hout) as (Hd & _).
  unfold updateBoundaryEffects.
  set (p := safetyTeleport (player g)) in *.
  unfold distance in Hd. rewrite Hd.
  unfold World.worldRadius, World.boundaryWarningRadius.
  destruct (Rgt_dec (0.8 * 845) 675) as [_|Hn]; [|lra].
  unfold pushBack, World.boundaryPushRadius.
  destruct (Rgt_dec (0.8 * 845) 760) as [Hp|_]; [lra|].
  destruct (negb (Player.shootKey (Player.controls p)) && spaceDown g);
    split; reflexivity.
Qed.

(** C6, counterexample: a player 1000 from the centre flying back toward it
    at 10 has an outward radial velocity of -10; [updateBoundaryEffects]
    puts the player back at 676 and cuts the horizontal velocity to a tenth,
    so the outward radial velocity is -1 afterwards: it has increased. *)
Lemma safety_teleport_increases_outward_velocity :
  let g := sampleGame <| player := returningPlayer |> in
  let g' := updateBoundaryEffects g in
  distance (player g) > World.worldRadius
  /\ outwardSpeed (Player.position (player g)) (Player.velocity (player g))
     = -10
  /\ outwardSpeed (Player.position (player g')) (Player.velocity (player g'))
     = -1.
Proof.
  cbn zeta.
  assert (Hout : distance returningPlayer > World.worldRadius * 1.1)
    by (rewrite returningPlayer_distance; unfold World.worldRadius; lra).
  split; [cbn; rewrite returningPlayer_distance;
          unfold World.worldRadius; lra|].
  assert (H10 : outwardSpeed (Player.position returningPlayer)
                             (Player.velocity returningPlayer) = -10).
  { unfold outwardSpeed. fold (distance returningPlayer).
    rewrite returningPlayer_distance. cbn. field. }
  split; [exact H10|].
  set (g := sampleGame <| player := returningPlayer |>).
  assert (Hg : player g = returningPlayer) by reflexivity.
  destruct (updateBoundaryEffects_after_teleport g) as [Hp Hv];
    [rewrite Hg; exact Hout|].
  rewrite Hp, Hv, Hg.
  destruct (safetyTeleport_inward returningPlayer Hout) as (_ & _ & Hspeed).
  rewrite Hspeed, H10. lra.
Qed.

(** The push back near the edge, for the record.  A player at rest 850 from
    the centre, just beyond the radius of 845, is meant to be moved 2% of
    the radius inward; the direction vector has been scaled by the push
    factor of 135 by then, and the player lands 1431.5 from the centre on
    the far side. *)
Lemma pushBack_overshoots :
  let p := PlayerSpec.samplePlayer
             <| Player.position := Vector3.mk 850 3 0 |> in
  Player.position (pushBack 850 p) = Vector3.mk (850 + -135 * 16.9) 3 0.
Proof.
  cbn zeta.
  set (p := PlayerSpec.samplePlayer
              <| Player.position := Vector3.mk 850 3 0 |>).
  assert (Hpos : Player.position p = Vector3.mk 850 3 0) by reflexivity.
  assert (Hn : Vector3.normalize (Vector3.mk (Ropp 850) 0 (Ropp 0))
               = Vector3.mk (Ropp 850 / 850) (0 / 850) (Ropp 0 / 850)).
  { assert (Hlen : Vector3.length (Vector3.mk (Ropp 850) 0 (Ropp 0)) = 850).
    { unfold Vector3.length, Vector3.lengthSq; cbn.
      replace (- (850) * - (850) + 0 * 0 + - 0 * - 0) with (850²)
        by (unfold Rsqr; ring).
      apply sqrt_Rsqr. lra. }
    unfold Vector3.normalize. rewrite Hlen.
    destruct (Req_dec_T 850 0) as [Hz|_]; [lra|reflexivity]. }
  unfold pushBack, World.boundaryPushRadius, World.worldRadius.
  destruct (Rgt_dec 850 760) as [_|Hn1]; [|lra].
  destruct (Rgt_dec 850 (845 * 0.98)) as [_|Hn2]; [|lra].
  rewrite Hpos. cbn [Vector3.x Vector3.y Vector3.z]. rewrite Hn.
  match goal with
  | |- context [Rgt_dec ?a 0] => destruct (Rgt_dec a 0)
  end; subst p; cbn; f_equal; lra.
Qed.

(* ================================================================= *)
(** ** Game: destroying an enemy *)

Import JSArray JSArraySpec.

Definition isBirdsReleased (ev : Event) : bool :=
  match ev with BirdsReleased _ => true | _ => false end.

(** How many events of a kind the log holds. *)
Definition count (f : Event -> bool) (l : list Event) : nat :=
  List.length (filter f l).

Lemma count_app f l1 l2 : count f (l1 ++ l2) = (count f l1 + count f l2)%nat.
Proof. unfold count. rewrite filter_app, length_app. reflexivity. Qed.

(** The bullets of a list that are within the hit radius of an enemy. *)
Definition nearCount (e : EnemyPlane.t) (bs : list Player.Bullet) : nat :=
  List.length (filter (fun b => bulletNear b e) bs).

Lemma nearCount_app e l1 l2 :
  nearCount e (l1 ++ l2) = (nearCount e l1 + nearCount e l2)%nat.
Proof. unfold nearCount. rewrite filter_app, length_app. reflexivity. Qed.

Lemma nearCount_position e e' bs :
  EnemyPlane.position e' = EnemyPlane.position e ->
  nearCount e' bs = nearCount e bs.
Proof.
  intros H. unfold nearCount. f_equal. apply filter_ext.
  intros b. unfold bulletNear. rewrite H. reflexivity.
Qed.




(** Everything but the bird list is as it was. *)
Definition onlyBirds (g g' : t) : Prop :=
  player g' = player g /\ enemies g' = enemies g
  /\ nextEnemyId g' = nextEnemyId g /\ log g' = log g
  /\ rescuedBirds g' = rescuedBirds g /\ gameOver g' = gameOver g
  /\ paused g' = paused g.

Lemma createBirds_onlyBirds n pos :
  forall g h, onlyBirds g (fst (createBirds n pos g h)).
Proof.
  induction n as [|n IH]; intros g h.
  - unfold onlyBirds; cbn; auto 10.
  - cbn [createBirds]. unfold Bird.create. run_host.
    match goal with
    | |- onlyBirds _ (fst (createBirds n pos ?g1 ?h1)) =>
      pose proof (IH g1 h1) as H
    end.
    unfold onlyBirds in *. cbn in H. exact H.
Qed.

Lemma create_eid id pos h :
  EnemyPlane.eid (fst (EnemyPlane.create id pos h)) = id.
Proof. reflexivity. Qed.

(** [createNewEnemy] appends one enemy, with the next identity. *)
Lemma createNewEnemy_spec g h :
  exists newEnemy,
    EnemyPlane.eid newEnemy = nextEnemyId g
    /\ enemies (fst (createNewEnemy g h)) = enemies g ++ [newEnemy]
    /\ nextEnemyId (fst (createNewEnemy g h)) = S (nextEnemyId g)
    /\ log (fst (createNewEnemy g h))
       = log g ++ [EnemyCreated (nextEnemyId g)]
    /\ player (fst (createNewEnemy g h)) = player g
    /\ rescuedBirds (fst (createNewEnemy g h)) = rescuedBirds g
    /\ gameOver (fst (createNewEnemy g h)) = gameOver g
    /\ paused (fst (createNewEnemy g h)) = paused g.
Proof.
  assert (Heq : exists enemy h2,
             EnemyPlane.eid enemy = nextEnemyId g
             /\ createNewEnemy g h
                = (emit (EnemyCreated (nextEnemyId g))
                        (g <| enemies ::= fun l => l ++ [enemy] |>
                           <| nextEnemyId ::= S |>), h2)).
  { unfold createNewEnemy, bind, random, ret. cbv beta iota zeta.
    match goal with
    | |- context [EnemyPlane.create ?id ?pos ?h1] =>
      pose proof (create_eid id pos h1) as Hid;
      destruct (EnemyPlane.create id pos h1) as [enemy h2]
    end.
    exists enemy, h2. split; [exact Hid | reflexivity]. }
  destruct Heq as (enemy & h2 & Hid & Heq). rewrite Heq.
  exists enemy. cbn. auto 10.
Qed.

Lemma drawForMesh_eq n :
  forall h,
    drawForMesh n h
    = (tt, mkHost (randomSeq h) (n + randomIdx h) (clockSeq h) (clockIdx h)
                  (timers h)).
Proof.
  induction n as [|n IH]; intros h.
  - destruct h; reflexivity.
  - cbn [drawForMesh]. unfold bind, random. rewrite IH.
    cbn [randomSeq randomIdx clockSeq clockIdx timers].
    rewrite Nat.add_succ_r. reflexivity.
Qed.

(** The host after [createExplosion]: the particles' numbers are drawn and
    the clock has been read twice. *)
Definition afterExplosion (h : Host) : Host :=
  mkHost (randomSeq h) (particleCount * 10 + randomIdx h)
         (clockSeq h) (S (S (clockIdx h))) (timers h).

Lemma createExplosion_eq g h :
  createExplosion g h
  = (emit ExplosionCreated
          (g <| effectsToUpdate ::= fun l =>
                  l ++ [mkEffect explosion (nextNow h)] |>),
     afterExplosion h).
Proof.
  unfold createExplosion. unfold bind at 1. rewrite drawForMesh_eq.
  reflexivity.
Qed.

(** The number [handleEnemyDestruction] draws for the birds: the first
    after those of the explosion. *)
Definition birdDraw (h : Host) : R :=
  randomSeq h (particleCount * 10 + randomIdx h).

(** The number of birds an enemy releases, given the random number drawn
    and the birds already flying. *)
Definition birdsToRelease (r : R) (flying : nat) : Z :=
  Z.min (Z.min 4 (Zfloor (r * 3) + 2))
        (Z.max 0 (Z.of_nat World.maxBirds - Z.of_nat flying)).

(** [handleEnemyDestruction]: one explosion, the birds, the enemy out of the
    array, one new enemy at its end. *)
Lemma handleEnemyDestruction_spec enemy index g h :
  let g' := fst (handleEnemyDestruction enemy index g h) in
  let n := birdsToRelease (birdDraw h) (List.length (birds g)) in
  exists newEnemy released,
    EnemyPlane.eid newEnemy = nextEnemyId g
    /\ enemies g' = removeAt index (enemies g) ++ [newEnemy]
    /\ nextEnemyId g' = S (nextEnemyId g)
    /\ log g'
       = log g ++ ExplosionCreated :: released
               ++ [EnemyRemoved (EnemyPlane.eid enemy);
                   EnemyCreated (nextEnemyId g)]
    /\ released = (if Z.ltb 0 n then [BirdsReleased n] else [])
    /\ rescuedBirds g' = (rescuedBirds g + (if Z.ltb 0 n then n else 0))%Z
    /\ player g' = player g
    /\ gameOver g' = gameOver g
    /\ paused g' = paused g.
Proof.
  intros g' n. subst g'.
  unfold handleEnemyDestruction, bind.
  rewrite createExplosion_eq.
  unfold random, ret, afterExplosion.
  cbv beta iota zeta.
  cbn [fst snd randomSeq randomIdx clockSeq clockIdx timers].
  match goal with
  | |- context [Z.ltb 0 ?x] =>
    replace x with n by reflexivity
  end.
  match goal with
  | |- context [releaseBirds _ _ ?ga] => set (g1 := ga)
  end.
  set (h1 := mkHost _ _ _ _ _).
  assert (Hg1 : log g1 = log g ++ [ExplosionCreated]
                /\ enemies g1 = enemies g /\ nextEnemyId g1 = nextEnemyId g
                /\ rescuedBirds g1 = rescuedBirds g /\ player g1 = player g
                /\ gameOver g1 = gameOver g /\ paused g1 = paused g)
    by (unfold g1; cbn; auto 10).
  destruct Hg1 as (Hl1 & He1 & Hn1 & Hr1 & Hp1 & Ho1 & Hq1).
  set (rel := if Z.ltb 0 n then releaseBirds (EnemyPlane.position enemy) n g1
              else (fun h0 : Host => (g1, h0))).
  assert (Hrel : exists h2 g2,
             rel h1 = (g2, h2)
             /\ log g2 = log g1 ++ (if Z.ltb 0 n then [BirdsReleased n] else [])
             /\ enemies g2 = enemies g1 /\ nextEnemyId g2 = nextEnemyId g1
             /\ rescuedBirds g2
                = (rescuedBirds g1 + (if Z.ltb 0 n then n else 0))%Z
             /\ player g2 = player g1
             /\ gameOver g2 = gameOver g1 /\ paused g2 = paused g1).
  { unfold rel. destruct (Z.ltb 0 n).
    - unfold releaseBirds.
      match goal with
      | |- context [createBirds ?k ?pos ?ga _] =>
        pose proof (createBirds_onlyBirds k pos ga h1) as Hb;
        destruct (createBirds k pos ga h1) as [g2 h2]
      end.
      exists h2, g2. unfold onlyBirds in Hb; cbn in Hb.
      destruct Hb as (B1 & B2 & B3 & B4 & B5 & B6 & B7).
      repeat split; auto.
    - exists h1, g1. rewrite app_nil_r, Z.add_0_r.
      repeat split; auto. }
  destruct Hrel as (h2 & g2 & Erel & Hl2 & He2 & Hn2 & Hr2 & Hp2 & Ho2 & Hq2).
  rewrite Erel.
  match goal with
  | |- context [createNewEnemy ?ga ?ha] =>
    destruct (createNewEnemy_spec ga ha)
      as (newEnemy & Hid & Hen & Hnx & Hlg & Hpl & Hrb & Hgo & Hpa)
  end.
  exists newEnemy, (if Z.ltb 0 n then [BirdsReleased n] else []).
  rewrite Hen, Hnx, Hlg, Hpl, Hrb, Hgo, Hpa, Hid. cbn.
  rewrite He2, He1, Hn2, Hn1, Hl2, Hl1, Hr2, Hr1, Hp2, Hp1, Ho2, Ho1,
    Hq2, Hq1.
  repeat split; auto.
  rewrite <- !app_assoc. reflexivity.
Qed.

Lemma damage_spec a e h :
  EnemyPlane.eid (fst (EnemyPlane.damage a e h)) = EnemyPlane.eid e
  /\ EnemyPlane.health (fst (EnemyPlane.damage a e h))
     = (EnemyPlane.health e - a)%Z
  /\ EnemyPlane.position (fst (EnemyPlane.damage a e h))
     = EnemyPlane.position e.
Proof.
  unfold EnemyPlane.damage, EnemyPlane.startEvasiveManeuvers.
  cbn [EnemyPlane.health set EnemyPlane.set_health].
  destruct (Z.ltb 0 (EnemyPlane.health e - a)); run_host; split_ifs; auto.
Qed.




(** The state after a hit the enemy lives through. *)
Definition afterHit (i k : nat) (e1 : EnemyPlane.t) (n : R) (g : t) : t :=
  (emit HitIndicatorCreated
        (g <| effectsToUpdate ::= fun l => l ++ [mkEffect hitFlash n] |>))
    <| enemies ::= replaceAt i e1 |>
    <| player ::= fun p => p <| Player.bullets ::= removeAt k |> |>.

Lemma checkBulletHitsLoop_step k i g h b e :
  nth_error (Player.bullets (player g)) k = Some b ->
  nth_error (enemies g) i = Some e ->
  checkBulletHitsLoop (S k) i g h
  = if bulletNear b e then
      let h1 := snd (now h) in
      let e1 := fst (EnemyPlane.damage 25 e h1) in
      let h2 := snd (EnemyPlane.damage 25 e h1) in
      let g2 := afterHit i k e1 (nextNow h) g in
      if Z.leb (EnemyPlane.health e1) 0
      then handleEnemyDestruction e1 i g2 h2
      else checkBulletHitsLoop k i g2 h2
    else checkBulletHitsLoop k i g h.
Proof.
  intros Hb He. cbn [checkBulletHitsLoop]. rewrite Hb, He.
  destruct (bulletNear b e); [|reflexivity].
  unfold createHitIndicator, bind, now, ret, nextNow, afterHit.
  cbv beta iota zeta. cbn [fst snd].
  destruct (EnemyPlane.damage 25 e _) as [e1 h2]. cbn [fst snd].
  destruct (Z.leb (EnemyPlane.health e1) 0); reflexivity.
Qed.


(* ================================================================= *)
(** ** Game: what a visit of an enemy keeps *)




Lemma checkBulletHits_eq i g h :
  checkBulletHits i g h
  = checkBulletHitsLoop (List.length (Player.bullets (player g))) i g h.
Proof.
  unfold checkBulletHits.
  destruct (Player.bullets (player g)); reflexivity.
Qed.

(** The enemy [visitEnemy] works on: [update] has moved it. *)
Definition moved (e : EnemyPlane.t) (delta : R) (g : t) (h : Host)
  : EnemyPlane.t :=
  fst (EnemyPlane.update (Some (Player.position (player g))) delta e h).

Definition synced (e : EnemyPlane.t) : EnemyPlane.t :=
  e <| EnemyPlane.mesh ::= fun m =>
         m <| EnemyPlane.meshPosition := EnemyPlane.position e |> |>.

Lemma visitEnemy_eq i e delta g h :
  visitEnemy i e delta g h
  = let e1 := synced (moved e delta g h) in
    let h1 := snd (EnemyPlane.update
                     (Some (Player.position (player g))) delta e h) in
    let g1 := g <| enemies ::= replaceAt i e1 |> in
    if Z.leb (EnemyPlane.health e1) 0
    then handleEnemyDestruction e1 i g1 h1
    else checkBulletHits i g1 h1.
Proof.
  unfold visitEnemy, bind, moved, synced.
  destruct (EnemyPlane.update _ delta e h) as [e1 h1]. cbn [fst snd].
  cbv zeta.
  match goal with
  | |- context [if ?c then _ else _] => destruct c
  end; reflexivity.
Qed.

Lemma synced_moved_core e delta g h :
  EnemyPlane.eid (synced (moved e delta g h)) = EnemyPlane.eid e
  /\ EnemyPlane.health (synced (moved e delta g h)) = EnemyPlane.health e
  /\ EnemyPlane.position (synced (moved e delta g h))
     = EnemyPlane.position (moved e delta g h).
Proof.
  destruct (EnemyPlaneSpec.update_core
              (Some (Player.position (player g))) delta e h)
    as (H1 & H2 & _).
  unfold synced, moved; cbn. auto.
Qed.






(* ================================================================= *)
(** ** Game: an enemy is destroyed exactly once *)

(** The identities in the array are distinct and older than the next one
    to be given out. *)
Definition wellFormedIds (g : t) : Prop :=
  NoDup (map EnemyPlane.eid (enemies g))
  /\ Forall (fun id => (id < nextEnemyId g)%nat)
            (map EnemyPlane.eid (enemies g)).



(** A count that neither hit indicators nor released birds enter. *)
Definition quiet (f : Event -> bool) : Prop :=
  f HitIndicatorCreated = false /\ forall n, f (BirdsReleased n) = false.

(** What a visit can do to the enemy between [pre] and [rest]: it stays
    where it is, hit or not, and nothing that counts is shown; *)
Definition kept (pre rest : list EnemyPlane.t) (id : nat) (g g1 : t)
  : Prop :=
  (exists e1, enemies g1 = pre ++ e1 :: rest /\ EnemyPlane.eid e1 = id)
  /\ nextEnemyId g1 = nextEnemyId g
  /\ forall f, quiet f -> count f (log g1) = count f (log g).

























(** A game whose one enemy has no health left. *)
Definition gameWithWreck : t :=
  sampleGame
    <| enemies := [EnemyPlaneSpec.sampleEnemy <| EnemyPlane.health := 0%Z |>] |>
    <| nextEnemyId := 1%nat |>.

(* ================================================================= *)
(** ** Game: the rescued-bird counter and the victory *)




Lemma updateEffects_only g h :
  exists efs, fst (updateEffects g h) = g <| effectsToUpdate := efs |>.
Proof.
  unfold updateEffects, bind, ret. cbv zeta.
  destruct (updateEffectsLoop _ _ h) as [efs h1].
  exists efs. reflexivity.
Qed.

Lemma createExplosion_spec g h :
  fst (createExplosion g h)
  = emit ExplosionCreated
         (g <| effectsToUpdate ::= fun l =>
                 l ++ [mkEffect explosion (nextNow h)] |>)
  /\ snd (createExplosion g h) = afterExplosion h.
Proof. rewrite createExplosion_eq. split; reflexivity. Qed.

Lemma crash_spec why g h :
  fst (crash why g h)
  = emit (GameOverScreen why)
         (emit ExplosionCreated
               (g <| effectsToUpdate ::= fun l =>
                       l ++ [mkEffect explosion (nextNow h)] |>)
            <| gameOver := true |>)
  /\ snd (crash why g h) = afterExplosion h.
Proof.
  unfold crash, bind. rewrite createExplosion_eq. split; reflexivity.
Qed.


Lemma checkTerrainCollisions_cases g h :
  checkTerrainCollisions g h = (g, h)
  \/ exists why, checkTerrainCollisions g h = crash why g h.
Proof.
  unfold checkTerrainCollisions. cbv zeta.
  destruct (JS.lt _ 5 && _ && _); [right; eexists; reflexivity|].
  destruct (existsb _ (mountains g)); [right; eexists; reflexivity|].
  destruct (existsb _ (trees g)); [right; eexists; reflexivity|].
  left; reflexivity.
Qed.



Lemma updateBirds_onlyBirds delta g h :
  onlyBirds g (fst (updateBirds delta g h)).
Proof.
  unfold updateBirds.
  destruct (birds g) as [|b bs]; [unfold onlyBirds; cbn; auto 10|].
  unfold bind, ret. cbv zeta.
  destruct (updateBirdsLoop _ _ _ _ h) as [bs' h1].
  unfold onlyBirds; cbn; auto 10.
Qed.


Lemma updateBoundaryEffects_rest g :
  rescuedBirds (updateBoundaryEffects g) = rescuedBirds g
  /\ log (updateBoundaryEffects g) = log g
  /\ gameOver (updateBoundaryEffects g) = gameOver g
  /\ paused (updateBoundaryEffects g) = paused g
  /\ enemies (updateBoundaryEffects g) = enemies g.
Proof.
  unfold updateBoundaryEffects. cbv zeta.
  destruct (Rgt_dec _ World.boundaryWarningRadius); cbn; auto.
Qed.


(** The part of [update] after the two early returns. *)
Definition simulate (delta : R) (g : t) : M t :=
  (p <- Player.update delta (player g) ;;
   let g := g <| player := checkWorldBounds p |> in
   g <- checkTerrainCollisions g ;;
   if Rlt_dec (Vector3.y (Player.position (player g))) (-50) then
     let g := g <| gameOver := true |> in
     g <- createExplosion g ;;
     ret (emit (GameOverScreen planeDestroyed) g)
   else
     g <- updateEnemies delta g ;;
     g <- updateBirds delta g ;;
     ret (updateBoundaryEffects g))%host.

Lemma gameUpdate_eq delta g h :
  update delta g h =
  let (g1, h1) := updateEffects g h in
  if paused g1 || gameOver g1 then (g1, h1)
  else if Z.leb 100 (rescuedBirds g1) then
    (emit VictoryScreen (g1 <| gameOver := true |>), h1)
  else simulate delta g1 h1.
Proof.
  unfold update, simulate, bind.
  destruct (updateEffects g h) as [g1 h1].
  destruct (paused g1 || gameOver g1); [reflexivity|].
  destruct (Z.leb 100 (rescuedBirds g1)); reflexivity.
Qed.






(** The game run for a list of frames, each with the time [clock.getDelta]
    gives it: [requestAnimationFrame] calls [animate] again and again. *)
Fixpoint animateFrames (frames : list R) (g : t) : M t :=
  match frames with
  | [] => ret g
  | elapsed :: rest => (g <- animate elapsed g ;; animateFrames rest g)%host
  end.






(* ================================================================= *)
(** ** Game: a crash in the frame of the hundredth rescue *)

Lemma accelerate_keeps delta p :
  Player.controls (Player.accelerate delta p) = Player.controls p
  /\ Player.bullets (Player.accelerate delta p) = Player.bullets p
  /\ Player.position (Player.accelerate delta p) = Player.position p.
Proof.
  unfold Player.accelerate. cbv zeta.
  destruct (Player.throttleKey (Player.controls _));
    [|destruct (Player.brake (Player.controls _))];
    cbn; split_ifs; auto.
Qed.

Lemma limitSpeed_keeps p :
  Player.controls (Player.limitSpeed p) = Player.controls p
  /\ Player.bullets (Player.limitSpeed p) = Player.bullets p
  /\ Player.position (Player.limitSpeed p) = Player.position p.
Proof. unfold Player.limitSpeed. destruct (Rgt_dec _ _); cbn; auto. Qed.


Lemma steerRotation_keeps delta p :
  Player.controls (Player.steerRotation delta p) = Player.controls p
  /\ Player.bullets (Player.steerRotation delta p) = Player.bullets p
  /\ Player.position (Player.steerRotation delta p) = Player.position p.
Proof. unfold Player.steerRotation. cbv zeta. cbn. split_ifs; auto. Qed.



(** A player gliding level at 20 toward the north, at altitude 50, who
    fired a bullet in the frame before. *)
Definition glidingPlayer : Player.t :=
  PlayerSpec.samplePlayer
    <| Player.position := Vector3.mk 0 50 33.2 |>
    <| Player.velocity := Vector3.mk 0 0 20 |>
    <| Player.speed := 20 |>
    <| Player.isGrounded := false |>
    <| Player.bullets :=
         [Player.mkBullet (Vector3.mk 0 50 36.16) (Vector3.mk 0 0 80) 0] |>
    <| Player.meshPosition := Vector3.mk 0 50 33.2 |>
    <| Player.matrixWorldPosition := Vector3.mk 0 50 33.2 |>.




(** A host whose random numbers are all 0.5 and whose clock stands at 0,
    wherever it has got to in the two sequences. *)
Definition still (h : Host) : Prop :=
  randomSeq h = (fun _ => 0.5) /\ clockSeq h = (fun _ => 0).


Lemma clampAltitude_level e :
  EnemyPlane.minAltitude <= Vector3.y (EnemyPlane.position e)
  <= EnemyPlane.altitudeWarningThreshold ->
  EnemyPlane.position (EnemyPlane.clampAltitude e) = EnemyPlane.position e.
Proof.
  unfold EnemyPlane.clampAltitude, EnemyPlane.minAltitude,
    EnemyPlane.maxAltitude, EnemyPlane.altitudeWarningThreshold,
    JS.lt, JS.gt.
  intros [Hlo Hhi]. cbv zeta.
  destruct (Rlt_dec (Vector3.y (EnemyPlane.position e)) 15) as [H|_];
    [lra|]. cbn [andb].
  destruct (Rgt_dec (Vector3.y (EnemyPlane.position e)) 120) as [H|_];
    [lra|].
  unfold JS.lt.
  destruct (Rlt_dec 110 (Vector3.y (EnemyPlane.position e))) as [H|_];
    [lra|]. reflexivity.
Qed.

(** An enemy that stays between the altitude limits moves one Euler step
    along its heading. *)
Lemma glide_position delta e :
  exists d,
    Vector3.lengthSq d = 1
    /\ let q := Vector3.addScaledVector
                  (EnemyPlane.position e)
                  (Vector3.multiplyScalar
                     d (EnemyPlane.currentSpeed
                          (EnemyPlane.adjustSpeed delta e)))
                  delta in
       (EnemyPlane.minAltitude <= Vector3.y q
        <= EnemyPlane.altitudeWarningThreshold ->
        EnemyPlane.position (EnemyPlaneSpec.glide delta e) = q).
Proof.
  unfold EnemyPlaneSpec.glide, EnemyPlane.syncMesh; cbn.
  set (e1 := EnemyPlane.steer delta e).
  set (cd := Vector3.forwardOfEuler (EnemyPlane.rotation e1)).
  set (e2 := EnemyPlane.bank cd e1).
  set (e3 := EnemyPlane.adjustSpeed delta e2).
  assert (He2 : e2 = e <| EnemyPlane.rotation := EnemyPlane.rotation e2 |>).
  { unfold e2. rewrite EnemyPlaneSpec.bank_only_rotation. unfold e1 at 2.
    rewrite EnemyPlaneSpec.steer_only_rotation. reflexivity. }
  assert (Hcs : EnemyPlane.currentSpeed e3
                = EnemyPlane.currentSpeed (EnemyPlane.adjustSpeed delta e)).
  { unfold e3. rewrite He2.
    unfold EnemyPlane.adjustSpeed, EnemyPlane.targetSpeedOf; cbn.
    split_ifs; reflexivity. }
  assert (Hps : EnemyPlane.position e3 = EnemyPlane.position e).
  { unfold e3. rewrite EnemyPlaneSpec.adjustSpeed_only_currentSpeed.
    rewrite He2. reflexivity. }
  exists cd. split; [apply EnemyPlaneSpec.forwardOfEuler_unit|].
  intros Hlevel. rewrite clampAltitude_level.
  - unfold EnemyPlane.moveForward; cbn. rewrite Hps, Hcs. reflexivity.
  - unfold EnemyPlane.moveForward; cbn. rewrite Hps, Hcs.
    exact Hlevel.
Qed.

(** The enemy in front of the gliding player: the sample enemy, one hit
    from destruction. *)
Definition target : EnemyPlane.t :=
  EnemyPlaneSpec.sampleEnemy
    <| EnemyPlane.position := Vector3.mk 0 50 40 |>
    <| EnemyPlane.health := 25%Z |>
    <| EnemyPlane.mesh ::= fun m =>
         m <| EnemyPlane.meshPosition := Vector3.mk 0 50 40 |> |>.






Lemma lt_true a b : a < b -> JS.lt a b = true.
Proof. intros H. unfold JS.lt. destruct (Rlt_dec a b); [reflexivity|lra]. Qed.

Lemma lt_false a b : b <= a -> JS.lt a b = false.
Proof. intros H. unfold JS.lt. destruct (Rlt_dec a b); [lra|reflexivity]. Qed.


Lemma checkWorldBounds_inside p :
  distance p <= World.worldRadius -> checkWorldBounds p = p.
Proof.
  intros H. unfold checkWorldBounds. cbv zeta. fold (distance p).
  destruct (Rgt_dec (distance p) World.worldRadius); [lra|reflexivity].
Qed.

(** The bullet of the gliding player after the frame's move. *)
Definition bulletInFlight : Player.Bullet :=
  Player.moveBullet
    0.016 (Player.mkBullet (Vector3.mk 0 50 36.16) (Vector3.mk 0 0 80) 0).



(** *** The same bullet and target in a tick of [updateEnemies] *)





(** A game three birds short of victory: the gliding player is about to
    fly into the side of a mountain, and the bullet is about to hit the
    target. *)
Definition doomedGame : t :=
  sampleGame
    <| player := glidingPlayer |>
    <| enemies := [target] |>
    <| mountains := [mkMountain (Vector3.mk 0 0 100) 100] |>
    <| rescuedBirds := 97%Z |>
    <| nextEnemyId := 1%nat |>.

(** At the start of the frame the player is clear of the mountain. *)
Lemma doomedGame_clear h : checkTerrainCollisions doomedGame h = (doomedGame, h).
Proof.
  unfold checkTerrainCollisions. cbv zeta.
  change (Player.position (player doomedGame)) with (Vector3.mk 0 50 33.2).
  cbn [Vector3.x Vector3.y Vector3.z].
  rewrite (lt_false 50 5) by lra. cbn [andb].
  change (mountains doomedGame) with [mkMountain (Vector3.mk 0 0 100) 100].
  change (trees doomedGame) with (@nil Vector3.t).
  cbn [existsb orb].
  unfold hitsMountain. cbv zeta.
  cbn [Vector3.x Vector3.y Vector3.z mountainPosition radius].
  replace ((0 - 0) * (0 - 0) + (33.2 - 100) * (33.2 - 100))
    with (66.8 * 66.8) by lra.
  rewrite sqrt_square by lra.
  rewrite (lt_false 50) by lra. rewrite andb_false_r. reflexivity.
Qed.







End GameSpec.

(* ================================================================= *)
(** ** Game: what [updateEffects] keeps *)

Module EffectSpec.
Import Game JSArray JSArraySpec.

(** What [effect.update] answers when the clock reads [n]. *)
Definition alive (n : R) (ef : Effect) : bool :=
  match kind ef with
  | explosion => JS.lt (n - effectCreatedAt ef) 2
  | hitFlash => JS.lt (n - effectCreatedAt ef) 0.2
  end.

(** The effects from the newest to the oldest, the [k]-th of them checked
    against the [k]-th value of the clock: the ones that stay. *)
Fixpoint sweep (clock : nat -> R) (k : nat) (newestFirst : list Effect)
  : list Effect :=
  match newestFirst with
  | [] => []
  | ef :: older =>
    (if alive (clock k) ef then [ef] else []) ++ sweep clock (S k) older
  end.

(** The host after [m] readings of the clock. *)
Definition afterReadings (m : nat) (h : Host) : Host :=
  mkHost (randomSeq h) (randomIdx h) (clockSeq h) (clockIdx h + m) (timers h).

Lemma afterReadings_0 h : afterReadings 0 h = h.
Proof.
  destruct h. unfold afterReadings; cbn. rewrite Nat.add_0_r. reflexivity.
Qed.

Lemma updateEffectsLoop_sweep pre :
  forall post h,
    updateEffectsLoop (List.length pre) (pre ++ post) h
    = (rev (sweep (clockSeq h) (clockIdx h) (rev pre)) ++ post,
       afterReadings (List.length pre) h).
Proof.
  induction pre as [|ef pre IH] using rev_ind; intros post h.
  - cbn. rewrite afterReadings_0. reflexivity.
  - rewrite length_app, Nat.add_comm. cbn [List.length Nat.add].
    cbn [updateEffectsLoop].
    rewrite <- app_assoc. cbn [app]. rewrite nth_error_middle.
    unfold effectUpdate, bind, now, ret. cbv beta iota zeta.
    fold (alive (clockSeq h (clockIdx h)) ef).
    rewrite rev_app_distr. cbn [rev app sweep].
    set (h1 := mkHost (randomSeq h) (randomIdx h) (clockSeq h)
                      (S (clockIdx h)) (timers h)).
    assert (Hh : afterReadings (List.length pre) h1
                 = afterReadings (S (List.length pre)) h).
    { unfold afterReadings, h1; cbn. f_equal. lia. }
    destruct (alive (clockSeq h (clockIdx h)) ef).
    + rewrite (IH (ef :: post) h1), Hh. cbn [app rev].
      rewrite <- app_assoc. reflexivity.
    + rewrite removeAt_middle, (IH post h1), Hh. reflexivity.
Qed.

Lemma sweep_length clock newestFirst :
  forall k, (List.length (sweep clock k newestFirst)
             <= List.length newestFirst)%nat.
Proof.
  induction newestFirst as [|ef l IH]; intros k; cbn; [lia|].
  rewrite length_app. specialize (IH (S k)).
  destruct (alive (clock k) ef); cbn; lia.
Qed.

Lemma sweep_alive clock newestFirst :
  forall k,
    Forall (fun ef => exists j, (k <= j)%nat /\ alive (clock j) ef = true)
           (sweep clock k newestFirst).
Proof.
  induction newestFirst as [|ef l IH]; intros k; cbn; [constructor|].
  apply Forall_app. split.
  - destruct (alive (clock k) ef) eqn:Ha; constructor; [|constructor].
    exists k. split; [lia|exact Ha].
  - eapply Forall_impl; [|apply (IH (S k))].
    intros a (j & Hj & Ha). exists j. split; [lia|exact Ha].
Qed.

Lemma sweep_incl clock newestFirst :
  forall k, incl (sweep clock k newestFirst) newestFirst.
Proof.
  induction newestFirst as [|ef l IH]; intros k; cbn; [apply incl_refl|].
  apply incl_app.
  - destruct (alive (clock k) ef); [|apply incl_nil_l].
    intros a [Ha|[]]. left; exact Ha.
  - apply incl_tl. apply IH.
Qed.

(** X1: [updateEffects] first drops the oldest effects beyond [maxEffects]
    (30), then walks the rest from the newest to the oldest, reading the
    clock once for each and removing the ones whose time is up.  So the
    list afterwards has at most 30 entries, in their old order, each of
    which was still alive at a clock value read during the call; nothing
    touches the rest of the game, and the clock has been read once for
    every effect that was checked. *)
Theorem effects_after_updateEffects (g : t) (h : Host) :
  let efs := effectsToUpdate g in
  let capped := skipn (List.length efs - World.maxEffects) efs in
  let g' := fst (updateEffects g h) in
  g' = g <| effectsToUpdate :=
            rev (sweep (clockSeq h) (clockIdx h) (rev capped)) |>
  /\ snd (updateEffects g h) = afterReadings (List.length capped) h
  /\ (List.length (effectsToUpdate g') <= World.maxEffects)%nat
  /\ incl (effectsToUpdate g') efs
  /\ Forall (fun ef => exists j, (clockIdx h <= j)%nat
                                 /\ alive (clockSeq h j) ef = true)
            (effectsToUpdate g').
Proof.
  cbv zeta.
  set (efs := effectsToUpdate g).
  set (capped := skipn (List.length efs - World.maxEffects) efs).
  assert (Hcap : (if Nat.ltb World.maxEffects (List.length efs)
                  then dropFirst (List.length efs - World.maxEffects) efs
                  else efs) = capped).
  { unfold capped, dropFirst.
    destruct (Nat.ltb_spec World.maxEffects (List.length efs)) as [H|H];
      [reflexivity|].
    replace (List.length efs - World.maxEffects)%nat with O by lia.
    reflexivity. }
  assert (Hlen : (List.length capped <= World.maxEffects)%nat).
  { unfold capped. rewrite length_skipn. lia. }
  assert (Hrun : updateEffects g h
                 = (g <| effectsToUpdate :=
                         rev (sweep (clockSeq h) (clockIdx h) (rev capped)) |>,
                    afterReadings (List.length capped) h)).
  { unfold updateEffects, bind, ret. cbv zeta. fold efs. rewrite Hcap.
    pose proof (updateEffectsLoop_sweep capped [] h) as H.
    rewrite !app_nil_r in H. rewrite H. reflexivity. }
  rewrite Hrun. cbn [fst snd].
  split; [reflexivity|]. split; [reflexivity|].
  cbn [effectsToUpdate set set_effectsToUpdate].
  split.
  - rewrite length_rev.
    pose proof (sweep_length (clockSeq h) (rev capped) (clockIdx h)) as H.
    rewrite length_rev in H. lia.
  - split.
    + intros a Ha. apply in_rev in Ha.
      apply (sweep_incl (clockSeq h) (rev capped) (clockIdx h)) in Ha.
      apply in_rev in Ha. unfold capped in Ha.
      rewrite <- (firstn_skipn (List.length efs - World.maxEffects) efs).
      apply in_or_app. right. exact Ha.
    + apply Forall_rev. apply sweep_alive.
Qed.

End EffectSpec.

(* ================================================================= *)
(** ** Bird.js and [updateBirds] *)

Module BirdSpec.
Import Game JSArray JSArraySpec.

(** The speed of a bird over the ground. *)
Definition horizontalSpeed (b : Bird.t) : R :=
  sqrt (Vector3.x (Bird.velocity b) * Vector3.x (Bird.velocity b)
        + Vector3.z (Bird.velocity b) * Vector3.z (Bird.velocity b)).

(** Every random number the host will give is in [0, 1), as
    [Math.random ()] promises. *)
Definition unitRandoms (h : Host) : Prop :=
  forall k, 0 <= randomSeq h k < 1.

Lemma sqrt_le_10 s : 0 <= s <= 100 -> sqrt s <= 10.
Proof.
  intros H. replace 10 with (sqrt (10 * 10)) by (apply sqrt_square; lra).
  apply sqrt_le_1_alt. lra.
Qed.

Lemma update_age delta b h :
  Bird.age (fst (Bird.update delta b h)) = Bird.age b + delta.
Proof.
  unfold Bird.update, bind, random, ret. cbv zeta. cbn [fst snd].
  repeat match goal with
         | |- context [Rlt_dec ?a ?b] => destruct (Rlt_dec a b)
         | |- context [Rgt_dec ?a ?b] => destruct (Rgt_dec a b)
         end; reflexivity.
Qed.

Lemma update_floor delta b h :
  2 <= Vector3.y (Bird.position (fst (Bird.update delta b h))).
Proof.
  unfold Bird.update, bind, random, ret. cbv zeta. cbn [fst snd].
  match goal with
  | |- context [Rlt_dec ?a 2] => destruct (Rlt_dec a 2) as [Hlow|Hhigh]
  end;
    repeat match goal with
           | |- context [Rlt_dec ?a 0.01] => destruct (Rlt_dec a 0.01)
           | |- context [Rgt_dec ?a 10] => destruct (Rgt_dec a 10)
           end; cbn; try (cbn in Hhigh); lra.
Qed.

Lemma scaled_speed vx vz :
  sqrt (vx * vx + vz * vz) > 10 ->
  sqrt (vx * (10 / sqrt (vx * vx + vz * vz))
        * (vx * (10 / sqrt (vx * vx + vz * vz)))
        + vz * (10 / sqrt (vx * vx + vz * vz))
          * (vz * (10 / sqrt (vx * vx + vz * vz)))) <= 10.
Proof.
  set (hs := sqrt (vx * vx + vz * vz)). intros Hfast.
  assert (Hsq : hs * hs = vx * vx + vz * vz)
    by (unfold hs; apply sqrt_sqrt; nra).
  replace (vx * (10 / hs) * (vx * (10 / hs))
           + vz * (10 / hs) * (vz * (10 / hs)))
    with ((vx * vx + vz * vz) * (100 / (hs * hs))) by (field; lra).
  rewrite <- Hsq.
  replace (hs * hs * (100 / (hs * hs))) with 100 by (field; lra).
  apply sqrt_le_10; lra.
Qed.

Lemma update_horizontalSpeed delta b h :
  horizontalSpeed b <= 10 ->
  horizontalSpeed (fst (Bird.update delta b h)) <= 10.
Proof.
  intros Hb. unfold Bird.update, bind, random, ret. cbv zeta. cbn [fst snd].
  match goal with
  | |- context [Rlt_dec ?a 2] => destruct (Rlt_dec a 2) as [Hlow|Hhigh]
  end;
    (match goal with
     | |- context [Rlt_dec ?a 0.01] => destruct (Rlt_dec a 0.01)
     end; [|exact Hb]);
    (match goal with
     | |- context [Rgt_dec ?a 10] => destruct (Rgt_dec a 10) as [Hfast|Hslow]
     end;
     [unfold horizontalSpeed; cbn; cbn in Hfast; apply scaled_speed;
      exact Hfast
     |unfold horizontalSpeed; cbn; cbn in Hslow; lra]).
Qed.

(** X2: [Bird.update] adds [delta] to the age and never leaves the bird
    below altitude 2, and a bird that flies at 10 or less over the ground
    still does afterwards.  A new bird, made with random numbers in
    [0, 1), has age 0, is where it was released, rises at between 5 and 10,
    and flies at 10 or less over the ground. *)
Theorem bird_stays_above_ground_and_slow
        (delta : R) (b : Bird.t) (pos : Vector3.t) (h : Host) :
  let b' := fst (Bird.update delta b h) in
  let b0 := fst (Bird.create pos h) in
  Bird.age b' = Bird.age b + delta
  /\ 2 <= Vector3.y (Bird.position b')
  /\ (horizontalSpeed b <= 10 -> horizontalSpeed b' <= 10)
  /\ (unitRandoms h ->
      Bird.age b0 = 0 /\ Bird.position b0 = pos
      /\ 5 <= Vector3.y (Bird.velocity b0) < 10
      /\ horizontalSpeed b0 <= 10).
Proof.
  cbv zeta.
  split; [apply update_age|].
  split; [apply update_floor|].
  split; [apply update_horizontalSpeed|].
  intros Hr. unfold Bird.create, bind, random, ret. cbn [fst snd].
  unfold horizontalSpeed.
  cbn [Bird.age Bird.position Bird.velocity Vector3.x Vector3.y Vector3.z
       randomSeq randomIdx].
  pose proof (Hr (randomIdx h)) as H1.
  pose proof (Hr (S (randomIdx h))) as H2.
  pose proof (Hr (S (S (randomIdx h)))) as H3.
  split; [reflexivity|]. split; [reflexivity|]. split; [lra|].
  apply sqrt_le_10.
  set (a := (randomSeq h (randomIdx h) - 0.5) * 10).
  set (c := (randomSeq h (S (S (randomIdx h))) - 0.5) * 10).
  assert (Ha : -5 <= a <= 5) by (unfold a; lra).
  assert (Hc : -5 <= c <= 5) by (unfold c; lra).
  assert (0 <= a * a <= 25) by nra.
  assert (0 <= c * c <= 25) by nra.
  lra.
Qed.

Lemma bird_stays_above_ground_and_slow_witness :
  let b0 := fst (Bird.create (Vector3.mk 0 50 0) EnemyPlaneSpec.sampleHost) in
  Bird.age b0 = 0 /\ Bird.position b0 = Vector3.mk 0 50 0
  /\ 5 <= Vector3.y (Bird.velocity b0) < 10
  /\ horizontalSpeed b0 <= 10.
Proof.
  apply (bird_stays_above_ground_and_slow
           0.016 (Bird.mk Vector3.zero Vector3.zero 0) (Vector3.mk 0 50 0)
           EnemyPlaneSpec.sampleHost).
  intros k. cbn. lra.
Defined.

End BirdSpec.

(* ================================================================= *)
(** ** Game: what [updateBirds] keeps *)

Module FlockSpec.
Import Game JSArray JSArraySpec.



Lemma skipn_removeAt {A} k :
  forall l : list A, (k < List.length l)%nat ->
                     skipn k (removeAt k l) = skipn (S k) l.
Proof.
  intros l Hk. unfold removeAt.
  rewrite skipn_app, length_firstn.
  replace (Nat.min k (List.length l)) with k by lia.
  rewrite Nat.sub_diag, skipn_firstn_comm, Nat.sub_diag. reflexivity.
Qed.






End FlockSpec.

(* ================================================================= *)
(** ** Game: the birds a destroyed enemy releases *)

Module RescueSpec.
Import Game JSArray JSArraySpec GameSpec.

Lemma createBirds_length n pos :
  forall g h,
    List.length (birds (fst (createBirds n pos g h)))
    = (List.length (birds g) + n)%nat.
Proof.
  induction n as [|n IH]; intros g h.
  - cbn. lia.
  - cbn [createBirds]. unfold Bird.create, bind, random, ret.
    cbv beta iota zeta. cbn [fst snd].
    rewrite IH. cbn [birds set set_birds]. rewrite length_app. cbn. lia.
Qed.

Lemma createNewEnemy_birds g h :
  birds (fst (createNewEnemy g h)) = birds g.
Proof.
  unfold createNewEnemy. unfold bind at 1 2 3. unfold random at 1 2 3.
  cbn [fst snd randomSeq randomIdx].
  unfold bind.
  destruct (EnemyPlane.create _ _ _) as [enemy h2].
  reflexivity.
Qed.

(** The birds in the air and the counter after [handleEnemyDestruction],
    from the number [n] the code computes. *)
Lemma handleEnemyDestruction_birds enemy index g h :
  let g' := fst (handleEnemyDestruction enemy index g h) in
  let n := birdsToRelease (birdDraw h) (List.length (birds g)) in
  List.length (birds g')
  = (List.length (birds g) + Z.to_nat (Z.max 0 n))%nat
  /\ rescuedBirds g' = (rescuedBirds g + Z.max 0 n)%Z.
Proof.
  intros g' n.
  destruct (handleEnemyDestruction_spec enemy index g h)
    as (newEnemy & released & _ & _ & _ & _ & _ & Hrb & _).
  fold g' n in Hrb.
  split.
  2:{ rewrite Hrb. destruct (Z.ltb_spec 0 n); lia. }
  subst g'.
  unfold handleEnemyDestruction, bind. rewrite createExplosion_eq.
  unfold random, ret, afterExplosion.
  cbv beta iota zeta.
  cbn [fst snd randomSeq randomIdx clockSeq clockIdx timers].
  match goal with
  | |- context [Z.ltb 0 ?x] => replace x with n by reflexivity
  end.
  match goal with
  | |- context [releaseBirds _ _ ?ga] => set (g1 := ga)
  end.
  set (h1 := mkHost _ _ _ _ _).
  assert (Hb1 : birds g1 = birds g) by reflexivity.
  destruct (Z.ltb_spec 0 n) as [Hpos|Hneg].
  - unfold releaseBirds.
    match goal with
    | |- context [createBirds ?k ?pos ?ga h1] =>
      pose proof (createBirds_length k pos ga h1) as Hlen;
      destruct (createBirds k pos ga h1) as [g2 h2]
    end.
    cbn [fst] in Hlen. rewrite createNewEnemy_birds.
    cbn [birds emit set set_log set_enemies].
    rewrite Hlen. cbn [birds emit set set_log set_rescuedBirds].
    rewrite Hb1. f_equal. lia.
  - rewrite createNewEnemy_birds.
    cbn [birds emit set set_log set_enemies].
    rewrite Hb1. replace (Z.max 0 n) with 0%Z by lia. cbn. lia.
Qed.

Lemma birdsToRelease_range r flying :
  (birdsToRelease r flying <= 4)%Z
  /\ (birdsToRelease r flying
      <= Z.max 0 (Z.of_nat World.maxBirds - Z.of_nat flying))%Z
  /\ (0 <= r < 1 ->
      (flying + 4 <= World.maxBirds)%nat ->
      (2 <= birdsToRelease r flying)%Z).
Proof.
  unfold birdsToRelease. split; [lia|]. split; [lia|].
  intros Hr Hfree.
  assert (0 <= Zfloor (r * 3))%Z by (apply Zfloor_lub; cbn; lra).
  lia.
Qed.

(** X4: [handleEnemyDestruction] releases between 0 and 4 birds, and never
    more than the free places under [maxBirds] (20): a flock of at most 20
    stays at most 20.  The rescue counter goes up by exactly the number of
    birds added.  When the number drawn for the birds (the first after
    those of the explosion) is in [0, 1) and four places are free, at least
    2 birds are released. *)
Theorem birds_released_by_destruction
        (enemy : EnemyPlane.t) (index : nat) (g : t) (h : Host) :
  let g' := fst (handleEnemyDestruction enemy index g h) in
  let before := List.length (birds g) in
  let after := List.length (birds g') in
  (before <= after <= before + 4)%nat
  /\ rescuedBirds g' = (rescuedBirds g + Z.of_nat (after - before))%Z
  /\ ((before <= World.maxBirds)%nat -> (after <= World.maxBirds)%nat)
  /\ (0 <= birdDraw h < 1 ->
      (before + 4 <= World.maxBirds)%nat ->
      (before + 2 <= after)%nat).
Proof.
  cbv zeta.
  pose proof (handleEnemyDestruction_birds enemy index g h) as H.
  cbv zeta in H. destruct H as [Hlen Hrb].
  destruct (birdsToRelease_range (birdDraw h) (List.length (birds g)))
    as (R1 & R2 & R3).
  set (n := birdsToRelease _ _) in *.
  rewrite Hlen, Hrb. unfold World.maxBirds in *.
  split; [lia|]. split; [lia|]. split; [lia|].
  intros Hr Hfree. specialize (R3 Hr Hfree). lia.
Qed.

Lemma birds_released_by_destruction_witness :
  let g' := fst (handleEnemyDestruction
                   (EnemyPlaneSpec.sampleEnemy <| EnemyPlane.health := 0%Z |>)
                   0 gameWithWreck EnemyPlaneSpec.sampleHost) in
  (List.length (birds gameWithWreck) + 2 <= List.length (birds g'))%nat.
Proof.
  apply (birds_released_by_destruction
           (EnemyPlaneSpec.sampleEnemy <| EnemyPlane.health := 0%Z |>)
           0 gameWithWreck EnemyPlaneSpec.sampleHost).
  - cbn. lra.
  - unfold World.maxBirds. cbn. lia.
Defined.

End RescueSpec.

(* ================================================================= *)
(** ** Game: where a new enemy appears *)

Module SpawnSpec.
Import Game JSArray JSArraySpec GameSpec.

Lemma polar_distance a d :
  0 <= d ->
  sqrt (sin a * d * (sin a * d) + cos a * d * (cos a * d)) = d.
Proof.
  intros Hd.
  replace (sin a * d * (sin a * d) + cos a * d * (cos a * d))
    with (d * d * ((sin a)² + (cos a)²)) by (unfold Rsqr; ring).
  rewrite sin2_cos2, Rmult_1_r. apply sqrt_square. exact Hd.
Qed.

(** The enemy [createNewEnemy] makes: three numbers place it, and the
    constructor draws its own from there on. *)
Lemma createNewEnemy_enemy g h :
  BirdSpec.unitRandoms h ->
  let i := randomIdx h in
  let angle := randomSeq h i * PI * 2 in
  let distance := 50 + randomSeq h (S i) * 100 in
  let pos := Vector3.mk (sin angle * distance)
                        (30 + randomSeq h (S (S i)) * 70)
                        (cos angle * distance) in
  createNewEnemy g h
  = (let (enemy, h') :=
         EnemyPlane.create
           (nextEnemyId g) pos
           (mkHost (randomSeq h) (S (S (S i))) (clockSeq h) (clockIdx h)
                   (timers h)) in
     (emit (EnemyCreated (nextEnemyId g))
           (g <| enemies ::= fun l => l ++ [enemy] |>
              <| nextEnemyId ::= S |>), h')).
Proof.
  intros Hr i angle distance pos.
  unfold createNewEnemy. unfold bind at 1 2 3. unfold random at 1 2 3.
  cbn [fst snd randomSeq randomIdx clockSeq clockIdx timers].
  fold i. fold angle. fold distance.
  rewrite (polar_distance angle distance)
    by (pose proof (Hr (S i)); unfold distance; lra).
  destruct (Rgt_dec distance (World.worldRadius * 0.9)) as [Hfar|_].
  { pose proof (Hr (S i)). unfold distance, World.worldRadius in Hfar. lra. }
  unfold bind. fold pos.
  destruct (EnemyPlane.create _ pos _) as [enemy h']. reflexivity.
Qed.

(** The constructor, with the random numbers it draws written out. *)
Lemma create_fields id pos h :
  let e := fst (EnemyPlane.create id pos h) in
  EnemyPlane.eid e = id
  /\ EnemyPlane.position e = pos
  /\ EnemyPlane.health e = 150%Z
  /\ EnemyPlane.speed e = 8.32 + randomSeq h (S (randomIdx h)) * 6.24
  /\ EnemyPlane.currentSpeed e = EnemyPlane.speed e * 0.5
  /\ EnemyPlane.velocity e = Vector3.zero
  /\ EnemyPlane.isEvading e = false
  /\ EnemyPlane.isDiving e = false
  /\ EnemyPlane.isRolling e = false.
Proof.
  cbv zeta. repeat split; reflexivity.
Qed.

(** X5: with random numbers in [0, 1), [createNewEnemy] appends exactly one
    enemy, with a new identity, between 50 and 150 from the world centre
    and between altitude 30 and 100; the branch that would move it inward
    is never taken.  The constructor gives it health 150, a configured
    speed between 8.32 and 14.56, half of that as its flying speed, no
    velocity yet and no maneuver in progress. *)
Theorem new_enemy_spawns_near_the_runway (g : t) (h : Host) :
  BirdSpec.unitRandoms h ->
  exists e,
    enemies (fst (createNewEnemy g h)) = enemies g ++ [e]
    /\ EnemyPlane.eid e = nextEnemyId g
    /\ 50 <= Vector3.distanceFromCenter (EnemyPlane.position e) < 150
    /\ 30 <= Vector3.y (EnemyPlane.position e) < 100
    /\ EnemyPlane.health e = 150%Z
    /\ 8.32 <= EnemyPlane.speed e < 14.56
    /\ EnemyPlane.currentSpeed e = EnemyPlane.speed e * 0.5
    /\ EnemyPlane.velocity e = Vector3.zero
    /\ EnemyPlane.isEvading e = false
    /\ EnemyPlane.isDiving e = false
    /\ EnemyPlane.isRolling e = false.
Proof.
  intros Hr. rewrite (createNewEnemy_enemy g h Hr). cbv zeta.
  set (i := randomIdx h).
  set (angle := randomSeq h i * PI * 2).
  set (distance := 50 + randomSeq h (S i) * 100).
  assert (Hd : 50 <= distance < 150)
    by (pose proof (Hr (S i)); unfold distance; lra).
  match goal with
  | |- context [EnemyPlane.create ?id ?p ?h1] =>
    pose proof (create_fields id p h1) as Hc;
    destruct (EnemyPlane.create id p h1) as [e h']
  end.
  cbv zeta in Hc. cbn [fst randomSeq randomIdx] in Hc.
  destruct Hc as (C1 & C2 & C3 & C4 & C5 & C6 & C7 & C8 & C9).
  exists e. split; [reflexivity|].
  rewrite C1, C2, C3, C4, C5, C6, C7, C8, C9.
  unfold Vector3.distanceFromCenter. cbn [Vector3.x Vector3.y Vector3.z].
  rewrite (polar_distance angle distance) by lra.
  pose proof (Hr (S (S i))). pose proof (Hr (S (S (S (S i))))).
  repeat split; try reflexivity; lra.
Qed.

Lemma new_enemy_spawns_near_the_runway_witness :
  exists e,
    enemies (fst (createNewEnemy sampleGame EnemyPlaneSpec.sampleHost))
    = enemies sampleGame ++ [e]
    /\ EnemyPlane.eid e = nextEnemyId sampleGame
    /\ 50 <= Vector3.distanceFromCenter (EnemyPlane.position e) < 150
    /\ 30 <= Vector3.y (EnemyPlane.position e) < 100
    /\ EnemyPlane.health e = 150%Z
    /\ 8.32 <= EnemyPlane.speed e < 14.56
    /\ EnemyPlane.currentSpeed e = EnemyPlane.speed e * 0.5
    /\ EnemyPlane.velocity e = Vector3.zero
    /\ EnemyPlane.isEvading e = false
    /\ EnemyPlane.isDiving e = false
    /\ EnemyPlane.isRolling e = false.
Proof.
  apply (new_enemy_spawns_near_the_runway sampleGame EnemyPlaneSpec.sampleHost).
  intros k. cbn. lra.
Defined.

End SpawnSpec.

(* ================================================================= *)
(** ** Game: crashing into the terrain *)

Module TerrainSpec.
Import Game JSArray JSArraySpec GameSpec.

Lemma hitsMountain_high playerPos m :
  150 <= Vector3.y playerPos -> hitsMountain playerPos m = false.
Proof.
  intros Hy. unfold hitsMountain. cbv zeta.
  set (hd := sqrt _).
  assert (Hhd : 0 <= hd) by apply sqrt_pos.
  unfold JS.lt.
  destruct (Rlt_dec hd (radius m)) as [Hin|Hout]; [|reflexivity].
  cbn [andb].
  destruct (Rlt_dec _ _) as [Hlow|_]; [|reflexivity].
  exfalso.
  assert (Hr : 0 < radius m) by lra.
  assert (0 <= hd / radius m).
  { apply Rmult_le_pos; [exact Hhd|].
    apply Rlt_le, Rinv_0_lt_compat. exact Hr. }
  lra.
Qed.

Lemma hitsTree_high playerPos treePos :
  15 <= Vector3.y playerPos -> hitsTree playerPos treePos = false.
Proof.
  intros Hy. unfold hitsTree. cbv zeta.
  rewrite (GameSpec.lt_false (Vector3.y playerPos) 15) by lra.
  apply andb_false_r.
Qed.

Lemma existsb_all_false {A} (f : A -> bool) l :
  (forall a, f a = false) -> existsb f l = false.
Proof.
  intros H. induction l as [|a l IH]; cbn; [reflexivity|].
  rewrite H, IH. reflexivity.
Qed.

(** X6: [checkTerrainCollisions] either changes nothing or ends the game:
    it then sets [gameOver] and shows exactly one explosion and one
    game-over screen, and leaves the player and the rescue counter as they
    are.  At altitude 150 or more nothing is ever hit, whatever mountains
    and trees there are.  Below altitude 2 and off the runway the plane
    always crashes into the ground. *)
Theorem terrain_collision_outcomes (g : t) (h : Host) :
  let pos := Player.position (player g) in
  let g' := fst (checkTerrainCollisions g h) in
  (checkTerrainCollisions g h = (g, h)
   \/ exists why,
       gameOver g' = true
       /\ log g' = log g ++ [ExplosionCreated; GameOverScreen why]
       /\ player g' = player g
       /\ rescuedBirds g' = rescuedBirds g)
  /\ (150 <= Vector3.y pos -> checkTerrainCollisions g h = (g, h))
  /\ (Vector3.y pos < 2 ->
      isPositionOverRunway (Vector3.x pos) (Vector3.z pos) = false ->
      checkTerrainCollisions g h = crash crashedIntoGround g h).
Proof.
  cbv zeta. split; [|split].
  - destruct (checkTerrainCollisions_cases g h) as [E|[why E]];
      [left; exact E|right]. rewrite E.
    exists why. rewrite (proj1 (crash_spec why g h)).
    unfold emit; cbn. rewrite <- app_assoc. auto.
  - intros Hy. unfold checkTerrainCollisions. cbv zeta.
    rewrite (GameSpec.lt_false _ 5) by lra. cbn [andb].
    rewrite (existsb_all_false (hitsMountain _))
      by (intros m; apply hitsMountain_high; exact Hy).
    rewrite (existsb_all_false (hitsTree _))
      by (intros tr; apply hitsTree_high; lra).
    reflexivity.
  - intros Hy Hoff. unfold checkTerrainCollisions. cbv zeta.
    rewrite Hoff, (GameSpec.lt_true _ 5), (GameSpec.lt_true _ 2) by lra.
    reflexivity.
Qed.

Lemma terrain_collision_outcomes_witness :
  let g := doomedGame in
  checkTerrainCollisions
    (g <| player ::= fun p =>
            p <| Player.position := Vector3.mk 0 200 33.2 |> |>)
    EnemyPlaneSpec.sampleHost
  = (g <| player ::= fun p =>
            p <| Player.position := Vector3.mk 0 200 33.2 |> |>,
     EnemyPlaneSpec.sampleHost).
Proof.
  cbv zeta.
  pose proof (terrain_collision_outcomes
                (doomedGame <| player ::= fun p =>
                                 p <| Player.position :=
                                        Vector3.mk 0 200 33.2 |> |>)
                EnemyPlaneSpec.sampleHost) as H.
  cbv zeta in H. destruct H as (_ & Hhigh & _).
  apply Hhigh.
  change (150 <= 200). lra.
Defined.

End TerrainSpec.

(* ================================================================= *)
(** ** Game: the bullets that hit *)

Module HitSpec.
Import Game JSArray JSArraySpec GameSpec.

(** The bullets that miss an enemy. *)
Definition missing (e : EnemyPlane.t) (bs : list Player.Bullet)
  : list Player.Bullet :=
  filter (fun b => negb (bulletNear b e)) bs.

Lemma missing_position e e' bs :
  EnemyPlane.position e' = EnemyPlane.position e ->
  missing e' bs = missing e bs.
Proof.
  intros H. unfold missing. apply filter_ext.
  intros b. unfold bulletNear. rewrite H. reflexivity.
Qed.

Lemma missing_length e bs :
  (List.length (missing e bs) + nearCount e bs = List.length bs)%nat.
Proof.
  unfold missing, nearCount.
  induction bs as [|b bs IH]; cbn; [reflexivity|].
  destruct (bulletNear b e); cbn; lia.
Qed.

Lemma nearCount_missing e bs : nearCount e (missing e bs) = 0%nat.
Proof.
  unfold nearCount, missing.
  induction bs as [|b bs IH]; cbn; [reflexivity|].
  destruct (bulletNear b e) eqn:Hn; cbn; [exact IH|].
  rewrite Hn. cbn. exact IH.
Qed.

Lemma skipn_nth {A} k (l : list A) a :
  nth_error l k = Some a -> skipn k l = a :: skipn (S k) l.
Proof.
  revert l. induction k as [|k IH]; intros [|b l] H; cbn in *;
    try discriminate.
  - congruence.
  - apply IH. exact H.
Qed.

(** The player as it was, but for the bullets. *)
Definition onlyBullets (p p' : Player.t) : Prop :=
  p' = p <| Player.bullets := Player.bullets p' |>.

Lemma onlyBullets_refl p : onlyBullets p p.
Proof. destruct p; reflexivity. Qed.

Lemma onlyBullets_trans a b c :
  onlyBullets a b -> onlyBullets b c -> onlyBullets a c.
Proof.
  unfold onlyBullets. intros H1 H2. rewrite H2 at 1. rewrite H1 at 1.
  reflexivity.
Qed.

Lemma checkBulletHitsLoop_bullets j :
  forall i g h e,
    nth_error (enemies g) i = Some e ->
    (j <= List.length (Player.bullets (player g)))%nat ->
    (25 * Z.of_nat (nearCount e (firstn j (Player.bullets (player g))))
     < EnemyPlane.health e)%Z ->
    let g' := fst (checkBulletHitsLoop j i g h) in
    Player.bullets (player g')
    = missing e (firstn j (Player.bullets (player g)))
      ++ skipn j (Player.bullets (player g))
    /\ onlyBullets (player g) (player g').
Proof.
  induction j as [|k IH]; intros i g h e He Hj Hlive g'.
  - subst g'. cbn. split; [reflexivity|apply onlyBullets_refl].
  - destruct (nth_error (Player.bullets (player g)) k) as [b|] eqn:Hb.
    2:{ apply nth_error_None in Hb. lia. }
    assert (Hk : (k < List.length (Player.bullets (player g)))%nat) by lia.
    rewrite (firstn_S_nth k _ b Hb) in Hlive |- *.
    rewrite nearCount_app in Hlive.
    unfold missing at 1. rewrite filter_app. fold (missing e).
    subst g'. rewrite (checkBulletHitsLoop_step k i g h b e Hb He).
    unfold nearCount at 2 in Hlive. cbn [filter] in Hlive |- *.
    destruct (bulletNear b e) eqn:Hnear; cbn [negb List.length] in *.
    + cbv zeta.
      set (h1 := snd (now h)).
      destruct (damage_spec 25 e h1) as (Hid & Hhp & Hps).
      set (e1 := fst (EnemyPlane.damage 25 e h1)) in *.
      set (h2 := snd (EnemyPlane.damage 25 e h1)).
      set (g2 := afterHit i k e1 (nextNow h) g).
      assert (Hlive1 : Z.leb (EnemyPlane.health e1) 0 = false)
        by (apply Z.leb_gt; lia).
      rewrite Hlive1.
      assert (He2 : nth_error (enemies g2) i = Some e1).
      { unfold g2, afterHit, emit; cbn. apply nth_error_replaceAt.
        apply nth_error_Some. congruence. }
      assert (Hb2 : Player.bullets (player g2)
                    = removeAt k (Player.bullets (player g)))
        by reflexivity.
      destruct (IH i g2 h2 e1 He2) as [I1 I2].
      * rewrite Hb2, removeAt_length by exact Hk. lia.
      * rewrite Hb2, firstn_removeAt by lia.
        rewrite (nearCount_position e e1) by exact Hps. lia.
      * rewrite Hb2, firstn_removeAt in I1 by lia.
        rewrite (missing_position e e1) in I1 by exact Hps.
        rewrite FlockSpec.skipn_removeAt in I1 by exact Hk.
        split; [rewrite I1, app_nil_r; reflexivity|].
        eapply onlyBullets_trans; [|exact I2].
        unfold g2, afterHit, emit, onlyBullets; cbn.
        destruct (player g); reflexivity.
    + destruct (IH i g h e He ltac:(lia)) as [I1 I2]; [lia|].
      split; [|exact I2].
      rewrite I1, (skipn_nth k _ b Hb), <- app_assoc. reflexivity.
Qed.

(** X7: when the enemy at index [i] lives through its visit (its health
    is more than 25 for every bullet within the hit radius of where
    [update] has moved it), every bullet that was within the radius is
    gone from the player's list and every other bullet is still there, in
    order; nothing else about the player changes.  A bullet that hits is
    spent: it cannot hit again. *)
Theorem bullets_that_hit_are_spent
        (i : nat) (e : EnemyPlane.t) (delta : R) (g : t) (h : Host) :
  nth_error (enemies g) i = Some e ->
  let target := moved e delta g h in
  let hits := nearCount target (Player.bullets (player g)) in
  let g' := fst (visitEnemy i e delta g h) in
  (25 * Z.of_nat hits < EnemyPlane.health e)%Z ->
  player g'
  = (player g) <| Player.bullets :=
                    missing target (Player.bullets (player g)) |>
  /\ (List.length (Player.bullets (player g')) + hits
      = List.length (Player.bullets (player g)))%nat
  /\ nearCount target (Player.bullets (player g')) = 0%nat.
Proof.
  intros He target hits g' Hlive.
  assert (Hb : Player.bullets (player g')
               = missing target (Player.bullets (player g))
               /\ onlyBullets (player g) (player g')).
  { subst g'. rewrite visitEnemy_eq. cbv zeta.
    destruct (synced_moved_core e delta g h) as (Hid & Hhp & Hps).
    fold target in Hps.
    set (e1 := synced (moved e delta g h)) in *.
    set (h1 := snd _).
    set (g1 := g <| enemies ::= replaceAt i e1 |>).
    assert (Hpos : (0 < EnemyPlane.health e1)%Z) by (subst hits; lia).
    destruct (Z.leb (EnemyPlane.health e1) 0) eqn:Hdead;
      [apply Z.leb_le in Hdead; lia|].
    rewrite checkBulletHits_eq.
    destruct (checkBulletHitsLoop_bullets
                (List.length (Player.bullets (player g1))) i g1 h1 e1)
      as [I1 I2].
    - unfold g1; cbn. apply nth_error_replaceAt.
      apply nth_error_Some. congruence.
    - lia.
    - rewrite firstn_all, (nearCount_position target e1) by exact Hps.
      change (player g1) with (player g). fold hits. lia.
    - rewrite firstn_all, skipn_all, app_nil_r in I1.
      rewrite (missing_position target e1) in I1 by exact Hps.
      split; [exact I1|exact I2]. }
  destruct Hb as [Hb Ho].
  split; [unfold onlyBullets in Ho; rewrite Hb in Ho; exact Ho|].
  rewrite Hb. split.
  - subst hits. apply missing_length.
  - apply nearCount_missing.
Qed.

(** An enemy in front of the bullet, with health for six hits. *)
Definition sturdy : EnemyPlane.t :=
  target <| EnemyPlane.health := 150%Z |>.

(** On a still host it starts no maneuver: its [update] is the pure
    stretch. *)
Lemma sturdy_update player h :
  still h ->
  fst (EnemyPlane.update player 0.016 sturdy h)
  = EnemyPlaneSpec.glide 0.016 sturdy.
Proof.
  intros [Hr Hc]. destruct h as [rs ri cs ci tm]. cbn in Hr, Hc. subst rs cs.
  rewrite EnemyPlaneSpec.update_eq.
  rewrite EnemyPlaneSpec.wrapBoundary_inside.
  2:{ unfold Vector3.distanceFromCenter; cbn.
      replace (0 * 0 + 40 * 40) with (40 * 40) by ring.
      rewrite sqrt_square by lra. unfold World.worldRadius; lra. }
  unfold EnemyPlane.retarget; run_host.
  destruct (Rgt_dec _ _); [lra|].
  unfold EnemyPlane.handleSpecialManeuvers; cbn.
  unfold EnemyPlane.maybeStartSpecialManeuver.
  destruct (EnemyPlaneSpec.glide_flags 0.016 sturdy) as (F1 & F2 & F3).
  destruct (EnemyPlane.isEvading (EnemyPlaneSpec.glide 0.016 sturdy));
    [discriminate (F1 eq_refl)|].
  destruct (EnemyPlane.isDiving (EnemyPlaneSpec.glide 0.016 sturdy));
    [discriminate (F2 eq_refl)|].
  destruct (EnemyPlane.isRolling (EnemyPlaneSpec.glide 0.016 sturdy));
    [discriminate (F3 eq_refl)|].
  cbn. destruct (Rlt_dec 0.5 0.01); [lra|].
  reflexivity.
Qed.

(** Where it is after the frame: within 0.17 of where it was. *)
Lemma sturdy_glide :
  exists dx dy dz,
    EnemyPlane.position (EnemyPlaneSpec.glide 0.016 sturdy)
    = Vector3.mk (0 + dx) (50 + dy) (40 + dz)
    /\ -0.17 <= dx <= 0.17 /\ -0.17 <= dy <= 0.17 /\ -0.17 <= dz <= 0.17.
Proof.
  destruct (glide_position 0.016 sturdy) as (d & Hd & Hq).
  assert (Hcs : EnemyPlane.currentSpeed (EnemyPlane.adjustSpeed 0.016 sturdy)
                = 10.008).
  { unfold EnemyPlane.adjustSpeed, EnemyPlane.targetSpeedOf,
      EnemyPlane.speedChangeRate; cbn.
    destruct (Rlt_dec _ _); [|lra]. cbn.
    unfold Rmin. destruct (Rle_dec _ _); lra. }
  rewrite Hcs in Hq. cbv zeta in Hq.
  unfold Vector3.lengthSq in Hd.
  assert (Hx : -1 <= Vector3.x d <= 1) by nra.
  assert (Hy : -1 <= Vector3.y d <= 1) by nra.
  assert (Hz : -1 <= Vector3.z d <= 1) by nra.
  exists (Vector3.x d * 10.008 * 0.016), (Vector3.y d * 10.008 * 0.016),
    (Vector3.z d * 10.008 * 0.016).
  split; [|lra].
  rewrite Hq; [reflexivity|].
  unfold EnemyPlane.minAltitude, EnemyPlane.altitudeWarningThreshold; cbn.
  lra.
Qed.

(** A bullet that passes far to the side. *)
Definition strayBullet : Player.Bullet :=
  Player.mkBullet (Vector3.mk 100 50 40) (Vector3.mk 0 0 80) 0.

Lemma sturdy_bullets :
  bulletNear bulletInFlight (EnemyPlaneSpec.glide 0.016 sturdy) = true
  /\ bulletNear strayBullet (EnemyPlaneSpec.glide 0.016 sturdy) = false.
Proof.
  destruct sturdy_glide as (dx & dy & dz & Hp & Hx & Hy & Hz).
  unfold bulletNear. rewrite Hp. cbv zeta. split.
  - apply lt_true.
    unfold bulletInFlight, Player.moveBullet, Vector3.addScaledVector,
      enemyRadius.
    cbn [Player.bulletPosition Player.bulletVelocity
         Vector3.x Vector3.y Vector3.z].
    nra.
  - apply lt_false.
    unfold strayBullet, enemyRadius.
    cbn [Player.bulletPosition Vector3.x Vector3.y Vector3.z].
    nra.
Qed.

(** A game in which one bullet of two is about to hit the only enemy. *)
Definition skirmish : t :=
  sampleGame
    <| player := PlayerSpec.samplePlayer
                   <| Player.bullets := [strayBullet; bulletInFlight] |> |>
    <| enemies := [sturdy] |>
    <| nextEnemyId := 1%nat |>.

Lemma bullets_that_hit_are_spent_witness :
  let g' := fst (visitEnemy 0 sturdy 0.016 skirmish
                            EnemyPlaneSpec.sampleHost) in
  nearCount (moved sturdy 0.016 skirmish EnemyPlaneSpec.sampleHost)
            (Player.bullets (player skirmish)) = 1%nat
  /\ Player.bullets (player g') = [strayBullet].
Proof.
  cbv zeta.
  assert (Hm : moved sturdy 0.016 skirmish EnemyPlaneSpec.sampleHost
               = EnemyPlaneSpec.glide 0.016 sturdy).
  { unfold moved. apply sturdy_update. split; reflexivity. }
  destruct sturdy_bullets as [Hnear Hfar].
  assert (Hhit : nearCount
                   (moved sturdy 0.016 skirmish EnemyPlaneSpec.sampleHost)
                   (Player.bullets (player skirmish)) = 1%nat).
  { rewrite Hm.
    change (Player.bullets (player skirmish))
      with [strayBullet; bulletInFlight].
    unfold nearCount. cbn [filter]. rewrite Hfar, Hnear. reflexivity. }
  split; [exact Hhit|].
  pose proof (bullets_that_hit_are_spent
                0 sturdy 0.016 skirmish EnemyPlaneSpec.sampleHost eq_refl)
    as H.
  cbv zeta in H. rewrite Hhit in H.
  destruct H as (Hp & _).
  { change (EnemyPlane.health sturdy) with 150%Z. lia. }
  rewrite Hp, Hm.
  change (Player.bullets (player skirmish))
    with [strayBullet; bulletInFlight].
  unfold missing. cbn [Player.bullets set Player.set_bullets filter].
  rewrite Hfar, Hnear. reflexivity.
Defined.

End HitSpec.

(* ================================================================= *)
(** ** Game: the boundary warning *)

Module BoundarySpec.
Import Game JSArray JSArraySpec GameSpec.

Lemma safetyTeleport_near p :
  distance p <= World.worldRadius * 1.1 -> safetyTeleport p = p.
Proof.
  intros H. unfold safetyTeleport. cbv zeta. fold (distance p).
  destruct (Rgt_dec (distance p) (World.worldRadius * 1.1));
    [lra|reflexivity].
Qed.

(** X8: after [updateBoundaryEffects] the boundary warning is on exactly
    when the player was more than [boundaryWarningRadius] (675) from the
    world centre, also when the safety net has just put the player back at
    676.  A player within 675 is not touched by the boundary code at all:
    neither [checkWorldBounds] nor [updateBoundaryEffects] changes it. *)
Theorem boundary_warning_follows_distance (g : t) :
  (boundaryWarningActive (updateBoundaryEffects g) = true
   <-> distance (player g) > World.boundaryWarningRadius)
  /\ (distance (player g) <= World.boundaryWarningRadius ->
      checkWorldBounds (player g) = player g
      /\ player (updateBoundaryEffects g) = player g).
Proof.
  assert (Hin : distance (player g) <= World.boundaryWarningRadius ->
                updateBoundaryEffects g
                = g <| player := player g |>
                    <| boundaryWarningActive := false |>).
  { intros H. unfold updateBoundaryEffects. cbv zeta.
    rewrite safetyTeleport_near
      by (unfold World.boundaryWarningRadius, World.worldRadius in *; lra).
    fold (distance (player g)).
    destruct (Rgt_dec (distance (player g)) World.boundaryWarningRadius);
      [lra|reflexivity]. }
  assert (Hout : distance (player g) > World.boundaryWarningRadius ->
                 boundaryWarningActive (updateBoundaryEffects g) = true).
  { intros H. unfold updateBoundaryEffects. cbv zeta.
    fold (distance (safetyTeleport (player g))).
    assert (Hd : distance (safetyTeleport (player g))
                 > World.boundaryWarningRadius).
    { destruct (Rgt_dec (distance (player g)) (World.worldRadius * 1.1))
        as [Hfar|Hnear].
      - destruct (safetyTeleport_inward (player g) Hfar) as (Hd & _).
        rewrite Hd.
        unfold World.boundaryWarningRadius, World.worldRadius. lra.
      - rewrite safetyTeleport_near by lra. exact H. }
    destruct (Rgt_dec (distance (safetyTeleport (player g)))
                      World.boundaryWarningRadius); [reflexivity|lra]. }
  split; [split|].
  - intros Hon.
    destruct (Rgt_dec (distance (player g)) World.boundaryWarningRadius)
      as [H|H]; [exact H|].
    rewrite Hin in Hon by lra. discriminate.
  - exact Hout.
  - intros H. split.
    + apply checkWorldBounds_inside.
      unfold World.boundaryWarningRadius, World.worldRadius in *. lra.
    + rewrite (Hin H). reflexivity.
Qed.

Lemma boundary_warning_follows_distance_witness :
  boundaryWarningActive
    (updateBoundaryEffects (sampleGame <| player := returningPlayer |>))
  = true.
Proof.
  apply (boundary_warning_follows_distance
           (sampleGame <| player := returningPlayer |>)).
  change (player (sampleGame <| player := returningPlayer |>))
    with returningPlayer.
  rewrite returningPlayer_distance. unfold World.boundaryWarningRadius. lra.
Defined.

End BoundarySpec.

(* ================================================================= *)
(** ** Player: forces, throttle and attitude *)

Module FlightSpec.
Import Player.

Lemma accelerate_applyForce force delta p :
  accelerate delta (applyForce force p) = accelerate delta p.
Proof. reflexivity. Qed.

(** X9: a force handed to [applyForce] before [update] changes nothing:
    [update] clears the acceleration before it uses it, so the player and
    the host end up exactly as without the force.  (The push toward the
    centre that [updateBoundaryEffects] applies near the world boundary is
    such a force.) *)
Theorem applied_force_is_discarded
        (force : Vector3.t) (delta : R) (p : t) (h : Host) :
  update delta (applyForce force p) h = update delta p h.
Proof.
  unfold update, integrateVelocity.
  rewrite accelerate_applyForce. reflexivity.
Qed.

Lemma accelerate_throttle delta p :
  0 <= delta ->
  0 <= throttle p <= 1 ->
  0 <= throttle (accelerate delta p) <= 1.
Proof.
  intros Hd Ht. unfold accelerate. cbv zeta.
  cbn [controls set set_acceleration].
  destruct (throttleKey (controls p));
    [|destruct (brake (controls p))];
    cbn [throttle set set_acceleration set_throttle set_speed
         set_isGrounded set_velocity];
    repeat match goal with
           | |- context [Rgt_dec ?a ?b] => destruct (Rgt_dec a b)
           end;
    cbn [throttle set set_acceleration set_throttle set_speed
         set_isGrounded set_velocity];
    unfold Rmin, Rmax;
    repeat match goal with
           | |- context [Rle_dec ?a ?b] => destruct (Rle_dec a b)
           end; lra.
Qed.

Lemma accelerate_rotation delta p :
  rotation (accelerate delta p) = rotation p
  /\ controls (accelerate delta p) = controls p.
Proof.
  unfold accelerate. cbv zeta.
  destruct (throttleKey (controls _));
    [|destruct (brake (controls _))];
    cbn; split_ifs; auto.
Qed.

Lemma limitSpeed_rest p :
  rotation (limitSpeed p) = rotation p
  /\ controls (limitSpeed p) = controls p
  /\ throttle (limitSpeed p) = throttle p.
Proof. unfold limitSpeed. destruct (Rgt_dec _ _); cbn; auto. Qed.

Lemma integratePosition_rest delta p :
  rotation (integratePosition delta p) = rotation p
  /\ controls (integratePosition delta p) = controls p
  /\ throttle (integratePosition delta p) = throttle p.
Proof.
  unfold integratePosition. cbv zeta.
  destruct (JS.lt _ _ && JS.lt _ _); cbn; auto.
Qed.

Lemma steerRotation_throttle delta p :
  throttle (steerRotation delta p) = throttle p.
Proof. unfold steerRotation. cbv zeta. cbn. split_ifs; auto. Qed.

(** The pitch and the roll within their limits. *)
Definition level (p : t) : Prop :=
  - maxPitch <= Vector3.x (rotation p) <= maxPitch
  /\ - (maxRoll * 0.6) <= Vector3.z (rotation p) <= maxRoll * 0.6.

Lemma steerRotation_level delta p :
  0 <= delta <= 0.1 ->
  level p -> level (steerRotation delta p).
Proof.
  intros Hd [Hp Hr]. unfold level, steerRotation, lerp in *.
  unfold maxPitch, maxRoll, pitchRate, rollRate, stabilizationRate in *.
  pose proof PI_RGT_0 as Hpi.
  cbv zeta.
  destruct (up (controls p)), (down (controls p)),
    (left (controls p)), (right (controls p));
    cbn [negb andb orb controls rotation set set_rotation
         Vector3.x Vector3.y Vector3.z Vector3.set_x Vector3.set_y
         Vector3.set_z speed];
    repeat match goal with
           | |- context [Rgt_dec ?a ?b] => destruct (Rgt_dec a b)
           end;
    cbn [negb andb orb controls rotation set set_rotation
         Vector3.x Vector3.y Vector3.z Vector3.set_x Vector3.set_y
         Vector3.set_z speed];
    unfold Rmin, Rmax;
    repeat match goal with
           | |- context [Rle_dec ?a ?b] => destruct (Rle_dec a b)
           end;
    split; try lra; nra.
Qed.

Lemma syncMesh_rest p :
  throttle (syncMesh p) = throttle p /\ rotation (syncMesh p) = rotation p.
Proof. split; reflexivity. Qed.

Lemma wrapYaw_rest p :
  throttle (wrapYaw p) = throttle p
  /\ Vector3.x (rotation (wrapYaw p)) = Vector3.x (rotation p)
  /\ Vector3.z (rotation (wrapYaw p)) = Vector3.z (rotation p).
Proof. repeat split; reflexivity. Qed.

Lemma shoot_rest p h :
  throttle (fst (shoot p h)) = throttle p
  /\ rotation (fst (shoot p h)) = rotation p.
Proof.
  unfold shoot, bind, now, ret. cbn [fst snd].
  destruct (Rlt_dec _ _); cbn; auto.
Qed.

Lemma updateBullets_rest delta p h :
  throttle (fst (updateBullets delta p h)) = throttle p
  /\ rotation (fst (updateBullets delta p h)) = rotation p.
Proof. split; reflexivity. Qed.

Lemma update_throttle_rotation delta p h :
  throttle (fst (update delta p h)) = throttle (accelerate delta p)
  /\ Vector3.x (rotation (fst (update delta p h)))
     = Vector3.x (rotation (steerRotation
                              delta
                              (integratePosition
                                 delta (integrateVelocity delta p))))
  /\ Vector3.z (rotation (fst (update delta p h)))
     = Vector3.z (rotation (steerRotation
                              delta
                              (integratePosition
                                 delta (integrateVelocity delta p)))).
Proof.
  unfold update. cbv zeta.
  set (q := integratePosition delta (integrateVelocity delta p)).
  assert (Hq : throttle q = throttle (accelerate delta p)).
  { unfold q.
    destruct (integratePosition_rest delta (integrateVelocity delta p))
      as (_ & _ & H1).
    destruct (limitSpeed_rest (accelerate delta p)) as (_ & _ & H2).
    unfold integrateVelocity in *. congruence. }
  set (q2 := syncMesh (updateRotation delta q)).
  assert (Hq2 : throttle q2 = throttle (accelerate delta p)
                /\ Vector3.x (rotation q2)
                   = Vector3.x (rotation (steerRotation delta q))
                /\ Vector3.z (rotation q2)
                   = Vector3.z (rotation (steerRotation delta q))).
  { unfold q2, updateRotation.
    destruct (syncMesh_rest (wrapYaw (steerRotation delta q))) as [S1 S2].
    destruct (wrapYaw_rest (steerRotation delta q)) as (W1 & W2 & W3).
    rewrite S1, S2, W1, W2, W3, steerRotation_throttle. auto. }
  clearbody q2. clearbody q.
  unfold bind.
  destruct (shootKey (controls q2)).
  - destruct (shoot_rest q2 h) as [S1 S2].
    destruct (shoot q2 h) as [q3 h1]. cbn [fst] in S1, S2.
    destruct (updateBullets_rest delta q3 h1) as [U1 U2].
    rewrite U1, U2, S1, S2. exact Hq2.
  - change (ret q2 h) with (q2, h). cbv beta iota.
    destruct (updateBullets_rest delta q2 h) as [U1 U2].
    rewrite U1, U2. exact Hq2.
Qed.

(** X10: for a frame of at most 0.1 s, [update] keeps the throttle between
    0 and 1, the pitch within [maxPitch] (30 degrees) either way, and the
    roll within 60% of [maxRoll] (54 degrees) either way, whatever keys
    are held. *)
Theorem throttle_and_attitude_stay_in_range
        (delta : R) (p : t) (h : Host) :
  0 <= delta <= 0.1 ->
  (0 <= throttle p <= 1 -> 0 <= throttle (fst (update delta p h)) <= 1)
  /\ (level p -> level (fst (update delta p h))).
Proof.
  intros Hd.
  destruct (update_throttle_rotation delta p h) as (Ht & Hx & Hz).
  split.
  - intros H. rewrite Ht. apply accelerate_throttle; [lra|exact H].
  - intros H. unfold level. rewrite Hx, Hz.
    apply steerRotation_level; [exact Hd|].
    unfold level in *.
    destruct (integratePosition_rest delta (integrateVelocity delta p))
      as (H1 & _).
    destruct (limitSpeed_rest (accelerate delta p)) as (H2 & _).
    destruct (accelerate_rotation delta p) as (H3 & _).
    unfold integrateVelocity in *. rewrite H1, H2, H3. exact H.
Qed.

Lemma throttle_and_attitude_stay_in_range_witness :
  level (fst (update 0.016 PlayerSpec.turningRight EnemyPlaneSpec.sampleHost)).
Proof.
  apply (throttle_and_attitude_stay_in_range
           0.016 PlayerSpec.turningRight EnemyPlaneSpec.sampleHost
           ltac:(lra)).
  unfold level, maxPitch, maxRoll. cbn. pose proof PI_RGT_0. lra.
Defined.

End FlightSpec.

(* ================================================================= *)
(** ** Player: firing *)

Module WeaponSpec.
Import Player.

Lemma applyAxisAngle_x_lengthSq v a :
  Vector3.lengthSq (Vector3.applyAxisAngle v (Vector3.mk 1 0 0) a)
  = Vector3.lengthSq v.
Proof.
  unfold Vector3.lengthSq, Vector3.applyAxisAngle, Vector3.cross,
    Vector3.dot; cbn.
  pose proof (sin2_cos2 a) as H. unfold Rsqr in H.
  replace (cos a * cos a) with (1 - sin a * sin a) by lra. ring_simplify.
  nra.
Qed.

Lemma applyAxisAngle_y_lengthSq v a :
  Vector3.lengthSq (Vector3.applyAxisAngle v (Vector3.mk 0 1 0) a)
  = Vector3.lengthSq v.
Proof.
  unfold Vector3.lengthSq, Vector3.applyAxisAngle, Vector3.cross,
    Vector3.dot; cbn.
  pose proof (sin2_cos2 a) as H. unfold Rsqr in H. nra.
Qed.

Lemma applyAxisAngle_z_lengthSq v a :
  Vector3.lengthSq (Vector3.applyAxisAngle v (Vector3.mk 0 0 1) a)
  = Vector3.lengthSq v.
Proof.
  unfold Vector3.lengthSq, Vector3.applyAxisAngle, Vector3.cross,
    Vector3.dot; cbn.
  pose proof (sin2_cos2 a) as H. unfold Rsqr in H. nra.
Qed.

(** Turning a vector by the mesh rotation keeps its length. *)
Lemma applyQuaternion_lengthSq v q :
  Vector3.lengthSq (applyQuaternion v q) = Vector3.lengthSq v.
Proof.
  unfold applyQuaternion.
  rewrite applyAxisAngle_y_lengthSq, applyAxisAngle_x_lengthSq,
    applyAxisAngle_z_lengthSq. reflexivity.
Qed.

Lemma forward_unit q :
  Vector3.lengthSq
    (Vector3.normalize (applyQuaternion (Vector3.mk 0 0 1) q)) = 1.
Proof.
  apply PlayerSpec.normalize_unit.
  unfold Vector3.length. rewrite applyQuaternion_lengthSq.
  unfold Vector3.lengthSq; cbn.
  replace (0 * 0 + 0 * 0 + 1 * 1) with 1 by ring. rewrite sqrt_1. lra.
Qed.

(** The bullet [shoot] makes when the clock reads [n]. *)
Definition newBullet (n : R) (p : t) : Bullet :=
  mkBullet
    (Vector3.add (applyQuaternion (Vector3.mk 0 0 2) (matrixWorldQuaternion p))
                 (matrixWorldPosition p))
    (Vector3.multiplyScalar
       (Vector3.normalize (applyQuaternion (Vector3.mk 0 0 1) (meshQuaternion p)))
       bulletSpeed)
    n.

Lemma shoot_cases p h :
  snd (shoot p h) = snd (now h)
  /\ (nextNow h - lastShotTime p < bulletCooldown -> fst (shoot p h) = p)
  /\ (bulletCooldown <= nextNow h - lastShotTime p ->
      fst (shoot p h)
      = p <| bullets ::= fun bs => bs ++ [newBullet (nextNow h) p] |>
          <| lastShotTime := nextNow h |>).
Proof.
  unfold shoot, bind, now, ret, nextNow. cbn [fst snd].
  destruct (Rlt_dec _ _) as [Hsoon|Hlate]; cbn [fst snd].
  - split; [reflexivity|]. split; [reflexivity|]. intros H. lra.
  - split; [reflexivity|]. split; [intros H; lra|]. reflexivity.
Qed.

(** X11: [shoot] does nothing while less than [bulletCooldown] (0.1 s) has
    passed since the last shot.  Otherwise it appends exactly one bullet:
    created at the time read, starting 2 units in front of the plane as it
    was last drawn, and flying at exactly [bulletSpeed] (80) however the
    plane is turned; and it records the time as the last shot.  Either way
    the clock is read once. *)
Theorem shoot_respects_the_cooldown (p : t) (h : Host) :
  let n := nextNow h in
  let b := newBullet n p in
  snd (shoot p h) = snd (now h)
  /\ (n - lastShotTime p < bulletCooldown -> fst (shoot p h) = p)
  /\ (bulletCooldown <= n - lastShotTime p ->
      bullets (fst (shoot p h)) = bullets p ++ [b]
      /\ lastShotTime (fst (shoot p h)) = n
      /\ createdAt b = n
      /\ Vector3.length (bulletVelocity b) = bulletSpeed
      /\ Vector3.distanceTo (bulletPosition b) (matrixWorldPosition p) = 2).
Proof.
  cbv zeta. destruct (shoot_cases p h) as (H1 & H2 & H3).
  split; [exact H1|]. split; [exact H2|].
  intros Hlate. rewrite (H3 Hlate).
  split; [reflexivity|]. split; [reflexivity|]. split; [reflexivity|].
  split.
  - unfold newBullet; cbn [bulletVelocity].
    rewrite (EnemyPlaneSpec.length_multiplyScalar_unit _ _ (forward_unit _)).
    unfold bulletSpeed. apply Rabs_pos_eq. lra.
  - unfold newBullet; cbn [bulletPosition].
    unfold Vector3.distanceTo, Vector3.length.
    set (v := applyQuaternion (Vector3.mk 0 0 2) (matrixWorldQuaternion p)).
    replace (Vector3.lengthSq
               (Vector3.sub (Vector3.add v (matrixWorldPosition p))
                            (matrixWorldPosition p)))
      with (Vector3.lengthSq v)
      by (unfold Vector3.lengthSq, Vector3.sub, Vector3.add; cbn; ring).
    unfold v. rewrite applyQuaternion_lengthSq.
    unfold Vector3.lengthSq; cbn.
    replace (0 * 0 + 0 * 0 + 2 * 2) with (2 * 2) by ring.
    apply sqrt_square. lra.
Qed.

Lemma shoot_respects_the_cooldown_witness :
  fst (shoot (PlayerSpec.samplePlayer <| lastShotTime := 0 |>)
             EnemyPlaneSpec.sampleHost)
  = PlayerSpec.samplePlayer <| lastShotTime := 0 |>.
Proof.
  apply (shoot_respects_the_cooldown
           (PlayerSpec.samplePlayer <| lastShotTime := 0 |>)
           EnemyPlaneSpec.sampleHost).
  unfold bulletCooldown. cbn. lra.
Defined.

(* ----------------------------------------------------------------- *)

(** Any two bullets of the list were made at least [bulletCooldown]
    apart, the later one later in the list; and none after the last
    shot. *)
Definition apart (a b : Bullet) : Prop :=
  createdAt a + bulletCooldown <= createdAt b.

Definition paced (p : t) : Prop :=
  ForallOrdPairs apart (bullets p)
  /\ Forall (fun b => createdAt b <= lastShotTime p) (bullets p).

Lemma FOP_app_one {A} (R : A -> A -> Prop) l x :
  ForallOrdPairs R l -> Forall (fun a => R a x) l ->
  ForallOrdPairs R (l ++ [x]).
Proof.
  induction 1 as [|a l Ha Hl IH]; intros Hx; cbn.
  - constructor; constructor.
  - inversion Hx; subst. constructor.
    + apply Forall_app. split; [exact Ha|]. constructor; [assumption|constructor].
    + apply IH. assumption.
Qed.

Lemma FOP_filter {A} (R : A -> A -> Prop) f l :
  ForallOrdPairs R l -> ForallOrdPairs R (filter f l).
Proof.
  induction 1 as [|a l Ha Hl IH]; cbn; [constructor|].
  destruct (f a); [|exact IH].
  constructor; [|exact IH].
  rewrite Forall_forall in *. intros x Hx. apply filter_In in Hx.
  apply Ha. tauto.
Qed.

Lemma FOP_skipn {A} (R : A -> A -> Prop) n :
  forall l, ForallOrdPairs R l -> ForallOrdPairs R (skipn n l).
Proof.
  induction n as [|n IH]; intros l H; [exact H|].
  destruct l as [|a l]; [constructor|].
  cbn. apply IH. inversion H; assumption.
Qed.

Lemma FOP_map_moveBullet delta l :
  ForallOrdPairs apart l ->
  ForallOrdPairs apart (map (moveBullet delta) l).
Proof.
  induction 1 as [|a l Ha Hl IH]; cbn; [constructor|].
  constructor; [|exact IH].
  rewrite Forall_forall in *. intros x Hx. apply in_map_iff in Hx.
  destruct Hx as (b & <- & Hb). exact (Ha b Hb).
Qed.

Lemma shoot_paced p h : paced p -> paced (fst (shoot p h)).
Proof.
  intros [Hord Hlast].
  destruct (shoot_cases p h) as (_ & Hsoon & Hlate).
  destruct (Rlt_dec (nextNow h - lastShotTime p) bulletCooldown) as [H|H].
  - rewrite (Hsoon H). split; assumption.
  - rewrite Hlate by lra. unfold paced.
    cbn [bullets lastShotTime set set_bullets set_lastShotTime].
    split.
    + apply FOP_app_one; [exact Hord|].
      eapply Forall_impl; [|exact Hlast].
      intros b Hb. unfold apart, newBullet; cbn. lra.
    + apply Forall_app. split.
      * eapply Forall_impl; [|exact Hlast].
        intros b Hb. cbn in Hb. unfold bulletCooldown in H. lra.
      * constructor; [|constructor]. unfold newBullet; cbn. lra.
Qed.

Lemma updateBullets_paced delta p h :
  paced p -> paced (fst (updateBullets delta p h)).
Proof.
  intros [Hord Hlast]. unfold paced.
  rewrite PlayerSpec.updateBullets_eq. cbv zeta.
  change (lastShotTime (fst (updateBullets delta p h)))
    with (lastShotTime p).
  split.
  - apply FOP_skipn, FOP_filter, FOP_filter, FOP_map_moveBullet. exact Hord.
  - apply PlayerSpec.Forall_skipn.
    rewrite Forall_forall in *. intros b Hb.
    apply filter_In in Hb as [Hb _]. apply filter_In in Hb as [Hb _].
    apply in_map_iff in Hb. destruct Hb as (b0 & <- & Hb0).
    exact (Hlast b0 Hb0).
Qed.

Lemma motion_weapons delta p :
  let q := syncMesh (updateRotation
                       delta (integratePosition
                                delta (integrateVelocity delta p))) in
  bullets q = bullets p /\ lastShotTime q = lastShotTime p.
Proof.
  cbv zeta.
  assert (A : bullets (accelerate delta p) = bullets p
              /\ lastShotTime (accelerate delta p) = lastShotTime p).
  { unfold accelerate. cbv zeta.
    destruct (throttleKey (controls _));
      [|destruct (brake (controls _))];
      cbn; split_ifs; auto. }
  assert (L : forall x, bullets (limitSpeed x) = bullets x
                        /\ lastShotTime (limitSpeed x) = lastShotTime x).
  { intros x. unfold limitSpeed. destruct (Rgt_dec _ _); cbn; auto. }
  assert (I : forall x, bullets (integratePosition delta x) = bullets x
                        /\ lastShotTime (integratePosition delta x)
                           = lastShotTime x).
  { intros x. unfold integratePosition. cbv zeta.
    destruct (JS.lt _ _ && JS.lt _ _); cbn; auto. }
  assert (S : forall x, bullets (steerRotation delta x) = bullets x
                        /\ lastShotTime (steerRotation delta x)
                           = lastShotTime x).
  { intros x. unfold steerRotation. cbv zeta. cbn. split_ifs; auto. }
  unfold integrateVelocity.
  set (x1 := accelerate delta p) in *.
  set (x2 := limitSpeed x1) in *.
  set (x3 := integratePosition delta x2) in *.
  destruct (L x1) as [L1 L2]. fold x2 in L1, L2.
  destruct (I x2) as [I1 I2]. fold x3 in I1, I2.
  destruct (S x3) as [S1 S2].
  destruct A as [A1 A2].
  unfold syncMesh, updateRotation, wrapYaw.
  cbn [bullets lastShotTime set set_meshPosition set_meshQuaternion
       set_rotation].
  split; congruence.
Qed.

(** X12: [update] keeps the bullets paced: if any two bullets of the list
    were made at least [bulletCooldown] (0.1 s) apart, in list order, and
    none after [lastShotTime], the same holds afterwards, whatever the
    clock reads and whether or not the fire key is held; a player with no
    bullets starts that way.  So no two bullets in flight were ever fired
    less than 0.1 s apart. *)
Theorem bullets_stay_paced (delta : R) (p : t) (h : Host) :
  (bullets p = [] -> paced p)
  /\ (paced p -> paced (fst (update delta p h))).
Proof.
  split.
  - intros H. unfold paced. rewrite H. split; constructor.
  - intros Hp. unfold update. cbv zeta.
    pose proof (motion_weapons delta p) as Hm. cbv zeta in Hm.
    set (q := syncMesh _) in *.
    assert (Hq : paced q).
    { unfold paced in *. destruct Hm as [M1 M2]. rewrite M1, M2. exact Hp. }
    clearbody q. unfold bind.
    destruct (shootKey (controls q)).
    + pose proof (shoot_paced q h Hq) as Hs.
      destruct (shoot q h) as [q1 h1]. cbn [fst] in Hs.
      apply updateBullets_paced. exact Hs.
    + change (ret q h) with (q, h). cbv beta iota.
      apply updateBullets_paced. exact Hq.
Qed.

Lemma motion_controls delta p :
  let q := syncMesh (updateRotation
                       delta (integratePosition
                                delta (integrateVelocity delta p))) in
  controls q = controls p.
Proof.
  cbv zeta.
  assert (A : controls (accelerate delta p) = controls p).
  { unfold accelerate. cbv zeta.
    destruct (throttleKey (controls _));
      [|destruct (brake (controls _))];
      cbn; split_ifs; auto. }
  assert (L : forall x, controls (limitSpeed x) = controls x).
  { intros x. unfold limitSpeed. destruct (Rgt_dec _ _); cbn; auto. }
  assert (I : forall x, controls (integratePosition delta x) = controls x).
  { intros x. unfold integratePosition. cbv zeta.
    destruct (JS.lt _ _ && JS.lt _ _); cbn; auto. }
  assert (S : forall x, controls (steerRotation delta x) = controls x).
  { intros x. unfold steerRotation. cbv zeta. cbn. split_ifs; auto. }
  unfold integrateVelocity.
  set (x1 := accelerate delta p) in *.
  set (x2 := limitSpeed x1) in *.
  set (x3 := integratePosition delta x2) in *.
  pose proof (L x1) as L1. fold x2 in L1.
  pose proof (I x2) as I1. fold x3 in I1.
  pose proof (S x3) as S1.
  unfold syncMesh, updateRotation, wrapYaw.
  cbn [controls set set_meshPosition set_meshQuaternion set_rotation].
  congruence.
Qed.

(** With the fire key down and the cooldown over, [update] fires. *)
Lemma update_fires delta p h :
  shootKey (controls p) = true ->
  bulletCooldown <= nextNow h - lastShotTime p ->
  lastShotTime (fst (update delta p h)) = nextNow h.
Proof.
  intros Hkey Hcool. unfold update. cbv zeta.
  pose proof (motion_weapons delta p) as Hm. cbv zeta in Hm.
  pose proof (motion_controls delta p) as Hc. cbv zeta in Hc.
  set (q := syncMesh _) in *. clearbody q.
  destruct Hm as [_ Hl]. rewrite Hc, Hkey. unfold bind.
  destruct (shoot_cases q h) as (_ & _ & Hlate).
  rewrite <- Hl in Hcool. specialize (Hlate Hcool).
  destruct (shoot q h) as [q1 h1]. cbn [fst] in Hlate.
  change (lastShotTime (fst (updateBullets delta q1 h1)))
    with (lastShotTime q1).
  rewrite Hlate. reflexivity.
Qed.

(** A player with two bullets in the air, fired half a second apart, who
    holds the fire key; and a host whose clock reads 2. *)
Definition gunner : t :=
  PlayerSpec.samplePlayer
    <| bullets := [mkBullet (Vector3.mk 0 1 80) (Vector3.mk 0 0 80) 1;
                   mkBullet (Vector3.mk 0 1 40) (Vector3.mk 0 0 80) 1.5] |>
    <| lastShotTime := 1.5 |>
    <| controls := mkControls false false false false false false true |>.

Definition hostAtTwo : Host := mkHost (fun _ => 0.5) 0 (fun _ => 2) 0 [].

Lemma gunner_paced : paced gunner.
Proof.
  unfold paced.
  change (bullets gunner)
    with [mkBullet (Vector3.mk 0 1 80) (Vector3.mk 0 0 80) 1;
          mkBullet (Vector3.mk 0 1 40) (Vector3.mk 0 0 80) 1.5].
  change (lastShotTime gunner) with 1.5.
  split.
  - constructor; [|constructor; [constructor|constructor]].
    constructor; [|constructor].
    unfold apart, bulletCooldown. cbn [createdAt]. lra.
  - constructor; [cbn [createdAt]; lra|].
    constructor; [cbn [createdAt]; lra | constructor].
Qed.

Lemma bullets_stay_paced_witness :
  bullets gunner <> []
  /\ lastShotTime (fst (update 0.016 gunner hostAtTwo)) = 2
  /\ paced (fst (update 0.016 gunner hostAtTwo)).
Proof.
  split; [discriminate|]. split.
  - apply (update_fires 0.016 gunner hostAtTwo); [reflexivity|].
    change (nextNow hostAtTwo) with 2.
    change (lastShotTime gunner) with 1.5.
    unfold bulletCooldown. lra.
  - apply (bullets_stay_paced 0.016 gunner hostAtTwo).
    exact gunner_paced.
Defined.

End WeaponSpec.

(* ================================================================= *)
(** ** Player: the keyboard *)

Module InputSpec.
Import Player String.

(** The keys the handlers know. *)
Definition knownKeys : list string :=
  ["w"; "s"; "a"; "ArrowLeft"; "d"; "ArrowRight"; "ArrowUp"; "ArrowDown";
   " "]%string.

Ltac key_cases key :=
  repeat match goal with
         | |- context [String.eqb key ?k] => destruct (String.eqb key k)
         end; cbn [orb].

Lemma handleKey_unknown key p :
  ~ In key knownKeys -> handleKeyDown key p = p /\ handleKeyUp key p = p.
Proof.
  intros H. unfold handleKeyDown, handleKeyUp.
  repeat match goal with
         | |- context [String.eqb key ?k] =>
           destruct (String.eqb_spec key k) as [->|_];
             [exfalso; apply H; unfold knownKeys; cbn; tauto|]
         end.
  split; reflexivity.
Qed.

(** X13: the key handlers change nothing but [controls].  A key other than
    w, s, a, d, the four arrows and the space bar does nothing; that
    includes the upper-case letters typed with shift or caps lock.
    Pressing a key that is already down changes nothing, and after a
    release the control is off whatever was pressed before.  The keys a
    and ArrowLeft share one control (as d and ArrowRight do), so releasing
    one of them turns the control off while the other is still held. *)
Theorem key_handlers_set_controls (key : string) (p : t) :
  handleKeyDown key p = p <| controls := controls (handleKeyDown key p) |>
  /\ handleKeyUp key p = p <| controls := controls (handleKeyUp key p) |>
  /\ (~ In key knownKeys -> handleKeyDown key p = p /\ handleKeyUp key p = p)
  /\ handleKeyDown key (handleKeyDown key p) = handleKeyDown key p
  /\ handleKeyUp key (handleKeyDown key p) = handleKeyUp key p
  /\ left (controls (handleKeyUp "a" (handleKeyDown "ArrowLeft" p))) = false
  /\ right (controls (handleKeyUp "d" (handleKeyDown "ArrowRight" p))) = false.
Proof.
  split; [|split; [|split; [|split; [|split; [|split]]]]].
  - unfold handleKeyDown. key_cases key; destruct p; reflexivity.
  - unfold handleKeyUp. key_cases key; destruct p; reflexivity.
  - apply handleKey_unknown.
  - unfold handleKeyDown. key_cases key; destruct p; reflexivity.
  - unfold handleKeyDown, handleKeyUp. key_cases key; destruct p; reflexivity.
  - reflexivity.
  - reflexivity.
Qed.

Lemma key_handlers_set_controls_witness :
  handleKeyDown "W" PlayerSpec.samplePlayer = PlayerSpec.samplePlayer
  /\ handleKeyUp "W" PlayerSpec.samplePlayer = PlayerSpec.samplePlayer.
Proof.
  apply (key_handlers_set_controls "W" PlayerSpec.samplePlayer).
  unfold knownKeys. cbn. intros H.
  repeat (destruct H as [H|H]; [discriminate H|]). exact H.
Defined.

End InputSpec.

(* ================================================================= *)
(** ** EnemyPlane: the white flash of a hit *)

Module FlashSpec.
Import EnemyPlane.

Definition white : Z := 16777215.

(** No material carries a remembered colour: no flash is in progress. *)
Definition unflashed (e : t) : Prop :=
  Forall (fun m => originalColor m = None) (materials (mesh e)).

Lemma restore_flash ms :
  Forall (fun m => originalColor m = None) ms ->
  map restoreColor (map flashWhite ms) = ms.
Proof.
  induction 1 as [|m ms Hm _ IH]; cbn; [reflexivity|].
  rewrite IH. destruct m as [c o]; cbn in *. subst o. reflexivity.
Qed.

Lemma restore_flash_flash ms :
  map restoreColor (map restoreColor (map flashWhite (map flashWhite ms)))
  = map (fun _ => mkMaterial white None) ms.
Proof.
  induction ms as [|m ms IH]; cbn; [reflexivity|].
  rewrite IH. reflexivity.
Qed.

Lemma startEvasiveManeuvers_mesh e h :
  mesh (fst (startEvasiveManeuvers e h)) = mesh e
  /\ eid (fst (startEvasiveManeuvers e h)) = eid e
  /\ health (fst (startEvasiveManeuvers e h)) = health e
  /\ timers (snd (startEvasiveManeuvers e h)) = timers h.
Proof.
  unfold startEvasiveManeuvers, bind, random, ret. cbn. auto.
Qed.

(** A hit the enemy lives through: the materials flash, one timer is
    armed. *)
Lemma damage_flash a e h :
  (0 < health e - a)%Z ->
  materials (mesh (fst (damage a e h))) = map flashWhite (materials (mesh e))
  /\ eid (fst (damage a e h)) = eid e
  /\ health (fst (damage a e h)) = (health e - a)%Z
  /\ timers (snd (damage a e h))
     = timers h ++ [(100, RestoreColors (eid e))].
Proof.
  intros Hlive. unfold damage. cbv zeta.
  cbn [health set set_health].
  destruct (Z.ltb_spec 0 (health e - a)) as [_|H]; [|lia].
  unfold bind, setTimeout, random. cbn [fst snd].
  destruct (Rlt_dec _ 0.7).
  - match goal with
    | |- context [startEvasiveManeuvers ?x ?y] =>
      destruct (startEvasiveManeuvers_mesh x y) as (H1 & H2 & H3 & H4)
    end.
    rewrite H1, H2, H3, H4. cbn. auto.
  - unfold ret. cbn. auto.
Qed.

(** X14: a hit that leaves the enemy alive turns every material white,
    remembering its colour, and arms one timer of 100 ms.  When that timer
    fires on an enemy that was not already flashing, every material has its
    old colour again and remembers nothing.  A second such hit before the
    first timer has fired remembers white as the colour: after both timers
    have fired the plane is white, and stays white. *)
Theorem hit_flash_and_restore
        (a1 a2 : Z) (e : t) (h h' : Host) :
  let e1 := fst (damage a1 e h) in
  let restore := RestoreColors (eid e) in
  (0 < health e - a1)%Z ->
  materials (mesh e1) = map flashWhite (materials (mesh e))
  /\ timers (snd (damage a1 e h)) = timers h ++ [(100, restore)]
  /\ (unflashed e ->
      materials (mesh (runCallback restore e1)) = materials (mesh e)
      /\ unflashed (runCallback restore e1))
  /\ ((0 < health e - a1 - a2)%Z ->
      let e2 := fst (damage a2 e1 h') in
      materials (mesh (runCallback restore (runCallback restore e2)))
      = map (fun _ => mkMaterial white None) (materials (mesh e))).
Proof.
  cbv zeta. intros Hlive.
  destruct (damage_flash a1 e h Hlive) as (M1 & I1 & H1 & T1).
  split; [exact M1|]. split; [exact T1|]. split.
  - intros Hun. unfold runCallback. rewrite I1, Nat.eqb_refl.
    cbn [mesh materials set set_mesh set_materials].
    rewrite M1, (restore_flash _ Hun). split; [reflexivity|].
    unfold unflashed.
    cbn [mesh materials set set_mesh set_materials].
    rewrite M1, (restore_flash _ Hun). exact Hun.
  - intros Hlive2.
    destruct (damage_flash a2 (fst (damage a1 e h)) h') as (M2 & I2 & _ & _);
      [rewrite H1; exact Hlive2|].
    unfold runCallback.
    cbn [eid set set_mesh]. rewrite I2, I1, Nat.eqb_refl.
    cbn [eid mesh materials set set_mesh set_materials].
    rewrite I2, I1, Nat.eqb_refl.
    cbn [mesh materials set set_mesh set_materials].
    rewrite M2, M1. apply restore_flash_flash.
Qed.

Lemma hit_flash_and_restore_witness :
  let e := EnemyPlaneSpec.sampleEnemy in
  let e1 := fst (damage 25 e EnemyPlaneSpec.sampleHost) in
  materials (mesh (runCallback (RestoreColors (eid e)) e1))
  = materials (mesh e)
  /\ unflashed (runCallback (RestoreColors (eid e)) e1).
Proof.
  apply (hit_flash_and_restore
           25 25 EnemyPlaneSpec.sampleEnemy
           EnemyPlaneSpec.sampleHost EnemyPlaneSpec.sampleHost).
  - cbn. lia.
  - unfold unflashed. cbn. repeat constructor.
Defined.

End FlashSpec.

(* ================================================================= *)
(** ** Game: the plane cannot fall out of the world *)

Module FallSpec.
Import Game JSArray JSArraySpec GameSpec.

Definition isPlaneDestroyed (ev : Event) : bool :=
  match ev with GameOverScreen planeDestroyed => true | _ => false end.

Definition altitude (g : t) : R := Vector3.y (Player.position (player g)).

(** No "plane destroyed" screen is added, and the player keeps its
    altitude. *)
Definition aloft (g g' : t) : Prop :=
  count isPlaneDestroyed (log g') = count isPlaneDestroyed (log g)
  /\ altitude g' = altitude g.

Lemma aloft_refl g : aloft g g.
Proof. split; reflexivity. Qed.

Lemma aloft_trans a b c : aloft a b -> aloft b c -> aloft a c.
Proof. unfold aloft. intuition congruence. Qed.

Lemma count_emit f ev g :
  count f (log (emit ev g))
  = (count f (log g) + if f ev then 1 else 0)%nat.
Proof.
  unfold emit, count; cbn. rewrite filter_app, length_app; cbn.
  destruct (f ev); reflexivity.
Qed.

Lemma createNewEnemy_aloft g h : aloft g (fst (createNewEnemy g h)).
Proof.
  destruct (createNewEnemy_spec g h)
    as (newEnemy & _ & _ & _ & Hlg & Hpl & _).
  unfold aloft, altitude. rewrite Hlg, Hpl, count_app.
  unfold count; cbn. split; [lia|reflexivity].
Qed.

Lemma handleEnemyDestruction_aloft e i g h :
  aloft g (fst (handleEnemyDestruction e i g h)).
Proof.
  destruct (handleEnemyDestruction_spec e i g h)
    as (newEnemy & released & _ & _ & _ & Hlg & Hrel & _ & Hpl & _).
  unfold aloft, altitude. rewrite Hlg, Hpl. split; [|reflexivity].
  rewrite count_app.
  change (ExplosionCreated :: released ++ ?l)
    with ([ExplosionCreated] ++ released ++ l).
  rewrite !count_app, Hrel.
  destruct (Z.ltb 0 _); unfold count; cbn; lia.
Qed.

Lemma afterHit_aloft i k e1 n g : aloft g (afterHit i k e1 n g).
Proof.
  unfold aloft, altitude, afterHit, emit, count; cbn.
  rewrite filter_app, length_app; cbn. split; [lia|reflexivity].
Qed.

Lemma checkBulletHitsLoop_aloft j :
  forall i g h, aloft g (fst (checkBulletHitsLoop j i g h)).
Proof.
  induction j as [|k IH]; intros i g h; [apply aloft_refl|].
  destruct (nth_error (enemies g) i) as [e|] eqn:He;
    destruct (nth_error (Player.bullets (player g)) k) as [b|] eqn:Hb;
    try (cbn [checkBulletHitsLoop]; rewrite ?Hb, ?He; apply IH).
  rewrite (checkBulletHitsLoop_step k i g h b e Hb He).
  destruct (bulletNear b e); [|apply IH].
  cbv zeta.
  match goal with
  | |- context [afterHit i k ?e1 ?n g] =>
    pose proof (afterHit_aloft i k e1 n g) as Hs;
    set (g2 := afterHit i k e1 n g) in *
  end.
  destruct (Z.leb _ 0).
  - eapply aloft_trans; [exact Hs|]. apply handleEnemyDestruction_aloft.
  - eapply aloft_trans; [exact Hs|]. apply IH.
Qed.

Lemma visitEnemy_aloft i e delta g h :
  aloft g (fst (visitEnemy i e delta g h)).
Proof.
  rewrite visitEnemy_eq. cbv zeta.
  set (e1 := synced (moved e delta g h)).
  set (g1 := g <| enemies ::= replaceAt i e1 |>).
  assert (Hs : aloft g g1) by (split; reflexivity).
  eapply aloft_trans; [exact Hs|].
  destruct (Z.leb _ 0).
  - apply handleEnemyDestruction_aloft.
  - rewrite checkBulletHits_eq. apply checkBulletHitsLoop_aloft.
Qed.

Lemma updateEnemiesLoop_aloft i delta :
  forall g h, aloft g (fst (updateEnemiesLoop i delta g h)).
Proof.
  induction i as [|k IH]; intros g h; [apply aloft_refl|].
  cbn [updateEnemiesLoop].
  destruct (nth_error (enemies g) k) as [e|]; [|apply IH].
  unfold bind.
  pose proof (visitEnemy_aloft k e delta g h) as Hs.
  destruct (visitEnemy k e delta g h) as [g1 h1]; cbn [fst] in Hs.
  eapply aloft_trans; [exact Hs|]. apply IH.
Qed.

Lemma spawnMissing_aloft n :
  forall g h, aloft g (fst (spawnMissing n g h)).
Proof.
  induction n as [|n IH]; intros g h; [apply aloft_refl|].
  cbn [spawnMissing]. unfold bind.
  pose proof (createNewEnemy_aloft g h) as Hs.
  destruct (createNewEnemy g h) as [g1 h1]; cbn [fst] in Hs.
  eapply aloft_trans; [exact Hs|]. apply IH.
Qed.

Lemma updateEnemies_aloft delta g h :
  aloft g (fst (updateEnemies delta g h)).
Proof.
  unfold updateEnemies, bind.
  pose proof (updateEnemiesLoop_aloft
                (List.length (enemies g)) delta g h) as Hs.
  destruct (updateEnemiesLoop _ delta g h) as [g1 h1]; cbn [fst] in Hs.
  eapply aloft_trans; [exact Hs|]. apply spawnMissing_aloft.
Qed.

Lemma updateBirds_aloft delta g h : aloft g (fst (updateBirds delta g h)).
Proof.
  destruct (updateBirds_onlyBirds delta g h) as (Hp & _ & _ & Hl & _).
  unfold aloft, altitude. rewrite Hl, Hp. split; reflexivity.
Qed.

Lemma safetyTeleport_y p :
  Vector3.y (Player.position (safetyTeleport p))
  = Vector3.y (Player.position p).
Proof.
  unfold safetyTeleport. cbv zeta. destruct (Rgt_dec _ _); reflexivity.
Qed.

Lemma pushBack_y d p :
  Vector3.y (Player.position (pushBack d p)) = Vector3.y (Player.position p).
Proof.
  unfold pushBack. cbv zeta.
  destruct (Rgt_dec d World.boundaryPushRadius); [|reflexivity].
  destruct (Rgt_dec d (World.worldRadius * 0.98)); [|reflexivity].
  destruct (Rgt_dec _ 0); reflexivity.
Qed.

Lemma checkWorldBounds_y p :
  Vector3.y (Player.position (checkWorldBounds p))
  = Vector3.y (Player.position p).
Proof.
  unfold checkWorldBounds. cbv zeta.
  destruct (Rgt_dec _ World.worldRadius); [|reflexivity].
  destruct (Rgt_dec _ 0); reflexivity.
Qed.

Lemma updateBoundaryEffects_aloft g : aloft g (updateBoundaryEffects g).
Proof.
  destruct (updateBoundaryEffects_rest g) as (_ & Hl & _).
  unfold aloft, altitude. rewrite Hl. split; [reflexivity|].
  unfold updateBoundaryEffects. cbv zeta.
  destruct (Rgt_dec _ World.boundaryWarningRadius);
    cbn [player set set_player set_boundaryWarningActive].
  - destruct (negb _ && spaceDown g);
      cbn [Player.position set Player.set_controls];
      rewrite pushBack_y; apply safetyTeleport_y.
  - apply safetyTeleport_y.
Qed.

Lemma checkTerrainCollisions_aloft g h :
  aloft g (fst (checkTerrainCollisions g h)).
Proof.
  assert (Hc : forall why, why <> planeDestroyed ->
                           aloft g (fst (crash why g h))).
  { intros why Hw. rewrite (proj1 (crash_spec why g h)).
    unfold aloft, altitude.
    rewrite (count_emit isPlaneDestroyed (GameOverScreen why)).
    cbn [log set set_gameOver].
    rewrite (count_emit isPlaneDestroyed ExplosionCreated).
    cbn [log set set_effectsToUpdate isPlaneDestroyed].
    split; [|reflexivity].
    destruct why; [contradiction| | |];
      cbn [log set_gameOver set_effectsToUpdate isPlaneDestroyed]; lia. }
  unfold checkTerrainCollisions. cbv zeta.
  destruct (JS.lt _ 5 && _ && _); [apply Hc; discriminate|].
  destruct (existsb _ (mountains g)); [apply Hc; discriminate|].
  destruct (existsb _ (trees g)); [apply Hc; discriminate|].
  apply aloft_refl.
Qed.

(** The vertical speed is no more than the speed. *)
Lemma y_le_length v : Rabs (Vector3.y v) <= Vector3.length v.
Proof.
  unfold Vector3.length, Vector3.lengthSq.
  rewrite <- sqrt_Rsqr_abs. apply sqrt_le_1_alt. unfold Rsqr. nra.
Qed.

Lemma playerUpdate_position delta p h :
  Player.position (fst (Player.update delta p h))
  = Player.position
      (Player.integratePosition delta (Player.integrateVelocity delta p)).
Proof.
  unfold Player.update. cbv zeta.
  set (q := Player.integratePosition delta (Player.integrateVelocity delta p)).
  destruct (steerRotation_keeps delta q) as (_ & _ & S3).
  set (q2 := Player.syncMesh (Player.updateRotation delta q)).
  assert (Hq2 : Player.position q2 = Player.position q).
  { unfold q2, Player.syncMesh, Player.updateRotation, Player.wrapYaw.
    cbn [Player.position set Player.set_meshPosition
         Player.set_meshQuaternion Player.set_rotation].
    exact S3. }
  clearbody q2. clearbody q. unfold bind.
  assert (Hs : Player.position (fst (Player.shoot q2 h))
               = Player.position q2).
  { unfold Player.shoot, bind, now, ret. cbn [fst snd].
    destruct (Rlt_dec _ _); reflexivity. }
  destruct (Player.shootKey (Player.controls q2)).
  - destruct (Player.shoot q2 h) as [q3 h1]. cbn [fst] in Hs.
    change (Player.position (fst (Player.updateBullets delta q3 h1)))
      with (Player.position q3).
    congruence.
  - change (ret q2 h) with (q2, h). cbv beta iota.
    change (Player.position (fst (Player.updateBullets delta q2 h)))
      with (Player.position q2).
    exact Hq2.
Qed.

(** In a frame of at most 0.1 s the player ends at altitude -50 or more,
    if it started there: at altitude 1 or above it sinks by less than 3,
    and below 1 it is put back at 1 if it is sinking, and rises or stays
    if not. *)
Lemma playerUpdate_altitude delta p h :
  0 <= delta <= 0.1 ->
  -50 <= Vector3.y (Player.position p) ->
  -50 <= Vector3.y (Player.position (fst (Player.update delta p h))).
Proof.
  intros Hd Hy. rewrite playerUpdate_position.
  set (q := Player.integrateVelocity delta p).
  assert (Hq : Player.position q = Player.position p).
  { unfold q, Player.integrateVelocity.
    destruct (limitSpeed_keeps (Player.accelerate delta p)) as (_ & _ & L).
    destruct (accelerate_keeps delta p) as (_ & _ & A). congruence. }
  assert (Hv : Rabs (Vector3.y (Player.velocity q)) <= Player.maxSpeed).
  { eapply Rle_trans; [apply y_le_length|].
    unfold q, Player.integrateVelocity. apply PlayerSpec.limitSpeed_bound. }
  clearbody q. unfold Player.integratePosition. cbv zeta.
  unfold JS.lt.
  destruct (Rlt_dec (Vector3.y (Player.position q)) 1.0) as [Hlow|Hhigh];
    [destruct (Rlt_dec (Vector3.y (Player.velocity q)) 0) as [Hdown|Hup]|];
    cbn; rewrite ?Hq in *.
  - lra.
  - nra.
  - unfold Player.maxSpeed in Hv.
    assert (- (100 / 3.6) <= Vector3.y (Player.velocity q))
      by (revert Hv; unfold Rabs; destruct (Rcase_abs _); lra).
    assert (- (100 / 3.6) * delta <= Vector3.y (Player.velocity q) * delta)
      by (apply Rmult_le_compat_r; lra).
    assert (- (100 / 3.6) * 0.1 <= - (100 / 3.6) * delta) by nra.
    lra.
Qed.

Lemma simulate_aloft delta g h :
  0 <= delta <= 0.1 ->
  -50 <= altitude g ->
  count isPlaneDestroyed (log (fst (simulate delta g h)))
  = count isPlaneDestroyed (log g)
  /\ -50 <= altitude (fst (simulate delta g h)).
Proof.
  intros Hd Hy. unfold simulate, bind.
  pose proof (playerUpdate_altitude delta (player g) h Hd Hy) as Hp.
  destruct (Player.update delta (player g) h) as [p h1]. cbn [fst] in Hp.
  cbv zeta.
  set (g1 := g <| player := checkWorldBounds p |>).
  assert (H1 : count isPlaneDestroyed (log g1)
               = count isPlaneDestroyed (log g)
               /\ -50 <= altitude g1).
  { unfold g1, altitude; cbn [log player set set_player].
    rewrite checkWorldBounds_y. split; [reflexivity|exact Hp]. }
  destruct H1 as [L1 A1].
  pose proof (checkTerrainCollisions_aloft g1 h1) as [L2 A2].
  destruct (checkTerrainCollisions g1 h1) as [g2 h2]; cbn [fst] in L2, A2.
  destruct (Rlt_dec _ (-50)) as [Hfall|_].
  { unfold altitude in A2, A1. lra. }
  pose proof (updateEnemies_aloft delta g2 h2) as [L3 A3].
  destruct (updateEnemies delta g2 h2) as [g3 h3]; cbn [fst] in L3, A3.
  pose proof (updateBirds_aloft delta g3 h3) as [L4 A4].
  destruct (updateBirds delta g3 h3) as [g4 h4]; cbn [fst] in L4, A4.
  unfold ret; cbn [fst].
  destruct (updateBoundaryEffects_aloft g4) as [L5 A5].
  split; [congruence|]. rewrite A5, A4, A3, A2. exact A1.
Qed.

Lemma animate_aloft elapsed g h :
  0 <= elapsed ->
  -50 <= altitude g ->
  count isPlaneDestroyed (log (fst (animate elapsed g h)))
  = count isPlaneDestroyed (log g)
  /\ -50 <= altitude (fst (animate elapsed g h)).
Proof.
  intros He Hy.
  assert (Hd : 0 <= Rmin elapsed 0.1 <= 0.1).
  { unfold Rmin. destruct (Rle_dec elapsed 0.1); lra. }
  assert (Hstill : forall efs,
             count isPlaneDestroyed
                   (log (render (g <| effectsToUpdate := efs |>)))
             = count isPlaneDestroyed (log g)
             /\ -50 <= altitude (render (g <| effectsToUpdate := efs |>)))
    by (intros efs; split; [reflexivity|exact Hy]).
  unfold animate, bind. cbv zeta.
  destruct (gameOver g) eqn:Hg.
  - destruct (updateEffects_only g h) as [efs Hefs].
    destruct (updateEffects g h) as [g1 h1]; cbn [fst] in Hefs. subst g1.
    unfold ret; cbn [fst]. apply Hstill.
  - rewrite gameUpdate_eq.
    destruct (updateEffects_only g h) as [efs Hefs].
    destruct (updateEffects g h) as [g1 h1]; cbn [fst] in Hefs. subst g1.
    set (g0 := g <| effectsToUpdate := efs |>).
    destruct (paused g0 || gameOver g0); [unfold ret; cbn [fst]; apply Hstill|].
    destruct (Z.leb 100 (rescuedBirds g0)).
    + unfold ret; cbn [fst]. split; [|exact Hy].
      change (log (render (emit VictoryScreen (g0 <| gameOver := true |>))))
        with (log (emit VictoryScreen g0)).
      rewrite (count_emit isPlaneDestroyed VictoryScreen).
      cbn [isPlaneDestroyed]. change (log g0) with (log g). lia.
    + destruct (simulate_aloft (Rmin elapsed 0.1) g0 h1 Hd Hy) as [L A].
      destruct (simulate (Rmin elapsed 0.1) g0 h1) as [g1 h2].
      unfold ret; cbn [fst] in *. split; [exact L|exact A].
Qed.

(** X15: over any run of frames (each with a time of 0 or more, of which
    [animate] uses at most 0.1 s), a player that starts at altitude -50 or
    more stays at altitude -50 or more, and the game-over screen "Your
    plane was destroyed!" is never shown: the test [position.y < -50] of
    [update] never succeeds.  ([Player.update] puts a plane that is below
    altitude 1 and sinking back at 1 before it moves, and a plane at 1 or
    above sinks by less than 2.8 in a frame.) *)
Theorem plane_never_falls_out_of_the_world
        (frames : list R) (g : t) (h : Host) :
  Forall (fun elapsed => 0 <= elapsed) frames ->
  -50 <= altitude g ->
  let gn := fst (animateFrames frames g h) in
  -50 <= altitude gn
  /\ count isPlaneDestroyed (log gn) = count isPlaneDestroyed (log g).
Proof.
  intros Hf. revert g h.
  induction Hf as [|elapsed rest He _ IH]; intros g h Hy; cbv zeta.
  - cbn. split; [exact Hy|reflexivity].
  - cbn [animateFrames]. unfold bind.
    destruct (animate_aloft elapsed g h He Hy) as [L A].
    destruct (animate elapsed g h) as [g1 h1]; cbn [fst] in L, A.
    destruct (IH g1 h1 A) as [A2 L2]. split; [exact A2|congruence].
Qed.

Lemma plane_never_falls_out_of_the_world_witness :
  -50 <= altitude (fst (animateFrames [0.016; 0.016] sampleGame
                                      EnemyPlaneSpec.sampleHost)).
Proof.
  apply (plane_never_falls_out_of_the_world
           [0.016; 0.016] sampleGame EnemyPlaneSpec.sampleHost).
  - repeat constructor; lra.
  - unfold altitude. cbn. lra.
Defined.

End FallSpec.

(* ================================================================= *)
(** ** Game: the enemies the game starts with *)

Module FleetSpec.
Import Game GameSpec.

(** What the constructor and [createNewEnemy] promise of a new enemy when
    the random numbers are in [0, 1). *)
Definition spawned (e : EnemyPlane.t) : Prop :=
  50 <= Vector3.distanceFromCenter (EnemyPlane.position e) < 150
  /\ 30 <= Vector3.y (EnemyPlane.position e) < 100
  /\ EnemyPlane.health e = 150%Z
  /\ 8.32 <= EnemyPlane.speed e < 14.56
  /\ EnemyPlane.currentSpeed e = EnemyPlane.speed e * 0.5.

Lemma create_randomSeq id pos h :
  randomSeq (snd (EnemyPlane.create id pos h)) = randomSeq h.
Proof. reflexivity. Qed.

Lemma createNewEnemy_spawned g h :
  BirdSpec.unitRandoms h ->
  exists e,
    enemies (fst (createNewEnemy g h)) = enemies g ++ [e]
    /\ EnemyPlane.eid e = nextEnemyId g
    /\ spawned e
    /\ nextEnemyId (fst (createNewEnemy g h)) = S (nextEnemyId g)
    /\ randomSeq (snd (createNewEnemy g h)) = randomSeq h.
Proof.
  intros Hr. rewrite (SpawnSpec.createNewEnemy_enemy g h Hr). cbv zeta.
  set (i := randomIdx h).
  set (angle := randomSeq h i * PI * 2).
  set (distance := 50 + randomSeq h (S i) * 100).
  assert (Hd : 50 <= distance < 150)
    by (pose proof (Hr (S i)); unfold distance; lra).
  match goal with
  | |- context [EnemyPlane.create ?id ?p ?h1] =>
    pose proof (SpawnSpec.create_fields id p h1) as Hc;
    pose proof (create_randomSeq id p h1) as Hs;
    destruct (EnemyPlane.create id p h1) as [e h']
  end.
  cbv zeta in Hc. cbn [fst snd randomSeq randomIdx] in Hc, Hs.
  destruct Hc as (C1 & C2 & C3 & C4 & C5 & _).
  exists e. split; [reflexivity|]. split; [exact C1|].
  split; [|split; [reflexivity | exact Hs]].
  unfold spawned. rewrite C2, C3, C5, C4.
  unfold Vector3.distanceFromCenter. cbn [Vector3.x Vector3.y Vector3.z].
  rewrite (SpawnSpec.polar_distance angle distance) by lra.
  pose proof (Hr (S (S i))). pose proof (Hr (S (S (S (S i))))).
  repeat split; try reflexivity; lra.
Qed.

Lemma createEnemiesLoop_fleet count :
  forall g h,
    BirdSpec.unitRandoms h ->
    exists fleet,
      enemies (fst (createEnemiesLoop count g h)) = enemies g ++ fleet
      /\ map EnemyPlane.eid fleet = seq (nextEnemyId g) count
      /\ Forall spawned fleet
      /\ nextEnemyId (fst (createEnemiesLoop count g h))
         = (nextEnemyId g + count)%nat.
Proof.
  induction count as [|count IH]; intros g h Hr.
  - exists []. cbn. rewrite app_nil_r, Nat.add_0_r.
    repeat split; constructor.
  - cbn [createEnemiesLoop]. unfold bind.
    destruct (createNewEnemy_spawned g h Hr)
      as (e & He & Hid & Hsp & Hnext & Hseq).
    destruct (createNewEnemy g h) as [g1 h1]. cbn [fst snd] in *.
    assert (Hr1 : BirdSpec.unitRandoms h1).
    { intros k. rewrite Hseq. exact (Hr k). }
    destruct (IH g1 h1 Hr1) as (fleet & Hf & Hids & Hall & Hn).
    exists (e :: fleet). rewrite Hf, He, <- app_assoc. cbn [app map seq].
    split; [reflexivity|].
    split; [rewrite Hid, Hids, Hnext; reflexivity|].
    split; [constructor; assumption|].
    rewrite Hn, Hnext. lia.
Qed.

Lemma seq_fresh a n :
  NoDup (seq a n) /\ Forall (fun id => (a <= id < a + n)%nat) (seq a n).
Proof.
  split; [apply seq_NoDup|].
  apply Forall_forall. intros id Hin. apply in_seq in Hin. exact Hin.
Qed.

(** X19: with random numbers in [0, 1), [createEnemies] appends exactly
    [maxEnemies] (40) enemies with 40 new identities in a row.  Every one
    of them is between 50 and 150 from the world centre, between altitude
    30 and 100, has health 150, a configured speed between 8.32 and 14.56
    and flies at half of it.  Enemies with distinct identities stay so. *)
Theorem initial_fleet (g : t) (h : Host) :
  BirdSpec.unitRandoms h ->
  let g' := fst (createEnemies g h) in
  exists fleet,
    enemies g' = enemies g ++ fleet
    /\ List.length fleet = World.maxEnemies
    /\ map EnemyPlane.eid fleet = seq (nextEnemyId g) World.maxEnemies
    /\ Forall spawned fleet
    /\ (wellFormedIds g -> wellFormedIds g').
Proof.
  intros Hr. cbv zeta. unfold createEnemies. cbv zeta.
  generalize World.maxEnemies. intros n.
  destruct (createEnemiesLoop_fleet n g h Hr)
    as (fleet & Hf & Hids & Hall & Hn).
  exists fleet. split; [exact Hf|].
  split; [rewrite <- (length_map EnemyPlane.eid), Hids; apply length_seq|].
  split; [exact Hids|]. split; [exact Hall|].
  intros [Hnd Hlt]. unfold wellFormedIds.
  rewrite Hf, map_app, Hids, Hn.
  destruct (seq_fresh (nextEnemyId g) n) as [Hsn Hsr].
  split.
  - apply NoDup_app; [exact Hnd | exact Hsn |].
    intros id Hin Hin2. rewrite Forall_forall in Hlt, Hsr.
    specialize (Hlt id Hin). specialize (Hsr id Hin2). lia.
  - apply Forall_app. split.
    + eapply Forall_impl; [|exact Hlt]. cbv beta. intros; lia.
    + eapply Forall_impl; [|exact Hsr]. cbv beta. intros; lia.
Qed.

Lemma initial_fleet_witness :
  exists fleet,
    enemies (fst (createEnemies sampleGame EnemyPlaneSpec.sampleHost))
    = enemies sampleGame ++ fleet
    /\ List.length fleet = World.maxEnemies
    /\ map EnemyPlane.eid fleet = seq (nextEnemyId sampleGame) World.maxEnemies
    /\ Forall spawned fleet
    /\ (wellFormedIds sampleGame ->
        wellFormedIds
          (fst (createEnemies sampleGame EnemyPlaneSpec.sampleHost))).
Proof.
  apply (initial_fleet sampleGame EnemyPlaneSpec.sampleHost).
  intros k. cbn. lra.
Defined.

End FleetSpec.

(* ================================================================= *)
(** ** Game: where the mountains and the trees are put *)

Module SceneSpec.
Import Game.

(** The circles of [a] and [b] on the ground do not overlap, as
    [isPositionClear] tests it: the squared distance of the centres is not
    less than the squared sum of the radii. *)
Definition separate (a b : Mountain) : Prop :=
  let dx := Vector3.x (mountainPosition b) - Vector3.x (mountainPosition a) in
  let dz := Vector3.z (mountainPosition b) - Vector3.z (mountainPosition a) in
  (radius b + radius a) * (radius b + radius a) <= dx * dx + dz * dz.

(** Strictly inside [runwayBounds]. *)
Definition nearRunway (p : Vector3.t) : Prop :=
  - 20 < Vector3.x p < 20 /\ - 60 < Vector3.z p < 60.

Lemma clearOfObjects_true x z r objs :
  clearOfObjects x z r objs = true ->
  Forall (fun obj => separate obj (mkMountain (Vector3.mk x 0 z) r)) objs.
Proof.
  induction objs as [|obj rest IH]; cbn [clearOfObjects]; intros H.
  - constructor.
  - cbv zeta in H. unfold JS.lt in H.
    destruct (Rlt_dec _ _) as [|Hge]; [discriminate|].
    constructor; [|apply IH; exact H].
    unfold separate. cbn. lra.
Qed.

Lemma nearRunway_spec x z :
  JS.gt x runwayBoundsMinX && JS.lt x runwayBoundsMaxX
  && JS.gt z runwayBoundsMinZ && JS.lt z runwayBoundsMaxZ = true
  <-> nearRunway (Vector3.mk x 0 z).
Proof.
  unfold runwayBoundsMinX, runwayBoundsMaxX, runwayBoundsMinZ,
    runwayBoundsMaxZ, World.runwayWidth, World.runwayLength, JS.gt, JS.lt,
    nearRunway.
  cbn [Vector3.x Vector3.z].
  destruct (Rlt_dec (- (20) / 2 - 10) x); cbn [andb];
    [|split; [discriminate | lra]].
  destruct (Rlt_dec x (20 / 2 + 10)); cbn [andb];
    [|split; [discriminate | lra]].
  destruct (Rlt_dec (- (100) / 2 - 10) z); cbn [andb];
    [|split; [discriminate | lra]].
  destruct (Rlt_dec z (100 / 2 + 10)); cbn [andb];
    [|split; [discriminate | lra]].
  split; [intros _; lra | reflexivity].
Qed.

Lemma isPositionClear_true x z r objs :
  isPositionClear x z r objs = true ->
  ~ nearRunway (Vector3.mk x 0 z)
  /\ Forall (fun obj => separate obj (mkMountain (Vector3.mk x 0 z) r)) objs.
Proof.
  unfold isPositionClear. intros H.
  destruct (_ && _) eqn:Hnear in H; [discriminate|].
  split; [|apply clearOfObjects_true; exact H].
  intros Hn. apply nearRunway_spec in Hn. congruence.
Qed.

(** Anything at 63.3 or more from the centre is outside [runwayBounds]. *)
Lemma far_not_nearRunway p :
  63.3 <= Vector3.distanceFromCenter p -> ~ nearRunway p.
Proof.
  unfold Vector3.distanceFromCenter, nearRunway. intros Hd [Hx Hz].
  assert (Hs : Vector3.x p * Vector3.x p + Vector3.z p * Vector3.z p
               < 63.3 * 63.3) by nra.
  assert (H0 : 0 <= Vector3.x p * Vector3.x p + Vector3.z p * Vector3.z p)
    by nra.
  assert (Hq : sqrt (Vector3.x p * Vector3.x p + Vector3.z p * Vector3.z p)
               < sqrt (63.3 * 63.3)) by (apply sqrt_lt_1_alt; lra).
  rewrite sqrt_square in Hq; lra.
Qed.

Lemma clearOfObjects_nil_or x z r objs :
  Forall (fun obj => separate obj (mkMountain (Vector3.mk x 0 z) r)) objs ->
  clearOfObjects x z r objs = true.
Proof.
  induction 1 as [|obj rest Hs _ IH]; cbn [clearOfObjects]; [reflexivity|].
  cbv zeta. unfold JS.lt, separate in *. cbn in Hs.
  destruct (Rlt_dec _ _) as [Hlt|]; [lra | exact IH].
Qed.

Lemma isPositionClear_far x z r objs :
  63.3 <= Vector3.distanceFromCenter (Vector3.mk x 0 z) ->
  isPositionClear x z r objs = clearOfObjects x z r objs.
Proof.
  intros Hd. apply far_not_nearRunway in Hd.
  unfold isPositionClear.
  destruct (_ && _) eqn:Hnear; [|reflexivity].
  exfalso. apply Hd. apply nearRunway_spec. exact Hnear.
Qed.

(** *** Mountains *)

(** What [createMountains] promises of a mountain when the random numbers
    are in [0, 1). *)
Definition mountainRange (m : Mountain) : Prop :=
  60 <= radius m < 110
  /\ 180 <= Vector3.distanceFromCenter (mountainPosition m) < 630.

Definition mountainPlaced (placed : list Mountain) (m : Mountain) : Prop :=
  Vector3.y (mountainPosition m) = 0
  /\ ~ nearRunway (mountainPosition m)
  /\ Forall (fun obj => separate obj m) placed.

Lemma unitRandoms_random h :
  BirdSpec.unitRandoms h -> BirdSpec.unitRandoms (snd (random h)).
Proof. intros H k. exact (H k). Qed.

Lemma findMountainPlace_spec n :
  forall placed h,
    match fst (findMountainPlace n placed h) with
    | Some m =>
      mountainPlaced placed m /\ (BirdSpec.unitRandoms h -> mountainRange m)
    | None => True
    end
    /\ randomSeq (snd (findMountainPlace n placed h)) = randomSeq h.
Proof.
  induction n as [|n IH]; intros placed h.
  - cbn. split; [exact I | reflexivity].
  - cbn [findMountainPlace]. unfold bind, random. cbv beta iota zeta.
    cbn [fst snd randomSeq randomIdx clockSeq clockIdx timers].
    set (h4 := mkHost _ (S (S (S (S (randomIdx h))))) _ _ _).
    set (r1 := randomSeq h (randomIdx h)).
    set (r3 := randomSeq h (S (S (randomIdx h)))).
    set (r4 := randomSeq h (S (S (S (randomIdx h))))).
    destruct (isPositionClear _ _ _ placed) eqn:Hclear.
    + unfold ret. cbn [fst snd]. split; [|reflexivity].
      apply isPositionClear_true in Hclear. destruct Hclear as [Hrun Hsep].
      split.
      * split; [reflexivity|]. split; assumption.
      * intros Hu. unfold mountainRange. cbn [radius mountainPosition].
        pose proof (Hu (randomIdx h)) as H1.
        pose proof (Hu (S (S (S (randomIdx h))))) as H4.
        fold r1 in H1. fold r4 in H4.
        unfold Vector3.distanceFromCenter. cbn [Vector3.x Vector3.z].
        rewrite SpawnSpec.polar_distance by lra. lra.
    + destruct (IH placed h4) as [Hm Hseq]. split.
      * destruct (fst (findMountainPlace n placed h4)) as [m|]; [|exact I].
        destruct Hm as [Hp Hr]. split; [exact Hp|].
        intros Hu. apply Hr. intros k. exact (Hu k).
      * rewrite Hseq. reflexivity.
Qed.

(** With random numbers in [0, 1) and nothing placed yet, the first attempt
    finds a place. *)
Lemma findMountainPlace_first n h :
  BirdSpec.unitRandoms h ->
  fst (findMountainPlace (S n) [] h) <> None.
Proof.
  intros Hu. cbn [findMountainPlace]. unfold bind, random.
  cbv beta iota zeta.
  cbn [fst snd randomSeq randomIdx clockSeq clockIdx timers].
  rewrite isPositionClear_far.
  - cbn [clearOfObjects]. unfold ret. cbn [fst]. discriminate.
  - unfold Vector3.distanceFromCenter. cbn [Vector3.x Vector3.z].
    pose proof (Hu (S (S (S (randomIdx h))))) as H4.
    rewrite SpawnSpec.polar_distance by lra. lra.
Qed.

Definition mountainsPlaced (ms : list Mountain) : Prop :=
  ForallOrdPairs separate ms
  /\ Forall (fun m => Vector3.y (mountainPosition m) = 0
                      /\ ~ nearRunway (mountainPosition m)) ms.

Lemma mountainsPlaced_app ms m :
  mountainsPlaced ms -> mountainPlaced ms m -> mountainsPlaced (ms ++ [m]).
Proof.
  intros [Hs Hr] (Hy & Hn & Hsep). split.
  - apply WeaponSpec.FOP_app_one; assumption.
  - apply Forall_app. split; [exact Hr|]. constructor; [|constructor].
    split; assumption.
Qed.

Lemma placeMountains_spec count :
  forall placed h,
    let ms := fst (placeMountains count placed h) in
    (List.length placed <= List.length ms <= List.length placed + count)%nat
    /\ (mountainsPlaced placed -> mountainsPlaced ms)
    /\ (BirdSpec.unitRandoms h ->
        Forall mountainRange placed -> Forall mountainRange ms)
    /\ (placed <> [] -> ms <> [])
    /\ randomSeq (snd (placeMountains count placed h)) = randomSeq h.
Proof.
  induction count as [|count IH]; intros placed h.
  - cbn. split; [lia|]. split; [auto|]. split; auto.
  - cbn [placeMountains]. unfold bind.
    destruct (findMountainPlace_spec 50 placed h) as [Hm Hseq].
    destruct (findMountainPlace 50 placed h) as [place h1].
    cbn [fst snd] in *. cbv beta iota.
    assert (Hu1 : BirdSpec.unitRandoms h -> BirdSpec.unitRandoms h1).
    { intros Hu k. rewrite Hseq. exact (Hu k). }
    destruct place as [m|].
    + specialize (IH (placed ++ [m]) h1). cbv zeta in IH.
      destruct IH as (Hlen & Hpl & Hrg & Hne & Hsq).
      destruct Hm as [Hp Hr].
      rewrite length_app in Hlen. cbn [List.length] in Hlen.
      cbv zeta. split; [lia|]. split; [|split].
      * intros H. apply Hpl. apply mountainsPlaced_app; assumption.
      * intros Hu H. apply Hrg; [auto|].
        apply Forall_app. split; [exact H|]. constructor; auto.
      * split; [|congruence].
        intros _. apply Hne. destruct placed; discriminate.
    + specialize (IH placed h1). cbv zeta in IH.
      destruct IH as (Hlen & Hpl & Hrg & Hne & Hsq).
      cbv zeta. split; [lia|]. split; [exact Hpl|].
      split; [|split; [exact Hne | congruence]].
      intros Hu. apply Hrg. auto.
Qed.

Lemma createMountains_mountains g h :
  mountains (fst (createMountains g h)) = fst (placeMountains 18 [] h)
  /\ fst (createMountains g h)
     = g <| mountains := fst (placeMountains 18 [] h) |>
  /\ snd (createMountains g h) = snd (placeMountains 18 [] h).
Proof.
  unfold createMountains, bind.
  destruct (placeMountains 18 [] h) as [ms h1]. cbn.
  split; [|split]; reflexivity.
Qed.

Lemma placeMountains_first count h :
  BirdSpec.unitRandoms h -> fst (placeMountains (S count) [] h) <> [].
Proof.
  intros Hu. cbn [placeMountains]. unfold bind.
  pose proof (findMountainPlace_first 49 h Hu) as Hfirst.
  destruct (findMountainPlace 50 [] h) as [place h1].
  cbn [fst snd] in *. cbv beta iota.
  destruct place as [m|]; [|congruence].
  apply (placeMountains_spec count ([] ++ [m]) h1). discriminate.
Qed.

(** X16: [createMountains] makes at most 18 mountains and changes nothing
    else.  Their base circles do not overlap one another, and no centre is
    within the runway's margin.  With random numbers in [0, 1) there is at
    least one mountain, and every mountain has a radius from 60 to 110 and
    its centre from 180 to 630 from the world centre. *)
Theorem mountains_are_placed_apart (g : t) (h : Host) :
  let g' := fst (createMountains g h) in
  g' = g <| mountains := mountains g' |>
  /\ (List.length (mountains g') <= 18)%nat
  /\ ForallOrdPairs separate (mountains g')
  /\ Forall (fun m => Vector3.y (mountainPosition m) = 0
                      /\ ~ nearRunway (mountainPosition m)) (mountains g')
  /\ (BirdSpec.unitRandoms h ->
      mountains g' <> [] /\ Forall mountainRange (mountains g')).
Proof.
  cbv zeta. destruct (createMountains_mountains g h) as (Hms & Hg & _).
  rewrite Hms.
  pose proof (placeMountains_spec 18 [] h) as H. cbv zeta in H.
  destruct H as (Hlen & Hpl & Hrg & _ & _).
  assert (H0 : mountainsPlaced []).
  { split; constructor. }
  destruct (Hpl H0) as [Hs Hr].
  split; [exact Hg|].
  split; [cbn [List.length] in Hlen; lia|].
  split; [exact Hs|]. split; [exact Hr|].
  intros Hu. split; [apply (placeMountains_first 17); exact Hu|].
  apply Hrg; [exact Hu | constructor].
Qed.

Lemma mountains_are_placed_apart_witness :
  let g' := fst (createMountains GameSpec.sampleGame
                                 EnemyPlaneSpec.sampleHost) in
  mountains g' <> [] /\ Forall mountainRange (mountains g').
Proof.
  apply (mountains_are_placed_apart GameSpec.sampleGame
                                    EnemyPlaneSpec.sampleHost).
  intros k. cbn. lra.
Defined.

(** *** Trees *)

Definition treeRange (p : Vector3.t) : Prop :=
  90 <= Vector3.distanceFromCenter p < 755.

Definition treePlaced (objs : list Mountain) (p : Vector3.t) : Prop :=
  Vector3.y p = 0
  /\ ~ nearRunway p
  /\ Forall (fun obj => separate obj (treeObject p)) objs.

Lemma findTreePlace_spec n :
  forall objs h,
    match fst (findTreePlace n objs h) with
    | Some p => treePlaced objs p /\ (BirdSpec.unitRandoms h -> treeRange p)
    | None => True
    end
    /\ randomSeq (snd (findTreePlace n objs h)) = randomSeq h.
Proof.
  induction n as [|n IH]; intros objs h.
  - cbn. split; [exact I | reflexivity].
  - cbn [findTreePlace]. unfold bind, random. cbv beta iota zeta.
    cbn [fst snd randomSeq randomIdx clockSeq clockIdx timers].
    set (h2 := mkHost _ (S (S (randomIdx h))) _ _ _).
    set (r2 := randomSeq h (S (randomIdx h))).
    destruct (isPositionClear _ _ _ objs) eqn:Hclear.
    + unfold ret. cbn [fst snd]. split; [|reflexivity].
      apply isPositionClear_true in Hclear. destruct Hclear as [Hrun Hsep].
      split.
      * split; [reflexivity|]. split; assumption.
      * intros Hu. unfold treeRange.
        pose proof (Hu (S (randomIdx h))) as H2. fold r2 in H2.
        unfold Vector3.distanceFromCenter, World.worldRadius.
        cbn [Vector3.x Vector3.z].
        rewrite SpawnSpec.polar_distance by lra. lra.
    + destruct (IH objs h2) as [Hm Hseq]. split.
      * destruct (fst (findTreePlace n objs h2)) as [p|]; [|exact I].
        destruct Hm as [Hp Hr]. split; [exact Hp|].
        intros Hu. apply Hr. intros k. exact (Hu k).
      * rewrite Hseq. reflexivity.
Qed.

(** Every tree keeps clear of the runway and of every mountain of [ms],
    and any two trees keep clear of one another. *)
Definition treesPlaced (ms : list Mountain) (ts : list Vector3.t) : Prop :=
  ForallOrdPairs (fun a b => separate (treeObject a) (treeObject b)) ts
  /\ Forall (fun p => Vector3.y p = 0
                      /\ ~ nearRunway p
                      /\ Forall (fun m => separate m (treeObject p)) ms) ts.

Lemma treesPlaced_app ms ts p :
  treesPlaced ms ts -> treePlaced (ms ++ map treeObject ts) p ->
  treesPlaced ms (ts ++ [p]).
Proof.
  intros [Hs Hr] (Hy & Hn & Hsep).
  apply Forall_app in Hsep. destruct Hsep as [Hms Hts].
  rewrite Forall_map in Hts. split.
  - apply WeaponSpec.FOP_app_one; assumption.
  - apply Forall_app. split; [exact Hr|]. constructor; [|constructor].
    split; [exact Hy|]. split; assumption.
Qed.

Lemma drawForMesh_randomSeq n :
  forall h, randomSeq (snd (drawForMesh n h)) = randomSeq h.
Proof.
  induction n as [|n IH]; intros h; [reflexivity|].
  cbn [drawForMesh]. unfold bind, random. rewrite IH. reflexivity.
Qed.

Lemma createTreeMesh_randomSeq h :
  randomSeq (snd (createTreeMesh h)) = randomSeq h.
Proof.
  unfold createTreeMesh, bind, random. cbv beta iota zeta.
  destruct (Z.eqb _ 0); [reflexivity|].
  destruct (Z.eqb _ 1); [reflexivity|].
  rewrite drawForMesh_randomSeq. reflexivity.
Qed.

Lemma placeTrees_spec count ms :
  forall placed h,
    let ts := fst (placeTrees count ms placed h) in
    (List.length ts <= List.length placed + count)%nat
    /\ (treesPlaced ms placed -> treesPlaced ms ts)
    /\ (BirdSpec.unitRandoms h ->
        Forall treeRange placed -> Forall treeRange ts).
Proof.
  induction count as [|count IH]; intros placed h.
  - cbn. split; [lia|]. split; auto.
  - cbn [placeTrees]. unfold bind.
    destruct (findTreePlace_spec 50 (ms ++ map treeObject placed) h)
      as [Hm Hseq].
    destruct (findTreePlace 50 (ms ++ map treeObject placed) h)
      as [place h1].
    cbn [fst snd] in *. cbv beta iota.
    assert (Hu1 : BirdSpec.unitRandoms h -> BirdSpec.unitRandoms h1).
    { intros Hu k. rewrite Hseq. exact (Hu k). }
    destruct place as [p|].
    + unfold bind.
      pose proof (createTreeMesh_randomSeq h1) as Hmesh.
      destruct (createTreeMesh h1) as [[] h2]. cbn [snd] in Hmesh.
      specialize (IH (placed ++ [p]) h2). cbv zeta in IH.
      destruct IH as (Hlen & Hpl & Hrg).
      destruct Hm as [Hp Hr].
      assert (Hu2 : BirdSpec.unitRandoms h -> BirdSpec.unitRandoms h2).
      { intros Hu k. rewrite Hmesh. exact (Hu1 Hu k). }
      rewrite length_app in Hlen. cbn [List.length] in Hlen.
      cbv zeta. split; [lia|]. split.
      * intros H. apply Hpl. apply treesPlaced_app; assumption.
      * intros Hu H. apply Hrg; [auto|].
        apply Forall_app. split; [exact H|]. constructor; auto.
    + specialize (IH placed h1). cbv zeta in IH.
      destruct IH as (Hlen & Hpl & Hrg).
      cbv zeta. split; [lia|]. split; [exact Hpl|].
      intros Hu. apply Hrg. auto.
Qed.

Lemma createTrees_trees g h :
  trees (fst (createTrees g h)) = fst (placeTrees 135 (mountains g) [] h)
  /\ fst (createTrees g h)
     = g <| trees := fst (placeTrees 135 (mountains g) [] h) |>
  /\ mountains (fst (createTrees g h)) = mountains g.
Proof.
  unfold createTrees, bind.
  destruct (placeTrees 135 (mountains g) [] h) as [ts h1]. cbn.
  split; [|split]; reflexivity.
Qed.

(** X17: [createTrees] makes at most 135 trees and changes nothing else.
    Every tree stands on the ground outside the runway's margin, its
    circle of radius 10 overlaps no mountain's base circle, and any two
    trees are at least 20 apart.  With random numbers in [0, 1) every tree
    is from 90 to 755 from the world centre. *)
Theorem trees_are_placed_apart (g : t) (h : Host) :
  let g' := fst (createTrees g h) in
  g' = g <| trees := trees g' |>
  /\ (List.length (trees g') <= 135)%nat
  /\ ForallOrdPairs (fun a b => separate (treeObject a) (treeObject b))
                    (trees g')
  /\ Forall (fun p => Vector3.y p = 0
                      /\ ~ nearRunway p
                      /\ Forall (fun m => separate m (treeObject p))
                                (mountains g))
            (trees g')
  /\ (BirdSpec.unitRandoms h -> Forall treeRange (trees g')).
Proof.
  cbv zeta. destruct (createTrees_trees g h) as (Hts & Hg & _). rewrite Hts.
  pose proof (placeTrees_spec 135 (mountains g) [] h) as H. cbv zeta in H.
  destruct H as (Hlen & Hpl & Hrg).
  assert (H0 : treesPlaced (mountains g) []).
  { split; constructor. }
  destruct (Hpl H0) as [Hs Hr].
  split; [exact Hg|].
  split; [cbn [List.length] in Hlen; lia|].
  split; [exact Hs|]. split; [exact Hr|].
  intros Hu. apply Hrg; [exact Hu | constructor].
Qed.

Lemma trees_are_placed_apart_witness :
  let g' := fst (createTrees GameSpec.sampleGame
                             EnemyPlaneSpec.sampleHost) in
  Forall treeRange (trees g').
Proof.
  apply (trees_are_placed_apart GameSpec.sampleGame
                                EnemyPlaneSpec.sampleHost).
  intros k. cbn. lra.
Defined.

(** *** The runway is clear *)

(** The triangle inequality on the ground: a point within [P] of the
    centre is at least [M - P] from a point at [M] or more. *)
Lemma far_apart px pz mx mz P M :
  sqrt (px * px + pz * pz) <= P ->
  M <= sqrt (mx * mx + mz * mz) ->
  P <= M ->
  M - P <= sqrt ((px - mx) * (px - mx) + (pz - mz) * (pz - mz)).
Proof.
  intros HP HM HPM.
  assert (Ha0 : 0 <= sqrt (px * px + pz * pz)) by apply sqrt_pos.
  assert (Hb0 : 0 <= sqrt (mx * mx + mz * mz)) by apply sqrt_pos.
  assert (Ha : sqrt (px * px + pz * pz) * sqrt (px * px + pz * pz)
               = px * px + pz * pz) by (apply sqrt_sqrt; nra).
  assert (Hb : sqrt (mx * mx + mz * mz) * sqrt (mx * mx + mz * mz)
               = mx * mx + mz * mz) by (apply sqrt_sqrt; nra).
  generalize dependent (sqrt (px * px + pz * pz)).
  generalize dependent (sqrt (mx * mx + mz * mz)).
  intros b HM Hb0 Hb a HP Ha0 Ha.
  pose proof (Rle_0_sqr (px * mz - pz * mx)) as Hdet. unfold Rsqr in Hdet.
  assert (Hcs : (px * mx + pz * mz) * (px * mx + pz * mz)
                <= (a * b) * (a * b)).
  { replace (a * b * (a * b)) with ((a * a) * (b * b)) by ring.
    rewrite Ha, Hb. lra. }
  assert (Hab : 0 <= a * b) by (apply Rmult_le_pos; assumption).
  assert (Ht : px * mx + pz * mz <= a * b).
  { destruct (Rle_dec (px * mx + pz * mz) (a * b)) as [|Hn]; [assumption|].
    exfalso. assert (Hlt : a * b < px * mx + pz * mz) by lra.
    assert (a * b * (a * b) < (px * mx + pz * mz) * (px * mx + pz * mz)).
    { apply Rle_lt_trans with (a * b * (px * mx + pz * mz)).
      - apply Rmult_le_compat_l; lra.
      - apply Rmult_lt_compat_r; lra. }
    lra. }
  assert (Hd : (b - a) * (b - a)
               <= (px - mx) * (px - mx) + (pz - mz) * (pz - mz)).
  { replace ((px - mx) * (px - mx) + (pz - mz) * (pz - mz))
      with ((px * px + pz * pz) + (mx * mx + mz * mz)
            - 2 * (px * mx + pz * mz)) by ring.
    rewrite <- Ha, <- Hb. lra. }
  assert (Hba : 0 <= M - P <= b - a) by lra.
  assert (Hsq : (M - P) * (M - P) <= (b - a) * (b - a)).
  { apply Rmult_le_compat; lra. }
  rewrite <- (sqrt_square (M - P)) by lra.
  apply sqrt_le_1_alt. lra.
Qed.

Lemma misses_mountain pos m :
  Vector3.distanceFromCenter pos <= 70 -> mountainRange m ->
  hitsMountain pos m = false.
Proof.
  intros Hp [Hr Hd]. unfold hitsMountain. cbv zeta.
  unfold Vector3.distanceFromCenter in *.
  pose proof (far_apart (Vector3.x pos) (Vector3.z pos)
                        (Vector3.x (mountainPosition m))
                        (Vector3.z (mountainPosition m)) 70 180 Hp
                        (proj1 Hd) ltac:(lra)) as Hfar.
  unfold JS.lt at 1. destruct (Rlt_dec _ _) as [Hlt|]; [lra | reflexivity].
Qed.

Lemma misses_tree pos p :
  Vector3.distanceFromCenter pos <= 70 -> treeRange p ->
  hitsTree pos p = false.
Proof.
  intros Hp Hd. unfold hitsTree, treeRange in *. cbv zeta.
  unfold Vector3.distanceFromCenter in *.
  pose proof (far_apart (Vector3.x pos) (Vector3.z pos)
                        (Vector3.x p) (Vector3.z p) 70 90 Hp
                        (proj1 Hd) ltac:(lra)) as Hfar.
  unfold JS.lt at 1. destruct (Rlt_dec _ _) as [Hlt|]; [lra | reflexivity].
Qed.

Lemma existsb_Forall_false {A} (f : A -> bool) l :
  Forall (fun a => f a = false) l -> existsb f l = false.
Proof.
  induction 1 as [|a l Ha _ IH]; cbn; [reflexivity|].
  rewrite Ha, IH. reflexivity.
Qed.

Lemma runway_within_70 pos :
  isPositionOverRunway (Vector3.x pos) (Vector3.z pos) = true ->
  Vector3.distanceFromCenter pos <= 70.
Proof.
  unfold isPositionOverRunway, World.runwayWidth, World.runwayLength,
    JS.ge, JS.le, Vector3.distanceFromCenter.
  cbv zeta. intros H.
  destruct (Rle_dec (- (20 / 2)) (Vector3.x pos)); [|discriminate].
  destruct (Rle_dec (Vector3.x pos) (20 / 2)); [|discriminate].
  destruct (Rle_dec (- (100 / 2)) (Vector3.z pos)); [|discriminate].
  destruct (Rle_dec (Vector3.z pos) (100 / 2)); [|discriminate].
  rewrite <- (sqrt_square 70) by lra.
  apply sqrt_le_1_alt. nra.
Qed.

Lemma checkTerrainCollisions_clear g h :
  let pos := Player.position (player g) in
  isPositionOverRunway (Vector3.x pos) (Vector3.z pos) = true ->
  existsb (hitsMountain pos) (mountains g) = false ->
  existsb (hitsTree pos) (trees g) = false ->
  checkTerrainCollisions g h = (g, h).
Proof.
  cbv zeta. intros Hover Hm Ht. unfold checkTerrainCollisions. cbv zeta.
  rewrite Hover, Hm, Ht. cbn [negb andb].
  rewrite andb_false_r. reflexivity.
Qed.

(** X18: in the world that [createMountains] and then [createTrees] make
    from random numbers in [0, 1), nothing stands near the runway: a plane
    within 70 of the world centre, at any altitude, hits no mountain and no
    tree, and over the runway [checkTerrainCollisions] never ends the
    game. *)
Theorem runway_is_clear_of_terrain (g : t) (h : Host) :
  BirdSpec.unitRandoms h ->
  let g1 := fst (createMountains g h) in
  let world := fst (createTrees g1 (snd (createMountains g h))) in
  (forall pos,
      Vector3.distanceFromCenter pos <= 70 ->
      existsb (hitsMountain pos) (mountains world) = false
      /\ existsb (hitsTree pos) (trees world) = false)
  /\ (forall p h',
        isPositionOverRunway (Vector3.x (Player.position p))
                             (Vector3.z (Player.position p)) = true ->
        checkTerrainCollisions (world <| player := p |>) h'
        = (world <| player := p |>, h')).
Proof.
  intros Hu. cbv zeta.
  destruct (createMountains_mountains g h) as (Hms & Hg1 & Hh1).
  set (g1 := fst (createMountains g h)) in *.
  set (h1 := snd (createMountains g h)) in *.
  destruct (createTrees_trees g1 h1) as (Hts & _ & Hwm).
  set (world := fst (createTrees g1 h1)) in *.
  assert (Hu1 : BirdSpec.unitRandoms h1).
  { intros k. rewrite Hh1.
    destruct (placeMountains_spec 18 [] h) as (_ & _ & _ & _ & Hsq).
    rewrite Hsq. exact (Hu k). }
  assert (Hmr : Forall mountainRange (mountains world)).
  { rewrite Hwm, Hms.
    apply (placeMountains_spec 18 [] h); [exact Hu | constructor]. }
  assert (Htr : Forall treeRange (trees world)).
  { rewrite Hts.
    apply (placeTrees_spec 135 (mountains g1) [] h1);
      [exact Hu1 | constructor]. }
  assert (Hnear : forall pos,
             Vector3.distanceFromCenter pos <= 70 ->
             existsb (hitsMountain pos) (mountains world) = false
             /\ existsb (hitsTree pos) (trees world) = false).
  { intros pos Hp. split; apply existsb_Forall_false.
    - eapply Forall_impl; [|exact Hmr].
      intros m Hm. apply misses_mountain; assumption.
    - eapply Forall_impl; [|exact Htr].
      intros p Hp'. apply misses_tree; assumption. }
  split; [exact Hnear|].
  intros p h' Hover.
  destruct (Hnear (Player.position p) (runway_within_70 _ Hover))
    as [Hm Ht].
  apply checkTerrainCollisions_clear; assumption.
Qed.

Lemma runway_is_clear_of_terrain_witness :
  let made := createMountains GameSpec.sampleGame
                              EnemyPlaneSpec.sampleHost in
  let world := fst (createTrees (fst made) (snd made)) in
  let pos := Vector3.mk 0 3 40 in
  Vector3.distanceFromCenter pos <= 70
  /\ existsb (hitsMountain pos) (mountains world) = false
  /\ existsb (hitsTree pos) (trees world) = false.
Proof.
  assert (Hpos : Vector3.distanceFromCenter (Vector3.mk 0 3 40) <= 70).
  { unfold Vector3.distanceFromCenter. cbn [Vector3.x Vector3.z].
    replace (0 * 0 + 40 * 40) with (40 * 40) by ring.
    rewrite sqrt_square; lra. }
  split; [exact Hpos|].
  apply (runway_is_clear_of_terrain GameSpec.sampleGame
                                    EnemyPlaneSpec.sampleHost);
    [intros k; cbn; lra | exact Hpos].
Defined.

End SceneSpec.
